(** * GovBot prototype: PII filter, message-history manager, indexing
      synchronizer and chat endpoints.

    A shallow embedding of
      - [app/utils/pii.py]                     (Module [Re], Module [Pii]),
      - [app/core/orchestrator.py]             (Module [Orchestrator]),
      - [app/core/rag/indexer.py]              (Module [Indexer]),
      - [app/api/endpoints/chat_endpoints.py]  (Module [ChatEndpoints]),
      - [app/models/follow_up_questions.py]    (Module [FollowUp]),
    followed by the properties established about them.

    Conventions.  A Python [str] is a list of characters; a character is
    a code point: up to U+00FF the type [ascii] read as Latin-1, which
    covers every literal of the sources, and above that the code point
    with its entry in the Unicode database.  Offsets are natural
    numbers.  Python
    list objects that a function may share with its caller live in an
    explicit heap.  External services (database session, vector store,
    embedding pipeline, agent) are state components whose calls may raise
    according to a schedule carried by the state. *)

From Stdlib Require Import List Ascii String Arith Bool ZArith Lia.
From Stdlib Require Import DecimalString Sorted.
From Stdlib Require QArith.
Import ListNotations.

Set Implicit Arguments.

(** ** Python strings *)

(** What the Unicode database says of a character above U+00FF, as far
    as [re] consults it: [\d] matches the decimal digits (category Nd),
    [\w] the alphanumerics, which the decimal digits are among. *)
Inductive uclass : Type :=
| Decimal
| Alphanumeric
| Neither.

(** A character is a code point.  Those up to U+00FF are given by the
    type [ascii] read as Latin-1; one above U+00FF is given by its code
    point together with its entry in the Unicode database: its class,
    and the code points of its upper-case form, each with its class (a
    character without an upper-case form of its own has itself). *)
Inductive char : Type :=
| Chr (a : ascii)
| Uni (code : N) (class : uclass) (uppercase : list (N * uclass)).

Definition str := list char.

Definition s2l (s : string) : str := map Chr (list_ascii_of_string s).
Coercion s2l : string >-> str.

(** [s[a:b]] for offsets [0 <= a] and [0 <= b]; an upper bound beyond the
    end is clipped, as in Python. *)
Definition slice (A : Type) (s : list A) (a b : nat) : list A :=
  firstn (b - a) (skipn a s).

Definition uclass_eqb (a b : uclass) : bool :=
  match a, b with
  | Decimal, Decimal | Alphanumeric, Alphanumeric | Neither, Neither => true
  | _, _ => false
  end.

Fixpoint entries_eqb (a b : list (N * uclass)) : bool :=
  match a, b with
  | [], [] => true
  | (x, k) :: a', (y, l) :: b' =>
      N.eqb x y && uclass_eqb k l && entries_eqb a' b'
  | _, _ => false
  end.

(** [==] on characters *)
Definition char_eqb (a b : char) : bool :=
  match a, b with
  | Chr x, Chr y => Ascii.eqb x y
  | Uni x k u, Uni y l v => N.eqb x y && uclass_eqb k l && entries_eqb u v
  | _, _ => false
  end.

Fixpoint str_eqb (a b : str) : bool :=
  match a, b with
  | [], [] => true
  | x :: a', y :: b' => char_eqb x y && str_eqb a' b'
  | _, _ => false
  end.

Fixpoint startswith (s sub : str) : bool :=
  match sub, s with
  | [], _ => true
  | c :: sub', d :: s' => char_eqb c d && startswith s' sub'
  | _ :: _, [] => false
  end.

(** [sub in s] *)
Fixpoint contains (sub s : str) : bool :=
  startswith s sub ||
  match s with
  | [] => false
  | _ :: s' => contains sub s'
  end.

(** [x in {...}] for a set of strings *)
Definition str_in (x : str) (xs : list str) : bool := existsb (str_eqb x) xs.

(** ** The part of Python's [re] that [pii.py] uses *)

Module Re.

(** The code point of a character up to U+00FF. *)
Definition code (a : ascii) : nat := nat_of_ascii a.

(** A range of code points that lies below U+0100. *)
Definition in_range (lo hi : nat) (c : char) : bool :=
  match c with
  | Chr a => (lo <=? code a) && (code a <=? hi)
  | Uni _ _ _ => false
  end.

Definition lit (x : ascii) : char -> bool := char_eqb (Chr x).

(** The range [0-9]. *)
Definition is_ascii_digit : char -> bool := in_range 48 57.

(** [\d] of a [str] pattern (Unicode matching): any decimal digit; up
    to U+00FF these are [0-9]. *)
Definition is_digit (c : char) : bool :=
  match c with
  | Chr _ => is_ascii_digit c
  | Uni _ class _ => uclass_eqb class Decimal
  end.

Definition is_upper : char -> bool := in_range 65 90.
Definition is_lower : char -> bool := in_range 97 122.

(** The class [[A-Za-z0-9]]. *)
Definition is_alnum (c : char) : bool :=
  is_upper c || is_lower c || is_ascii_digit c.

(** [\w] of a [str] pattern (Unicode matching): alphanumerics and the
    underscore.  From U+0080 to U+00FF the alphanumerics are U+00AA,
    U+00B2, U+00B3, U+00B5, U+00B9, U+00BA, U+00BC..U+00BE and the
    letters U+00C0..U+00FF without the signs U+00D7 and U+00F7. *)
Definition is_word (c : char) : bool :=
  match c with
  | Chr a =>
      is_alnum c || (code a =? 95)
      || existsb (Nat.eqb (code a))
                 [170; 178; 179; 181; 185; 186; 188; 189; 190]
      || in_range 192 214 c || in_range 216 246 c || in_range 248 255 c
  | Uni _ class _ => negb (uclass_eqb class Neither)
  end.

Inductive regex : Type :=
| Cls (p : char -> bool)       (* one character of a class *)
| Rep (p : char -> bool) (lo : nat) (hi : option nat)
                                (* greedy p{lo,hi}; no [hi]: unbounded *)
| WordB                         (* \b *)
| Cat (r1 r2 : regex)
| Alt (r1 r2 : regex).          (* r1|r2, r1 preferred *)

(** A position in the subject: the character before it, if any, and
    the characters from it on. *)
Definition cont (A : Type) : Type := option char -> str -> option A.

Definition word_at (c : option char) : bool :=
  match c with
  | Some x => is_word x
  | None => false
  end.

Definition at_boundary (prev : option char) (rest : str) : bool :=
  xorb (word_at prev) (word_at (hd_error rest)).

Definition may_take (hi : option nat) : bool :=
  match hi with
  | Some 0 => false
  | _ => true
  end.

(** Greedy bounded repetition of a class: take as many characters as
    allowed, give one back at a time while the rest of the pattern
    fails. *)
Fixpoint rep (A : Type) (p : char -> bool) (lo : nat) (hi : option nat)
         (prev : option char) (rest : str) (k : cont A) {struct rest}
  : option A :=
  match rest with
  | c :: rest' =>
      if p c && may_take hi then
        match rep p (pred lo) (option_map pred hi) (Some c) rest' k with
        | Some r => Some r
        | None => if lo =? 0 then k prev rest else None
        end
      else if lo =? 0 then k prev rest else None
  | [] => if lo =? 0 then k prev rest else None
  end.

(** Backtracking matcher in continuation-passing style. *)
Fixpoint run (A : Type) (r : regex) (prev : option char) (rest : str)
         (k : cont A) {struct r} : option A :=
  match r with
  | Cls p =>
      match rest with
      | c :: rest' => if p c then k (Some c) rest' else None
      | [] => None
      end
  | Rep p lo hi => rep p lo hi prev rest k
  | WordB => if at_boundary prev rest then k prev rest else None
  | Cat r1 r2 => run r1 prev rest (fun prev' rest' => run r2 prev' rest' k)
  | Alt r1 r2 =>
      match run r1 prev rest k with
      | Some x => Some x
      | None => run r2 prev rest k
      end
  end.

(** Length of the match of [r] that starts at this position, if any. *)
Definition match_at (r : regex) (prev : option char) (rest : str)
  : option nat :=
  run r prev rest (fun _ rest' => Some (List.length rest - List.length rest')).

(** Left-to-right scan for non-overlapping matches: after a match of
    length [n] the next attempt is made where the match ended, so the
    [n - 1] positions inside it are skipped. *)
Fixpoint scan (r : regex) (prev : option char) (rest : str)
         (pos skip : nat) {struct rest} : list (nat * nat) :=
  let here := match skip with
              | 0 => match_at r prev rest
              | S _ => None
              end in
  let skip' := match here with
               | Some n => pred n
               | None => pred skip
               end in
  match here with
  | Some n => [(pos, pos + n)]
  | None => []
  end ++
  match rest with
  | [] => []
  | c :: rest' => scan r (Some c) rest' (S pos) skip'
  end.

(** [pattern.finditer(text)] as the list of [(m.start(), m.end())]. *)
Definition finditer (r : regex) (text : str) : list (nat * nat) :=
  scan r None text 0 0.

Fixpoint seq_of (rs : list regex) (last : regex) : regex :=
  match rs with
  | [] => last
  | r :: rs' => Cat r (seq_of rs' last)
  end.

End Re.

(** ** [app/utils/pii.py] *)

Module Pii.
Import Re.

Record PIIMatch : Type := mkPIIMatch {
  kind : str;
  match_ : str;
  start : nat;
  end_ : nat
}.

(** [[A-Za-z0-9._%+-]] *)
Definition email_local (c : char) : bool :=
  is_alnum c || existsb (char_eqb c) (s2l "._%+-").

(** [[A-Za-z0-9.-]] *)
Definition email_domain (c : char) : bool :=
  is_alnum c || existsb (char_eqb c) (s2l ".-").

(** [[A-Za-z]] *)
Definition is_alpha (c : char) : bool := is_upper c || is_lower c.

(** [\b[A-Za-z0-9._%+-]+@[A-Za-z0-9.-]+\.[A-Za-z]{2,}\b] *)
Definition email_re : regex :=
  seq_of [WordB; Rep email_local 1 None; Cls (lit "@");
          Rep email_domain 1 None; Cls (lit "."); Rep is_alpha 2 None]
         WordB.

(** [\b(?:\+?254|0)(?:7|1)\d{8}\b] *)
Definition phone_re : regex :=
  seq_of [WordB;
          Alt (seq_of [Rep (lit "+") 0 (Some 1); Cls (lit "2"); Cls (lit "5")]
                      (Cls (lit "4")))
              (Cls (lit "0"));
          Alt (Cls (lit "7")) (Cls (lit "1"));
          Rep is_digit 8 (Some 8)]
         WordB.

(** [\b\d{7,8}\b] *)
Definition national_id_re : regex :=
  seq_of [WordB; Rep is_digit 7 (Some 8)] WordB.

(** [\b[A-Za-z0-9]{6,9}\b] *)
Definition passport_re : regex :=
  seq_of [WordB; Rep is_alnum 6 (Some 9)] WordB.

(** The dictionary of [_compile_patterns], in insertion order (the
    order in which [.items()] yields it). *)
Definition _PATTERNS : list (str * regex) :=
  [ (s2l "email", email_re);
    (s2l "phone", phone_re);
    (s2l "national_id", national_id_re);
    (s2l "passport", passport_re) ].

(** [text[max(0, m.start()-8): m.end()+8]]; subtraction on [nat]
    stops at [0]. *)
Definition surrounding (text : str) (s e : nat) : str :=
  slice text (Nat.max 0 (s - 8)) (e + 8).

(** The [continue] of the inner loop. *)
Definition skipped (k : str) (text : str) (s e : nat) : bool :=
  if str_in k [s2l "national_id"; s2l "passport"] then
    contains (s2l "http") (surrounding text s e)
    || contains (s2l "@") (surrounding text s e)
  else false.

Definition matches_of (text : str) (kp : str * regex) : list PIIMatch :=
  flat_map
    (fun m : nat * nat =>
       let (s, e) := m in
       if skipped (fst kp) text s e then []
       else [mkPIIMatch (fst kp) (slice text s e) s e])
    (finditer (snd kp) text).

Definition detect_pii (text : str) : list PIIMatch :=
  match text with
  | [] => []
  | _ => flat_map (matches_of text) _PATTERNS
  end.

(** The character of a code point with its class, as an entry of the
    Unicode database names it in an upper-case form. *)
Definition char_of (entry : N * uclass) : char :=
  if (fst entry <? 256)%N then Chr (ascii_of_N (fst entry))
  else Uni (fst entry) (snd entry) [entry].

(** The upper-case form of one character.  Up to U+00FF: [a-z] and the
    letters U+00E0..U+00FE (without the sign U+00F7) move down by 32,
    U+00DF gives [SS], U+00B5 gives U+039C, U+00FF gives U+0178, and
    every other character is kept.  Above, the form is the one of the
    character's entry. *)
Definition upper_char (c : char) : str :=
  match c with
  | Chr a =>
      if is_lower c then [Chr (ascii_of_nat (code a - 32))]
      else if code a =? 181 then [char_of (924%N, Alphanumeric)]
      else if code a =? 223 then s2l "SS"
      else if code a =? 255 then [char_of (376%N, Alphanumeric)]
      else if in_range 224 254 c && negb (code a =? 247)
           then [Chr (ascii_of_nat (code a - 32))]
      else [c]
  | Uni _ _ uppercase => map char_of uppercase
  end.

(** [str.upper] *)
Definition upper (s : str) : str := flat_map upper_char s.

(** [f"<{m.kind.upper()}_REDACTED>"] *)
Definition placeholder (m : PIIMatch) : str :=
  s2l "<" ++ upper (kind m) ++ s2l "_REDACTED>".

(** [sorted(matches, key=lambda x: x.start, reverse=True)]: a stable
    sort, so matches with equal [start] keep their relative order. *)
Fixpoint insert_desc (x : PIIMatch) (l : list PIIMatch) : list PIIMatch :=
  match l with
  | [] => [x]
  | y :: l' =>
      if start x <? start y then y :: insert_desc x l' else x :: l
  end.

Definition sorted_desc (l : list PIIMatch) : list PIIMatch :=
  fold_right insert_desc [] l.

Definition redact_step (redacted : str) (m : PIIMatch) : str :=
  firstn (start m) redacted ++ placeholder m ++ skipn (end_ m) redacted.

Definition redact_pii (text : str) (matches : option (list PIIMatch)) : str :=
  match text with
  | [] => text
  | _ =>
      let matches := match matches with
                     | Some ms => ms
                     | None => detect_pii text
                     end in
      match matches with
      | [] => text
      | _ => fold_left redact_step (sorted_desc matches) text
      end
  end.

End Pii.

(** ** Exceptions and stateful code *)

(** The exceptions that derive from [Exception], which are the ones
    that [except Exception] catches.  What derives from [BaseException]
    only (a cancellation, a keyboard interrupt) passes every handler of
    the sources and is not part of this model: an external call here
    returns or raises an [Exception]. *)
Inductive exn : Type :=
| HTTPException (status_code : nat) (detail : str)
| Exception (msg : str).              (* any other exception *)

(** [str(e)]; an [HTTPException] prints as its status code and detail. *)
Definition str_of_exn (e : exn) : str :=
  match e with
  | HTTPException status_code detail =>
      s2l (NilEmpty.string_of_uint (Nat.to_uint status_code))
      ++ s2l ": " ++ detail
  | Exception msg => msg
  end.

Inductive result (A : Type) : Type :=
| Ok (a : A)
| Raise (e : exn).

Arguments Ok {A} a.
Arguments Raise {A} e.

(** A computation over a state [S] that returns or raises; what it did
    to the state before raising stays done. *)
Definition M (S A : Type) : Type := S -> result A * S.

Definition ret (S A : Type) (a : A) : M S A := fun s => (Ok a, s).

Definition raise (S A : Type) (e : exn) : M S A := fun s => (Raise e, s).

Definition bind (S A B : Type) (m : M S A) (k : A -> M S B) : M S B :=
  fun s =>
    match m s with
    | (Ok a, s') => k a s'
    | (Raise e, s') => (Raise e, s')
    end.

(** [try: m  except Exception as e: handler e] *)
Definition try_except (S A : Type) (m : M S A) (handler : exn -> M S A)
  : M S A :=
  fun s =>
    match m s with
    | (Ok a, s') => (Ok a, s')
    | (Raise e, s') => handler e s'
    end.

Definition get (S : Type) : M S S := fun s => (Ok s, s).

Definition modify (S : Type) (f : S -> S) : M S unit := fun s => (Ok tt, f s).

Arguments ret {S A} a.
Arguments raise {S A} e.
Arguments get {S}.

Declare Scope py_scope.
Delimit Scope py_scope with py.
Notation "x <- m ;; k" := (bind m (fun x => k))
  (at level 61, m at next level, right associativity) : py_scope.
Notation "m ;; k" := (bind m (fun _ => k))
  (at level 61, right associativity) : py_scope.

(** [for x in xs: body x] *)
Fixpoint for_each (S A : Type) (xs : list A) (body : A -> M S unit)
  : M S unit :=
  match xs with
  | [] => ret tt
  | x :: xs' => bind (body x) (fun _ => for_each xs' body)
  end.

(** Outcome of one call to an external service. *)
Inductive outcome : Type :=
| Works
| Fails (e : str) (progress : nat).
    (* the call raises [Exception e]; [progress] counts the items a bulk
       call had written before it raised *)

(** [range(0, n, step)] *)
Definition range_step (n step : nat) : list nat :=
  map (fun j => j * step) (seq 0 ((n + step - 1) / step)).

(** ** [app/core/orchestrator.py] *)

Module Orchestrator.

(** A message as the two functions see it: its [kind] attribute and
    its [id] attribute, when it has one ([hasattr(msg, 'id')]). *)
Record ModelMessage : Type := mkMessage {
  kind : str;
  id : option nat;
  content : str
}.

(** Python list objects, addressed by reference. *)
Definition ref : Type := nat.
Definition heap : Type := list (list ModelMessage).

Definition deref (h : heap) (r : ref) : list ModelMessage := nth r h [].

(** A new list object. *)
Definition new_list (h : heap) (v : list ModelMessage) : heap * ref :=
  (h ++ [v], List.length h).

Fixpoint update (h : heap) (r : ref) (v : list ModelMessage) : heap :=
  match h, r with
  | [], _ => []
  | _ :: h', 0 => v :: h'
  | x :: h', S r' => x :: update h' r' v
  end.

(** [r.append(msg)], in place. *)
Definition list_append (h : heap) (r : ref) (msg : ModelMessage) : heap :=
  update h r (deref h r ++ [msg]).

(** [l[i:]] for any integer [i]. *)
Definition slice_from (A : Type) (l : list A) (i : Z) : list A :=
  let n := Z.of_nat (List.length l) in
  let from := if (i <? 0)%Z then Z.max 0 (n + i) else Z.min i n in
  skipn (Z.to_nat from) l.

Definition is_system (msg : ModelMessage) : bool :=
  str_eqb (kind msg) (s2l "system").

Definition combine_message_histories
           (h : heap) (existing_history new_messages : ref) : heap * ref :=
  let existing_ids :=
    fold_left (fun ids msg =>
                 match id msg with
                 | Some i => i :: ids
                 | None => ids
                 end)
              (deref h existing_history) [] in
  let (h1, combined) := new_list h (deref h existing_history) in
  let h2 :=
    fold_left (fun hh msg =>
                 match id msg with
                 | Some i =>
                     if existsb (Nat.eqb i) existing_ids then hh
                     else list_append hh combined msg
                 | None => list_append hh combined msg
                 end)
              (deref h1 new_messages) h1 in
  (h2, combined).

Definition truncate_message_history
           (h : heap) (message_history : ref) (max_messages : Z)
  : heap * ref :=
  if (Z.of_nat (List.length (deref h message_history)) <=? max_messages)%Z
  then (h, message_history)
  else
    let (h1, system_messages) :=
      new_list h (filter is_system (deref h message_history)) in
    let (h2, other_messages) :=
      new_list h1 (filter (fun msg => negb (is_system msg))
                          (deref h1 message_history)) in
    let (h3, recent_messages) :=
      new_list h2 (slice_from (deref h2 other_messages) (- max_messages)) in
    new_list h3 (deref h3 system_messages ++ deref h3 recent_messages).

End Orchestrator.

(** ** [app/core/rag/indexer.py] *)

Module Indexer.

Local Open Scope py_scope.

(** Modelled from the spec: the ORM class [Webpage] of
    [app/db/models/webpage.py], which is not among the sources; these
    are the columns that [indexer.py] and
    [scripts/add_indexing_columns.py] read and write.  [None] is SQL
    NULL; [is_indexed] is [BOOLEAN NOT NULL DEFAULT FALSE]; timestamps
    are clock readings. *)
Record Webpage : Type := mkWebpage {
  id : nat;
  url : str;
  title : option str;
  content_markdown : option str;
  collection_id : option str;
  last_crawled : option nat;
  is_indexed : bool;
  indexed_at : option nat
}.

(** The dictionaries that [get_unindexed_documents] builds. *)
Record Doc : Type := mkDoc {
  doc_id : nat;
  doc_url : str;
  doc_title : str;
  doc_content : option str;
  doc_last_crawled : option nat
}.

(** What the ingestion pipeline writes to the vector store for one
    chunk (the embedding vector itself is left out). *)
Record Node : Type := mkNode {
  node_text : str;
  node_title : str;
  node_url : str;
  node_doc_id : nat;
  node_last_crawled : option nat;
  node_chunk : nat
}.

(** The dictionary [stats]. *)
Record Stats : Type := mkStats {
  st_collection_id : str;
  st_start_time : nat;
  documents_processed : nat;
  documents_indexed : nat;
  status : str;
  st_end_time : option nat;
  st_message : option str;
  st_error : option str
}.

Record World : Type := mkWorld {
  table : list Webpage;      (* the committed rows of [webpages] *)
  session : list Webpage;    (* the rows as the open session sees them *)
  vectors : list Node;       (* the vector store *)
  clock : nat;
  faults : list outcome      (* outcomes of the coming external calls;
                                once used up, every call works *)
}.

Definition set_session (f : list Webpage -> list Webpage) (w : World)
  : World :=
  mkWorld (table w) (f (session w)) (vectors w) (clock w) (faults w).

Definition set_vectors (f : list Node -> list Node) (w : World) : World :=
  mkWorld (table w) (session w) (f (vectors w)) (clock w) (faults w).

(** One call to an external service: it works, or it raises; a bulk
    call that raises after [progress] items leaves [effect progress]
    behind. *)
Definition await_bulk (effect : nat -> World -> World) : M World unit :=
  fun w =>
    match faults w with
    | [] => (Ok tt, w)
    | Works :: fs =>
        (Ok tt, mkWorld (table w) (session w) (vectors w) (clock w) fs)
    | Fails e progress :: fs =>
        (Raise (Exception e),
         effect progress
                (mkWorld (table w) (session w) (vectors w) (clock w) fs))
    end.

Definition await_io : M World unit := await_bulk (fun _ w => w).

(** [datetime.now(timezone.utc)] *)
Definition now : M World nat :=
  fun w =>
    (Ok (clock w),
     mkWorld (table w) (session w) (vectors w) (S (clock w)) (faults w)).

(** [await db.execute(select(Webpage).where(p))] followed by
    [.scalars().all()] *)
Definition db_select (p : Webpage -> bool) : M World (list Webpage) :=
  _ <- await_io ;;
  w <- get ;;
  ret (filter p (session w)).

(** [await db.execute(update(Webpage).where(p).values(...))] *)
Definition db_update (p : Webpage -> bool) (values : Webpage -> Webpage)
  : M World unit :=
  _ <- await_io ;;
  modify (set_session (map (fun row => if p row then values row else row))).

(** [await db.commit()] *)
Definition db_commit : M World unit :=
  _ <- await_io ;;
  modify (fun w =>
            mkWorld (session w) (session w) (vectors w) (clock w) (faults w)).

(** [await db.rollback()], also what closing the session does to
    changes that were not committed. *)
Definition db_rollback : M World unit :=
  modify (fun w =>
            mkWorld (table w) (table w) (vectors w) (clock w) (faults w)).

(** SQL [column = value]: NULL equals nothing. *)
Definition sql_eq (column : option str) (value : str) : bool :=
  match column with
  | Some c => str_eqb c value
  | None => false
  end.

(** SQL [column IS NOT NULL] *)
Definition sql_not_null (A : Type) (column : option A) : bool :=
  match column with
  | Some _ => true
  | None => false
  end.

(** Truthiness of an optional string: [None] and [""] are false. *)
Definition not_empty (s : option str) : bool :=
  match s with
  | Some (_ :: _) => true
  | _ => false
  end.

(** [item.get(key, default)] *)
Definition get_or (default : str) (value : option str) : str :=
  match value with
  | Some v => v
  | None => default
  end.

(** The dictionaries that [extract_texts_by_collection] builds; the keys
    ["title"] and ["url"] may be missing. *)
Record Item : Type := mkItem {
  item_title : option str;
  item_url : option str;
  item_content : str;
  item_id : nat;
  item_last_crawled : option nat
}.

(** What [extract_text_batch] returns: the list of dictionaries, or
    one string. *)
Inductive Batch : Type :=
| Json (texts : list Item)
| Plain (content : str).

(** What [get_collection_stats] returns for one collection. *)
Record CollectionStats : Type := mkCollectionStats {
  cs_collection_id : str;
  webpage_count : nat;
  total_characters : nat;
  earliest_crawl : option nat;
  latest_crawl : option nat
}.

Inductive StatsResult : Type :=
| OneCollection (stats : CollectionStats)
| AllCollections (total_collections : nat) (collections : list (str * nat)).

(** SQL [last_crawled >= time_threshold]: NULL is not at or after
    anything. *)
Definition crawled_since (time_threshold : Z) (row : Webpage) : bool :=
  match last_crawled row with
  | Some t => (time_threshold <=? Z.of_nat t)%Z
  | None => false
  end.

Definition in_collection (collection : str) (row : Webpage) : bool :=
  sql_eq (collection_id row) collection.

Definition item_of (include_title include_url : bool) (webpage : Webpage)
  : Item :=
  mkItem (if include_title && not_empty (title webpage)
          then title webpage else None)
         (if include_url then Some (url webpage) else None)
         (get_or [] (content_markdown webpage))
         (id webpage) (last_crawled webpage).

Definition newline : str := [Chr (ascii_of_nat 10)].

(** Two values of [collection_id] that [GROUP BY] puts in one group. *)
Definition same_group (a b : option str) : bool :=
  match a, b with
  | Some x, Some y => str_eqb x y
  | None, None => true
  | _, _ => false
  end.

(** The values of [collection_id] in the rows, each once. *)
Fixpoint group_keys (rows : list Webpage) : list (option str) :=
  match rows with
  | [] => []
  | row :: rows' =>
      if existsb (same_group (collection_id row)) (group_keys rows')
      then group_keys rows'
      else collection_id row :: group_keys rows'
  end.

(** [await db.execute(select(Webpage.collection_id,
    func.count(Webpage.id)).group_by(Webpage.collection_id))] followed
    by [.fetchall()]; the order of the groups is the database's. *)
Definition db_group_count : M World (list (option str * nat)) :=
  _ <- await_io ;;
  w <- get ;;
  ret (map (fun key =>
              (key,
               List.length
                 (filter (fun row => same_group key (collection_id row))
                         (session w))))
           (group_keys (session w))).

Section Extraction.

(** The readings of the clock in one hour; the clock reads 0 at
    [datetime.min], the first instant a [datetime] can hold. *)
Variable hour : nat.

(** The text of the [OverflowError] that [datetime] raises for a window
    of this many hours. *)
Variable overflow_error : Z -> str.

(** [timedelta(hours=h)] exists: its days, [h // 24], have a magnitude
    of at most 999999999. *)
Definition timedelta_fits (h : Z) : bool :=
  (-999999999 <=? h / 24)%Z && (h / 24 <=? 999999999)%Z.

(** A [datetime] can hold the instant: it lies in the 3652059 days from
    [datetime.min] on. *)
Definition datetime_fits (t : Z) : bool :=
  (0 <=? t)%Z && (t <? 3652059 * 24 * Z.of_nat hour)%Z.

(** Modelled from the spec: the column [first_crawled] of [Webpage],
    which only [get_collection_stats] reads. *)
Variable first_crawled : Webpage -> option nat.

Definition extract_texts_by_collection
           (collection : str) (hours_ago : option Z)
           (include_title include_url : bool) : M World (list Item) :=
  try_except
    (query <- match hours_ago with
              | Some h =>
                  now_ <- now ;;
                  let time_threshold :=
                    (Z.of_nat now_ - h * Z.of_nat hour)%Z in
                  if timedelta_fits h && datetime_fits time_threshold
                  then ret (fun row =>
                              in_collection collection row
                              && crawled_since time_threshold row)
                  else raise (Exception (overflow_error h))
              | None => ret (in_collection collection)
              end ;;
     webpages <- db_select query ;;
     ret (map (item_of include_title include_url)
              (filter (fun webpage => not_empty (content_markdown webpage))
                      webpages)))
    (fun e => raise e).

Definition markdown_block (item : Item) : str :=
  s2l "# " ++ get_or (s2l "Untitled Document") (item_title item) ++ newline
  ++ s2l "Source: " ++ get_or (s2l "Unknown") (item_url item)
  ++ newline ++ newline
  ++ item_content item ++ newline ++ newline
  ++ s2l "---" ++ newline ++ newline.

Definition text_block (item : Item) : str :=
  (if not_empty (item_title item)
   then get_or [] (item_title item) ++ newline ++ newline
   else [])
  ++ item_content item ++ newline ++ newline
  ++ s2l "------" ++ newline ++ newline.

Definition extract_text_batch
           (collection : str) (hours_ago : option Z) (output_format : str)
  : M World Batch :=
  texts <- extract_texts_by_collection collection hours_ago true true ;;
  if str_eqb output_format (s2l "json") then ret (Json texts)
  else if str_eqb output_format (s2l "markdown") then
    ret (Plain (fold_left (fun markdown_content item =>
                             markdown_content ++ markdown_block item)
                          texts []))
  else
    ret (Plain (fold_left (fun text_content item =>
                             text_content ++ text_block item)
                          texts [])).

(** One turn of the loop of [get_collection_stats] over the state
    (earliest crawl, latest crawl, total characters). *)
Definition stats_step (acc : option nat * option nat * nat)
           (webpage : Webpage) : option nat * option nat * nat :=
  let '(earliest_crawl, latest_crawl, total_characters) := acc in
  (match first_crawled webpage, earliest_crawl with
   | Some t, None => Some t
   | Some t, Some e => if t <? e then Some t else Some e
   | None, _ => earliest_crawl
   end,
   match last_crawled webpage, latest_crawl with
   | Some t, None => Some t
   | Some t, Some l => if l <? t then Some t else Some l
   | None, _ => latest_crawl
   end,
   if not_empty (content_markdown webpage)
   then total_characters
        + List.length (get_or [] (content_markdown webpage))
   else total_characters).

Definition get_collection_stats (collection : option str)
  : M World StatsResult :=
  try_except
    (if not_empty collection then
       let collection_id_ := get_or [] collection in
       webpages <- db_select (in_collection collection_id_) ;;
       let '(earliest_crawl, latest_crawl, total_characters) :=
         fold_left stats_step webpages (None, None, 0) in
       ret (OneCollection
              (mkCollectionStats collection_id_ (List.length webpages)
                                 total_characters
                                 earliest_crawl latest_crawl))
     else
       collections_ <- db_group_count ;;
       let collection_stats :=
         flat_map (fun cc : option str * nat =>
                     if not_empty (fst cc)    (* skip None values *)
                     then [(get_or [] (fst cc), snd cc)]
                     else [])
                  collections_ in
       ret (AllCollections (List.length collection_stats) collection_stats))
    (fun e => raise e).

End Extraction.

Definition unindexed_in (collection : str) (row : Webpage) : bool :=
  sql_eq (collection_id row) collection
  && Bool.eqb (is_indexed row) false
  && sql_not_null (content_markdown row).

Definition webpage_data (row : Webpage) : Doc :=
  mkDoc (id row) (url row)
        (match title row with
         | Some t => t            (* [webpage.title or ""] *)
         | None => []
         end)
        (content_markdown row) (last_crawled row).

Definition get_unindexed_documents (collection : str) : M World (list Doc) :=
  try_except
    (webpages <- db_select (unindexed_in collection) ;;
     ret (map webpage_data webpages))
    (fun e => raise e).

Definition batch_size : nat := 100.

Definition mark_indexed (at_ : nat) (row : Webpage) : Webpage :=
  mkWebpage (id row) (url row) (title row) (content_markdown row)
            (collection_id row) (last_crawled row) true (Some at_).

Definition id_in (ids : list nat) (row : Webpage) : bool :=
  existsb (Nat.eqb (id row)) ids.

Definition mark_documents_as_indexed (document_ids : list nat)
  : M World unit :=
  match document_ids with
  | [] => ret tt
  | _ =>
      try_except
        (now_ <- now ;;
         for_each (range_step (List.length document_ids) batch_size)
                  (fun i =>
                     let batch_ids :=
                       slice document_ids i (i + batch_size) in
                     db_update (id_in batch_ids) (mark_indexed now_) ;;
                     db_commit))
        (fun e => db_rollback ;; raise e)
  end.

Section Pipeline.

(** [SentenceSplitter(chunk_size=1024, chunk_overlap=200)] of
    llama_index, an external library: some function from a text to
    its chunks. *)
Variable sentence_splitter : str -> list str.

Definition content_text (d : Doc) : str :=
  match doc_content d with
  | Some t => t
  | None => []
  end.

(** The nodes of one [Document] built from a selected row (whose
    content is not NULL). *)
Definition nodes_of (d : Doc) : list Node :=
  map (fun ic : nat * str =>
         mkNode (snd ic) (doc_title d) (doc_url d) (doc_id d)
                (doc_last_crawled d) (fst ic))
      (combine (seq 0 (List.length (sentence_splitter (content_text d))))
               (sentence_splitter (content_text d))).

(** [setup_vector_store]: connect and get or create the collection. *)
Definition setup_vector_store (collection_name : str) : M World unit :=
  try_except await_io (fun e => raise e).

(** [pipeline.run(documents=...)]: split, embed, and add the nodes to
    the vector store of the pipeline. *)
Definition pipeline_run (documents : list Doc) : M World (list Node) :=
  let nodes := flat_map nodes_of documents in
  await_bulk (fun progress =>
                set_vectors (fun v => v ++ firstn progress nodes)) ;;
  modify (set_vectors (fun v => v ++ nodes)) ;;
  ret nodes.

(** [VectorStoreIndex(nodes)] *)
Definition vector_store_index (nodes : list Node) : M World unit :=
  await_io.

(** The local [stats] next to the world. *)
Definition Run : Type := (World * Stats)%type.

Definition io (A : Type) (m : M World A) : M Run A :=
  fun s =>
    let (r, w') := m (fst s) in (r, (w', snd s)).

Definition update_stats (f : Stats -> Stats) : M Run unit :=
  modify (fun s : Run => (fst s, f (snd s))).

Definition set_processed (n : nat) (st : Stats) : Stats :=
  mkStats (st_collection_id st) (st_start_time st) n
          (documents_indexed st) (status st) (st_end_time st)
          (st_message st) (st_error st).

Definition set_indexed (n : nat) (st : Stats) : Stats :=
  mkStats (st_collection_id st) (st_start_time st)
          (documents_processed st) n (status st) (st_end_time st)
          (st_message st) (st_error st).

Definition finish (status_ : str) (end_time : nat)
           (message error : option str) (st : Stats) : Stats :=
  mkStats (st_collection_id st) (st_start_time st)
          (documents_processed st) (documents_indexed st) status_
          (Some end_time)
          (match message with Some _ => message | None => st_message st end)
          (match error with Some _ => error | None => st_error st end).

(** [async with async_session_maker() as db: body]: a new session,
    closed on the way out whether [body] returns or raises. *)
Definition with_session (A : Type) (body : M Run A) : M Run A :=
  io db_rollback ;;
  try_except
    (a <- body ;; io db_rollback ;; ret a)
    (fun e => io db_rollback ;; raise e).

Definition index_documents_by_collection (collection : str)
  : M World Stats :=
  fun w0 =>
    let run : M Run Stats :=
      start_time <- io now ;;
      update_stats (fun _ =>
        mkStats collection start_time 0 0 (s2l "started")
                None None None) ;;
      try_except
        (with_session
           (documents <- io (get_unindexed_documents collection) ;;
            match documents with
            | [] =>
                t <- io now ;;
                update_stats
                  (finish (s2l "completed") t
                          (Some (s2l "No unindexed documents found"))
                          None) ;;
                s <- get ;; ret (snd s)
            | _ =>
                io (setup_vector_store collection) ;;
                let document_ids := map doc_id documents in
                update_stats
                  (set_processed (List.length document_ids)) ;;
                nodes <- io (pipeline_run documents) ;;
                io (vector_store_index nodes) ;;
                io (mark_documents_as_indexed document_ids) ;;
                update_stats
                  (set_indexed (List.length document_ids)) ;;
                end_time <- io now ;;
                update_stats
                  (finish (s2l "completed") end_time None None) ;;
                s <- get ;; ret (snd s)
            end))
        (fun e =>
           t <- io now ;;
           update_stats
             (finish (s2l "failed") t None (Some (str_of_exn e))) ;;
           s <- get ;; ret (snd s)) in
    let (r, s) :=
      run (w0, mkStats collection 0 0 0 (s2l "started") None None None) in
    (r, fst s).

End Pipeline.

End Indexer.

(** ** [app/api/endpoints/chat_endpoints.py] *)

Module ChatEndpoints.
Import Orchestrator.

Local Open Scope py_scope.

Record ChatRequest : Type := mkChatRequest {
  message : str;
  session_id : option str;
  user_id : option str;
  metadata : option str
}.

(** An element of [Output.sources], which is a plain [list]: a value
    that validates as a [Dict[str, str]], given as the dictionary from
    strings to strings it validates to, or any other value (a string, a
    number, a dictionary that holds something else), given by its
    [repr]. *)
Inductive Source : Type :=
| StrDict (items : list (str * str))
| Other (repr : str).

(** [Output] of the orchestrator; the confidence is a number the
    endpoint only passes on. *)
Record Output : Type := mkOutput {
  answer : str;
  sources : list Source;
  confidence : Z;
  retriever_type : str
}.

(** [ChatResponse]; its [sources] are a [List[Dict[str, str]]]. *)
Record ChatResponse : Type := mkChatResponse {
  resp_session_id : str;
  resp_answer : str;
  resp_sources : list (list (str * str));
  resp_confidence : Z;
  resp_retriever_type : str;
  trace_id : option str
}.

(** The validation of [sources] when a [ChatResponse] is built: every
    element has to be a dictionary from strings to strings; [None] is
    pydantic's [ValidationError]. *)
Fixpoint validate_sources (given : list Source)
  : option (list (list (str * str))) :=
  match given with
  | [] => Some []
  | StrDict items :: given' =>
      match validate_sources given' with
      | Some validated => Some (items :: validated)
      | None => None
      end
  | Other _ :: _ => None
  end.

(** What [agent.run_sync] returns: [result.output],
    [result.all_messages()], [result.new_messages()]. *)
Record AgentRunResult : Type := mkAgentRunResult {
  output : Output;
  all_messages : list ModelMessage;
  new_messages : list ModelMessage
}.

(** Modelled from the spec: a ChatSession row with its messages in
    ordinal order, as [ChatPersistenceService] of
    [app/utils/chat_persistence.py] (not among the sources) stores
    it. *)
Record Chat : Type := mkChat {
  chat_session_id : str;
  chat_user_id : option str;
  chat_messages : list ModelMessage
}.

Record ChatWorld : Type := mkChatWorld {
  chats : list Chat;
  uuid_source : nat -> str;   (* the values [uuid.uuid4()] will return *)
  uuid_count : nat;
  storage_faults : list outcome; (* outcomes of the coming storage calls *)
  agent : option (list ModelMessage) -> str -> result AgentRunResult
    (* [generate_agent(message_history).run_sync(message)] *)
}.

Definition set_chats (f : list Chat -> list Chat) (w : ChatWorld)
  : ChatWorld :=
  mkChatWorld (f (chats w)) (uuid_source w) (uuid_count w)
              (storage_faults w) (agent w).

(** One storage call: it works, or it raises. *)
Definition await_storage : M ChatWorld unit :=
  fun w =>
    match storage_faults w with
    | [] => (Ok tt, w)
    | Works :: fs =>
        (Ok tt,
         mkChatWorld (chats w) (uuid_source w) (uuid_count w) fs (agent w))
    | Fails e _ :: fs =>
        (Raise (Exception e),
         mkChatWorld (chats w) (uuid_source w) (uuid_count w) fs (agent w))
    end.

(** [str(uuid.uuid4())] *)
Definition uuid4 : M ChatWorld str :=
  fun w =>
    (Ok (uuid_source w (uuid_count w)),
     mkChatWorld (chats w) (uuid_source w) (S (uuid_count w))
                 (storage_faults w) (agent w)).

Definition has_id (sid : str) (c : Chat) : bool :=
  str_eqb (chat_session_id c) sid.

(** Modelled from the spec: [ChatPersistenceService.create_chat_session],
    "generates a new unique id, persists an empty session row". *)
Definition create_chat_session (user : option str) : M ChatWorld str :=
  await_storage ;;
  sid <- uuid4 ;;
  modify (set_chats (fun cs => cs ++ [mkChat sid user []])) ;;
  ret sid.

(** Modelled from the spec:
    [ChatPersistenceService.create_chat_session_with_id], "persists a
    session under a caller-supplied id if one does not already exist". *)
Definition create_chat_session_with_id (sid : str) (user : option str)
  : M ChatWorld Chat :=
  await_storage ;;
  w <- get ;;
  match find (has_id sid) (chats w) with
  | Some c => ret c
  | None =>
      modify (set_chats (fun cs => cs ++ [mkChat sid user []])) ;;
      ret (mkChat sid user [])
  end.

(** Modelled from the spec:
    [ChatPersistenceService.get_chat_by_session_id],
    "session | not-found". *)
Definition get_chat_by_session_id (sid : str) : M ChatWorld (option Chat) :=
  await_storage ;;
  w <- get ;;
  ret (find (has_id sid) (chats w)).

(** Modelled from the spec: [ChatPersistenceService.load_messages],
    the messages "ordered by ordinal index ascending". *)
Definition load_messages (sid : str) : M ChatWorld (list ModelMessage) :=
  await_storage ;;
  w <- get ;;
  ret (match find (has_id sid) (chats w) with
       | Some c => chat_messages c
       | None => []
       end).

(** Modelled from the spec: [ChatPersistenceService.save_messages],
    "appends messages preserving strict ordinal continuation", with a
    success boolean. *)
Definition save_messages (sid : str) (msgs : list ModelMessage)
  : M ChatWorld bool :=
  await_storage ;;
  w <- get ;;
  match find (has_id sid) (chats w) with
  | Some _ =>
      modify (set_chats
                (map (fun c =>
                        if has_id sid c then
                          mkChat (chat_session_id c) (chat_user_id c)
                                 (chat_messages c ++ msgs)
                        else c))) ;;
      ret true
  | None => ret false
  end.

(** Modelled from the spec: [ChatPersistenceService.delete_chat_session],
    "cascading delete of session and all its messages; returns false
    (not an error) if the session did not exist". *)
Definition delete_chat_session (sid : str) : M ChatWorld bool :=
  await_storage ;;
  w <- get ;;
  match find (has_id sid) (chats w) with
  | Some _ =>
      modify (set_chats (filter (fun c => negb (has_id sid c)))) ;;
      ret true
  | None => ret false
  end.

(** [generate_agent(message_history=...)] and [agent.run_sync(text)] *)
Definition run_agent (message_history : option (list ModelMessage))
           (text : str) : M ChatWorld AgentRunResult :=
  fun w => (agent w message_history text, w).

(** Truthiness of an optional string: [None] and [""] are false. *)
Definition truthy (s : option str) : bool :=
  match s with
  | Some (_ :: _) => true
  | _ => false
  end.

Section Validation.

(** The text of the [ValidationError] that pydantic raises for sources
    that [ChatResponse] refuses. *)
Variable validation_error : list Source -> str.

Definition process_chat (request : ChatRequest) : M ChatWorld ChatResponse :=
  trace <- uuid4 ;;
  let is_new_session := negb (truthy (session_id request)) in
  sm <- (if is_new_session then
           sid <- create_chat_session (user_id request) ;;
           ret (sid, None)
         else
           let sid := match session_id request with
                      | Some sid => sid
                      | None => []
                      end in
           chat <- get_chat_by_session_id sid ;;
           match chat with
           | None =>
               (* the session id is unknown: create it instead of failing *)
               create_chat_session_with_id sid (user_id request) ;;
               ret (sid, None)
           | Some _ =>
               history <- load_messages sid ;;
               ret (sid, Some history)
           end) ;;
  let sid := fst sm in
  let message_history : option (list ModelMessage) := snd sm in
  try_except
    (result <- match message_history with
               | None | Some [] => run_agent None (message request)
               | Some history =>
                   let history :=
                     if 20 <? List.length history then
                       let (h, r) :=
                         truncate_message_history [history] 0 20 in
                       deref h r
                     else history in
                   run_agent (Some history) (message request)
               end ;;
     success <- (if is_new_session then
                   save_messages sid (all_messages result)
                 else
                   save_messages sid (new_messages result)) ;;
     if negb success then
       raise (HTTPException 500 (s2l "Failed to save chat messages"))
     else
       match validate_sources (sources (output result)) with
       | Some validated =>
           ret (mkChatResponse sid
                  (answer (output result)) validated
                  (confidence (output result))
                  (retriever_type (output result)) (Some trace))
       | None =>
           raise (Exception (validation_error (sources (output result))))
       end)
    (fun e =>
       match e with
       | HTTPException _ _ => raise e  (* except HTTPException: raise *)
       | Exception _ =>
           raise (HTTPException 500
                    (s2l "Internal server error: " ++ str_of_exn e))
       end).

End Validation.

Section History.

(** [json.loads] of the standard library: the value of a JSON text,
    [None] where it raises [JSONDecodeError]. *)
Variable Json : Type.
Variable json_loads : str -> option Json.

Inductive Content : Type :=
| Parsed (value : Json)
| Text (text : str).                  (* [{"text": msg.content}] *)

(** The dictionary made of one stored message; the timestamp, the
    metadata and the ordinal of the row, which [Chat] does not carry,
    are left out. *)
Record MessageDict : Type := mkMessageDict {
  md_id : option nat;
  md_message_type : str;
  md_content : Content
}.

(** [ChatHistoryResponse], without the two timestamps of the session
    row. *)
Record ChatHistoryResponse : Type := mkChatHistoryResponse {
  hist_session_id : str;
  hist_messages : list MessageDict;
  hist_user_id : option str;
  message_count : nat;
  num_messages : nat
}.

Definition message_dict (msg : ModelMessage) : MessageDict :=
  mkMessageDict (id msg) (kind msg)
                (match json_loads (content msg) with
                 | Some value => Parsed value
                 | None => Text (content msg)   (* except JSONDecodeError *)
                 end).

Definition get_chat_history (sid : str) : M ChatWorld ChatHistoryResponse :=
  trace <- uuid4 ;;
  try_except
    (chat <- get_chat_by_session_id sid ;;
     match chat with
     | None =>
         raise (HTTPException 404
                  (s2l "Chat session " ++ sid ++ s2l " not found"))
     | Some chat =>
         let messages := map message_dict (chat_messages chat) in
         ret (mkChatHistoryResponse sid messages (chat_user_id chat)
                0                      (* [message_count], its default *)
                (List.length messages))
     end)
    (fun e =>
       match e with
       | HTTPException _ _ => raise e  (* except HTTPException: raise *)
       | Exception _ =>
           raise (HTTPException 500
                    (s2l "Internal server error: " ++ str_of_exn e))
       end).

End History.

Definition delete_chat (sid : str) : M ChatWorld str :=
  try_except
    (success <- delete_chat_session sid ;;
     if negb success then
       raise (HTTPException 404
                (s2l "Chat session " ++ sid ++ s2l " not found"))
     else
       ret (s2l "Chat session " ++ sid ++ s2l " deleted successfully"))
    (fun e =>
       raise (HTTPException 500
                (s2l "Internal server error: " ++ str_of_exn e))).

End ChatEndpoints.

(** ** [app/models/follow_up_questions.py] *)

Module FollowUp.
Import QArith_base.

Local Close Scope Q_scope.

Inductive QuestionPriority : Type := HIGH | MEDIUM | LOW.

Inductive QuestionCategory : Type :=
| CLARIFICATION | RELATED_TOPIC | MORE_DETAILS | NEXT_STEPS | ALTERNATIVE
| GENERAL.



(** A float is a rational here; NaN and the infinities, which the
    bounds below refuse, are left out. *)
Record FollowUpQuestion : Type := mkFollowUpQuestion {
  question : str;
  category : QuestionCategory;
  priority : QuestionPriority;
  confidence : option Q;
  related_sources : list str
}.

Record FollowUpQuestions : Type := mkFollowUpQuestions {
  questions : list FollowUpQuestion;
  total_count : Z;
  generation_confidence : option Q
}.

(** [Field(default=None, ge=0.0, le=1.0)] *)
Definition valid_confidence (c : option Q) : bool :=
  match c with
  | Some x => Qle_bool (Qmake 0 1) x && Qle_bool x (Qmake 1 1)
  | None => true
  end.


(** The keyword arguments [**data] of [FollowUpQuestions.__init__];
    [None] is a key that is not given. *)
Record Data : Type := mkData {
  data_questions : option (list FollowUpQuestion);
  data_total_count : option Z;
  data_generation_confidence : option Q
}.

(** [FollowUpQuestions.__init__]: validation by [super().__init__],
    then the count. *)
Definition FollowUpQuestions_init (data : Data) : option FollowUpQuestions :=
  let questions_ :=
    match data_questions data with Some qs => qs | None => [] end in
  let total_count_ :=
    match data_total_count data with Some n => n | None => 0%Z end in
  if (0 <=? total_count_)%Z
     && valid_confidence (data_generation_confidence data)
  then
    (* validation passed *)
    Some (mkFollowUpQuestions
            questions_
            (match data_total_count data with
             | None | Some 0%Z => Z.of_nat (List.length questions_)
             | Some n => n
             end)
            (data_generation_confidence data))
  else None.

Definition add_question (self : FollowUpQuestions)
           (question_ : FollowUpQuestion) : FollowUpQuestions :=
  if List.length (questions self) <? 10 then
    mkFollowUpQuestions
      (questions self ++ [question_])
      (Z.of_nat (List.length (questions self ++ [question_])))
      (generation_confidence self)
  else self.







End FollowUp.

(** ** Notions used in the statements *)

(** The character before a position that lies [length pre] characters
    after one whose previous character is [prev]. *)
Definition last_or (prev : option char) (pre : str) : option char :=
  fold_left (fun _ c => Some c) pre prev.

(** [n] respects the upper bound of a repetition. *)
Definition within (n : nat) (hi : option nat) : Prop :=
  match hi with
  | Some h => n <= h
  | None => True
  end.

Definition all_in (p : char -> bool) (s : str) : Prop :=
  Forall (fun c => p c = true) s.



(** While the scan is inside a match, the characters still to skip, and
    the one before them, are alphanumeric. *)
Definition inside_token (prev : option char) (rest : str) (skip : nat)
  : Prop :=
  skip = 0 \/
  (Re.word_at prev = true /\ all_in Re.is_alnum (firstn skip rest)).

(** A message whose identity some message of [existing] already has. *)
Definition known_id (existing : list Orchestrator.ModelMessage)
           (msg : Orchestrator.ModelMessage) : Prop :=
  exists i other,
    Orchestrator.id msg = Some i /\ In other existing /\
    Orchestrator.id other = Some i.

(** The last [j] elements of a list (all of it when it is shorter). *)
Definition lastn (A : Type) (j : nat) (l : list A) : list A :=
  skipn (List.length l - j) l.

(** Truncation as the specification words it: the system messages, then
    the [min (n - k) m] most recent other messages. *)
Definition truncate_spec (history : list Orchestrator.ModelMessage)
           (m : nat) : list Orchestrator.ModelMessage :=
  let system := filter Orchestrator.is_system history in
  let others :=
    filter (fun msg => negb (Orchestrator.is_system msg)) history in
  system
  ++ lastn (Nat.min (List.length history - List.length system) m) others.

(** The rows after [is_indexed] and [indexed_at] were set on those
    whose id is in [ids]; rows with other ids are as before. *)
Definition marked (at_ : nat) (ids : list nat) (rows : list Indexer.Webpage)
  : list Indexer.Webpage :=
  map (fun row =>
         if Indexer.id_in ids row then Indexer.mark_indexed at_ row else row)
      rows.

(** The first of the next [n] external calls that raises, counted from
    zero, with its message. *)
Fixpoint failure_within (n : nat) (fs : list outcome) : option (nat * str) :=
  match n, fs with
  | S n', Works :: fs' =>
      match failure_within n' fs' with
      | Some (p, e) => Some (S p, e)
      | None => None
      end
  | S _, Fails e _ :: _ => Some (0, e)
  | _, _ => None
  end.

(** The selection as the specification words it: rows of the collection
    that are not indexed and whose content is not empty. *)
Definition selected_spec (collection : str) (row : Indexer.Webpage)
  : bool :=
  Indexer.sql_eq (Indexer.collection_id row) collection
  && negb (Indexer.is_indexed row)
  && match Indexer.content_markdown row with
     | Some (_ :: _) => true
     | _ => false
     end.

(** The least number of characters a match of the pattern takes. *)
Fixpoint min_len (r : Re.regex) : nat :=
  match r with
  | Re.Cls _ => 1
  | Re.Rep _ lo _ => lo
  | Re.WordB => 0
  | Re.Cat r1 r2 => min_len r1 + min_len r2
  | Re.Alt r1 r2 => Nat.min (min_len r1) (min_len r2)
  end.

(** Matches that lie one after the other in a text of length [len], from
    offset [pos] on: each span is not empty and starts where the one
    before it ended, or later. *)
Fixpoint laid_out (pos : nat) (ms : list Pii.PIIMatch) (len : nat) : Prop :=
  match ms with
  | [] => pos <= len
  | m :: ms' =>
      pos <= Pii.start m /\ Pii.start m < Pii.end_ m /\
      laid_out (Pii.end_ m) ms' len
  end.

(** The text from offset [pos] on, with the span of every match replaced
    by the placeholder of the match. *)
Fixpoint splice (text : str) (pos : nat) (ms : list Pii.PIIMatch) : str :=
  match ms with
  | [] => skipn pos text
  | m :: ms' =>
      slice text pos (Pii.start m) ++ Pii.placeholder m
      ++ splice text (Pii.end_ m) ms'
  end.

(** Whether some message of [existing] has the identity of [msg]. *)
Definition id_known (existing : list Orchestrator.ModelMessage)
           (msg : Orchestrator.ModelMessage) : bool :=
  match Orchestrator.id msg with
  | Some i =>
      existsb (fun other =>
                 match Orchestrator.id other with
                 | Some j => Nat.eqb i j
                 | None => false
                 end) existing
  | None => false
  end.

Definition has_no_id (msg : Orchestrator.ModelMessage) : bool :=
  match Orchestrator.id msg with
  | Some _ => false
  | None => true
  end.

(** The messages that truncation keeps, in their order in the result. *)
Definition truncated (history : list Orchestrator.ModelMessage) (max : Z)
  : list Orchestrator.ModelMessage :=
  if (Z.of_nat (List.length history) <=? max)%Z then history
  else
    filter Orchestrator.is_system history
    ++ Orchestrator.slice_from
         (filter (fun msg => negb (Orchestrator.is_system msg)) history)
         (- max).

(** The rows whose text [extract_texts_by_collection] returns: those of
    the collection with a content that is not empty, crawled at or
    after the threshold when a window of hours is given. *)
Definition extracted (hour : nat) (collection : str) (hours_ago : option Z)
           (w : Indexer.World) : list Indexer.Webpage :=
  filter (fun row => Indexer.not_empty (Indexer.content_markdown row))
         (filter (fun row =>
                    Indexer.in_collection collection row
                    && match hours_ago with
                       | Some h =>
                           Indexer.crawled_since
                             (Z.of_nat (Indexer.clock w) - h * Z.of_nat hour)
                             row
                       | None => true
                       end)
                 (Indexer.session w)).

(** The title of a row, when it has one that is not empty. *)
Definition title_of (row : Indexer.Webpage) : option str :=
  if Indexer.not_empty (Indexer.title row) then Indexer.title row else None.

(** The part of the Markdown output for one row. *)
Definition markdown_of_row (row : Indexer.Webpage) : str :=
  s2l "# " ++ Indexer.get_or (s2l "Untitled Document") (title_of row)
  ++ Indexer.newline
  ++ s2l "Source: " ++ Indexer.url row ++ Indexer.newline ++ Indexer.newline
  ++ Indexer.get_or [] (Indexer.content_markdown row)
  ++ Indexer.newline ++ Indexer.newline
  ++ s2l "---" ++ Indexer.newline ++ Indexer.newline.

(** The part of the plain-text output for one row. *)
Definition text_of_row (row : Indexer.Webpage) : str :=
  match title_of row with
  | Some t => t ++ Indexer.newline ++ Indexer.newline
  | None => []
  end
  ++ Indexer.get_or [] (Indexer.content_markdown row)
  ++ Indexer.newline ++ Indexer.newline
  ++ s2l "------" ++ Indexer.newline ++ Indexer.newline.


(** [datetime] can compute the threshold of the window when the clock
    reads as in [w]; without a window there is nothing to compute. *)
Definition window_fits (hour : nat) (hours_ago : option Z)
           (w : Indexer.World) : bool :=
  match hours_ago with
  | Some h =>
      Indexer.timedelta_fits h
      && Indexer.datetime_fits
           hour (Z.of_nat (Indexer.clock w) - h * Z.of_nat hour)
  | None => true
  end.


(** * Properties *)

(** ** Strings *)

Lemma uclass_eqb_eq (a b : uclass) : uclass_eqb a b = true <-> a = b.
Proof. destruct a, b; simpl; split; congruence. Qed.

Lemma entries_eqb_eq (a b : list (N * uclass)) :
  entries_eqb a b = true <-> a = b.
Proof.
  revert b. induction a as [|[x k] a IH]; intros [|[y l] b]; simpl; split;
    try congruence; try reflexivity.
  - rewrite !andb_true_iff, N.eqb_eq, uclass_eqb_eq, IH.
    intros [[-> ->] ->]. reflexivity.
  - intros E. injection E as -> -> ->.
    rewrite !andb_true_iff, N.eqb_eq, uclass_eqb_eq, IH. auto.
Qed.

Lemma char_eqb_eq (a b : char) : char_eqb a b = true <-> a = b.
Proof.
  destruct a as [x|x k u], b as [y|y l v]; simpl; split;
    try congruence.
  - intros E. apply Ascii.eqb_eq in E. congruence.
  - intros E. injection E as ->. apply Ascii.eqb_eq. reflexivity.
  - rewrite !andb_true_iff, N.eqb_eq, uclass_eqb_eq, entries_eqb_eq.
    intros [[-> ->] ->]. reflexivity.
  - intros E. injection E as -> -> ->.
    rewrite !andb_true_iff, N.eqb_eq, uclass_eqb_eq, entries_eqb_eq. auto.
Qed.

Lemma str_eqb_eq (a b : str) : str_eqb a b = true <-> a = b.
Proof.
  revert b. induction a as [|x a IH]; intros [|y b]; simpl; split;
    try congruence; try reflexivity.
  - rewrite andb_true_iff, char_eqb_eq, IH. intros [-> ->]. reflexivity.
  - intros E. injection E as -> ->.
    rewrite andb_true_iff, char_eqb_eq, IH. split; reflexivity.
Qed.

Lemma str_eqb_refl (a : str) : str_eqb a a = true.
Proof. apply str_eqb_eq. reflexivity. Qed.

Lemma last_or_cons (prev : option char) (c : char) (pre : str) :
  last_or prev (c :: pre) = last_or (Some c) pre.
Proof. reflexivity. Qed.

Lemma last_or_holds (p : char -> bool) (prev : option char) (s : str) :
  s <> [] -> all_in p s ->
  exists c, last_or prev s = Some c /\ p c = true.
Proof.
  revert prev. induction s as [|a s IH]; intros prev Hne Hall.
  - congruence.
  - inversion Hall as [|? ? Ha Hs]; subst.
    destruct s as [|b s'].
    + exists a. split; [reflexivity | assumption].
    + rewrite last_or_cons. apply IH; [discriminate | assumption].
Qed.

(** ** The matcher *)

Module ReFacts.
Import Re.

Lemma digit_alnum (c : char) : is_ascii_digit c = true -> is_alnum c = true.
Proof. unfold is_alnum. intros ->. apply orb_true_r. Qed.

Lemma alnum_word (c : char) : is_alnum c = true -> is_word c = true.
Proof.
  destruct c as [a|x k u]; [|discriminate].
  unfold is_word. intros ->. reflexivity.
Qed.

Lemma ascii_digit_digit (c : char) :
  is_ascii_digit c = true -> is_digit c = true.
Proof. destruct c as [a|x k u]; [auto | discriminate]. Qed.

(** A decimal digit is a word character, whatever its script. *)
Lemma digit_word (c : char) : is_digit c = true -> is_word c = true.
Proof.
  destruct c as [a|x k u]; simpl.
  - intros H. apply (alnum_word (Chr a)). apply digit_alnum. exact H.
  - destruct k; simpl; congruence.
Qed.

Lemma all_digit_alnum (s : str) : all_in is_ascii_digit s -> all_in is_alnum s.
Proof.
  unfold all_in. intros H. eapply Forall_impl; [|exact H].
  intros c. apply digit_alnum.
Qed.

Lemma all_ascii_digit_digit (s : str) :
  all_in is_ascii_digit s -> all_in is_digit s.
Proof.
  unfold all_in. intros H. eapply Forall_impl; [|exact H].
  intros c. apply ascii_digit_digit.
Qed.

(** Whatever a repetition matched lies within its bounds, consists of
    characters of the class, and the rest of the pattern matched after
    it. *)
Lemma rep_sound (A : Type) (p : char -> bool) (rest : str) :
  forall lo hi prev (k : cont A) x,
    rep p lo hi prev rest k = Some x ->
    exists n,
      lo <= n /\ within n hi /\ n <= List.length rest /\
      all_in p (firstn n rest) /\
      k (last_or prev (firstn n rest)) (skipn n rest) = Some x.
Proof.
  assert (stop : forall lo hi prev (k : cont A) x l,
             (if lo =? 0 then k prev l else None) = Some x ->
             exists n,
               lo <= n /\ within n hi /\ n <= List.length l /\
               all_in p (firstn n l) /\
               k (last_or prev (firstn n l)) (skipn n l) = Some x).
  { intros lo hi prev k x l H.
    destruct (Nat.eqb_spec lo 0) as [->|]; [|discriminate].
    exists 0. repeat split; try lia.
    - destruct hi; simpl; lia.
    - constructor.
    - exact H. }
  induction rest as [|c rest IH]; intros lo hi prev k x H; simpl in H.
  - apply stop. exact H.
  - destruct (p c && may_take hi) eqn:E; [|apply stop; exact H].
    apply andb_true_iff in E. destruct E as [Hc Hhi].
    destruct (rep p (pred lo) (option_map pred hi) (Some c) rest k)
      as [y|] eqn:R; [|apply stop; exact H].
    injection H as ->.
    apply IH in R. destruct R as (n & Hlo & Hn & Hlen & Hall & Hk).
    exists (S n). simpl. repeat split; try lia.
    + destruct hi as [[|h]|]; simpl in *; try discriminate; lia.
    + constructor; assumption.
    + exact Hk.
Qed.

(** A repetition takes a whole run of class characters when its bounds
    allow it and the rest of the pattern matches after the run. *)
Lemma rep_greedy (A : Type) (p : char -> bool) (tok post : str) :
  forall lo hi prev (k : cont A) x,
    all_in p tok ->
    (forall c, hd_error post = Some c -> p c = false) ->
    lo <= List.length tok -> within (List.length tok) hi ->
    k (last_or prev tok) post = Some x ->
    rep p lo hi prev (tok ++ post) k = Some x.
Proof.
  induction tok as [|a tok IH]; intros lo hi prev k x Hall Hpost Hlo Hhi Hk;
    simpl in *.
  - assert (lo = 0) as -> by lia.
    destruct post as [|c post]; simpl; [exact Hk|].
    rewrite (Hpost c eq_refl). simpl. exact Hk.
  - inversion Hall as [|? ? Ha Htok]; subst.
    assert (Hmay : may_take hi = true).
    { destruct hi as [[|h]|]; simpl in *; try reflexivity; lia. }
    rewrite Ha, Hmay. simpl.
    rewrite (IH (pred lo) (option_map pred hi) (Some a) k x); auto.
    + lia.
    + destruct hi as [h|]; simpl in *; [lia | exact I].
Qed.

(** When a pattern matches, the rest of the match goes on some
    characters further on, at least [min_len] of them. *)
Lemma run_consumes (A : Type) (r : regex) :
  forall prev rest (k : cont A) x,
    run r prev rest k = Some x ->
    exists n prev',
      min_len r <= n /\ n <= List.length rest /\
      k prev' (skipn n rest) = Some x.
Proof.
  induction r as [p|p lo hi| |r1 IH1 r2 IH2|r1 IH1 r2 IH2];
    intros prev rest k x H; simpl in H.
  - destruct rest as [|c rest]; [discriminate|].
    destruct (p c); [|discriminate].
    exists 1, (Some c). simpl. repeat split; try lia. exact H.
  - apply rep_sound in H. destruct H as (n & Hlo & _ & Hlen & _ & Hk).
    exists n, (last_or prev (firstn n rest)). simpl. auto.
  - destruct (at_boundary prev rest); [|discriminate].
    exists 0, prev. simpl. repeat split; try lia. exact H.
  - apply IH1 in H. destruct H as (n1 & prev1 & Hm1 & Hl1 & H).
    apply IH2 in H. destruct H as (n2 & prev2 & Hm2 & Hl2 & H).
    rewrite length_skipn in Hl2. rewrite skipn_skipn in H.
    exists (n2 + n1), prev2. simpl. repeat split; try lia. exact H.
  - destruct (run r1 prev rest k) as [y|] eqn:E.
    + injection H as ->. apply IH1 in E.
      destruct E as (n & prev' & Hm & Hl & E).
      exists n, prev'. simpl. repeat split; try lia. exact E.
    + apply IH2 in H. destruct H as (n & prev' & Hm & Hl & H).
      exists n, prev'. simpl. repeat split; try lia. exact H.
Qed.

(** A match is never shorter than [min_len], nor longer than what is
    left of the text. *)
Lemma match_at_length (r : regex) (prev : option char) (rest : str)
      (n : nat) :
  match_at r prev rest = Some n -> min_len r <= n <= List.length rest.
Proof.
  unfold match_at. intros H. apply run_consumes in H.
  destruct H as (m & _ & Hm & Hl & H). injection H as <-.
  rewrite length_skipn. lia.
Qed.

(** Every reported span starts at or after the scan position, at a
    position where the pattern matches with the span's length. *)
Lemma scan_sound (r : regex) (rest : str) :
  forall prev pos skip s e,
    In (s, e) (scan r prev rest pos skip) ->
    exists pre suf,
      rest = pre ++ suf /\ s = pos + List.length pre /\ s <= e /\
      match_at r (last_or prev pre) suf = Some (e - s).
Proof.
  induction rest as [|c rest IH]; intros prev pos skip s e H;
    simpl in H; apply in_app_or in H; destruct H as [H|H].
  - destruct skip; [|contradiction].
    destruct (match_at r prev []) as [n|] eqn:E; [|contradiction].
    destruct H as [H|[]]. injection H as <- <-.
    exists [], []. simpl. repeat split; try lia.
    rewrite E. f_equal. lia.
  - contradiction.
  - destruct skip; [|contradiction].
    destruct (match_at r prev (c :: rest)) as [n|] eqn:E; [|contradiction].
    destruct H as [H|[]]. injection H as <- <-.
    exists [], (c :: rest). simpl. repeat split; try lia.
    rewrite E. f_equal. lia.
  - apply IH in H. destruct H as (pre & suf & -> & -> & Hle & Hm).
    exists (c :: pre), suf.
    split; [reflexivity|]. split; [simpl; lia|]. split; [simpl; lia|].
    rewrite last_or_cons, <- Hm. f_equal; simpl; lia.
Qed.


End ReFacts.

(** ** The PII filter *)

Module PiiFacts.
Import Re Pii ReFacts.

(** Where [\b\d{7,8}\b] matches: at a word boundary, over seven or eight
    digits, up to a word boundary. *)
Lemma national_id_match (prev : option char) (rest : str) (n : nat) :
  match_at national_id_re prev rest = Some n ->
  word_at prev = false /\ (n = 7 \/ n = 8) /\ n <= List.length rest /\
  all_in is_digit (firstn n rest) /\
  word_at (hd_error (skipn n rest)) = false.
Proof.
  unfold match_at, national_id_re. simpl.
  destruct (at_boundary prev rest) eqn:B; [|discriminate].
  intros H. apply rep_sound in H.
  destruct H as (m & Hlo & Hhi & Hlen & Hall & Hk). simpl in Hhi.
  destruct (at_boundary (last_or prev (firstn m rest)) (skipn m rest)) eqn:B';
    [|discriminate].
  injection Hk as <-. rewrite length_skipn.
  replace (List.length rest - (List.length rest - m)) with m by lia.
  assert (Hne : firstn m rest <> []).
  { intros E. apply (f_equal (@List.length char)) in E.
    rewrite length_firstn in E. simpl in E. lia. }
  destruct (last_or_holds prev Hne Hall) as (c & Hc & Hd).
  rewrite Hc in B'. unfold at_boundary in B'. simpl in B'.
  rewrite (digit_word _ Hd) in B'. simpl in B'.
  destruct rest as [|a rest]; [simpl in Hlen; lia|].
  destruct m as [|m]; [lia|]. simpl in Hall.
  inversion Hall as [|? ? Ha _]; subst.
  unfold at_boundary in B. simpl in B.
  rewrite (digit_word _ Ha) in B.
  repeat split; try lia; try assumption.
  - destruct (word_at prev); simpl in B; congruence.
  - destruct (word_at (hd_error (skipn (S m) (a :: rest))));
      simpl in B'; congruence.
Qed.

(** [\b[A-Za-z0-9]{6,9}\b] matches a whole alphanumeric token of six to
    nine characters that stands between word boundaries. *)
Lemma passport_match_token (prev : option char) (tok post : str) :
  word_at prev = false -> all_in is_alnum tok ->
  6 <= List.length tok <= 9 ->
  word_at (hd_error post) = false ->
  match_at passport_re prev (tok ++ post) = Some (List.length tok).
Proof.
  intros Hprev Hall Hlen Hpost.
  unfold match_at, passport_re. simpl.
  assert (Hne : tok <> []) by (destruct tok; simpl in *; [lia | discriminate]).
  destruct (last_or_holds prev Hne Hall) as (c & Hc & Hd).
  assert (B : at_boundary prev (tok ++ post) = true).
  { unfold at_boundary. rewrite Hprev.
    destruct tok as [|a tok]; [congruence|]. simpl.
    inversion Hall; subst. apply alnum_word. assumption. }
  rewrite B.
  apply rep_greedy; try assumption; simpl; try lia.
  - intros d Hd'. rewrite Hd' in Hpost. simpl in Hpost.
    destruct (is_alnum d) eqn:E; [|reflexivity].
    apply alnum_word in E. congruence.
  - rewrite Hc. unfold at_boundary. simpl.
    rewrite (alnum_word _ Hd), Hpost. simpl.
    f_equal. rewrite length_app. lia.
Qed.

(** What [\b[A-Za-z0-9]{6,9}\b] matches is alphanumeric. *)
Lemma passport_match (prev : option char) (rest : str) (n : nat) :
  match_at passport_re prev rest = Some n ->
  6 <= n <= 9 /\ all_in is_alnum (firstn n rest).
Proof.
  unfold match_at, passport_re. simpl.
  destruct (at_boundary prev rest); [|discriminate].
  intros H. apply rep_sound in H.
  destruct H as (m & Hlo & Hhi & Hlen & Hall & Hk). simpl in Hhi.
  destruct (at_boundary (last_or prev (firstn m rest)) (skipn m rest));
    [|discriminate].
  injection Hk as <-. rewrite length_skipn.
  replace (List.length rest - (List.length rest - m)) with m by lia.
  split; [lia | assumption].
Qed.

(** None of the four patterns matches the empty string, so the scan,
    like [finditer], always moves on to where the last match ended. *)
Lemma patterns_match_six_or_more (kp : str * regex) (prev : option char)
      (rest : str) (n : nat) :
  In kp _PATTERNS -> match_at (snd kp) prev rest = Some n -> 6 <= n.
Proof.
  intros Hkp H. apply match_at_length in H.
  destruct Hkp as [<-|[<-|[<-|[<-|[]]]]]; simpl in H; lia.
Qed.

Lemma scan_here (r : regex) (prev : option char) (rest : str) (pos n : nat) :
  match_at r prev rest = Some n ->
  In (pos, pos + n) (scan r prev rest pos 0).
Proof.
  intros H. destruct rest; simpl; rewrite H; left; reflexivity.
Qed.

(** One step of the passport scan keeps [inside_token]. *)
Lemma inside_token_step (prev : option char) (c : char) (rest : str)
      (skip : nat) :
  inside_token prev (c :: rest) skip ->
  inside_token (Some c) rest
    (match
        match skip with
        | 0 => match_at passport_re prev (c :: rest)
        | S _ => None
        end
      with
      | Some n => pred n
      | None => pred skip
      end).
Proof.
  intros H. destruct skip as [|k].
  - destruct (match_at passport_re prev (c :: rest)) as [n|] eqn:E;
      [|left; reflexivity].
    apply passport_match in E. destruct E as [Hn Hall].
    destruct n as [|n]; [lia|]. simpl in *.
    inversion Hall; subst. right. split; [|assumption].
    simpl. apply alnum_word. assumption.
  - destruct H as [H|[_ Hall]]; [discriminate|]. simpl in *.
    inversion Hall; subst. right. split; [|assumption].
    simpl. apply alnum_word. assumption.
Qed.

(** The passport scan reports every token of seven or eight digits
    [0-9] that stands between word boundaries. *)
Lemma passport_scan_reaches (tok post pre : str) :
  forall prev pos skip,
    inside_token prev (pre ++ tok ++ post) skip ->
    word_at (last_or prev pre) = false ->
    all_in is_ascii_digit tok -> 7 <= List.length tok <= 8 ->
    word_at (hd_error post) = false ->
    In (pos + List.length pre, pos + List.length pre + List.length tok)
       (scan passport_re prev (pre ++ tok ++ post) pos skip).
Proof.
  induction pre as [|c pre IH]; intros prev pos skip Hin Hprev Hdig Hlen Hpost.
  - simpl in *. rewrite Nat.add_0_r.
    destruct Hin as [->|[Hw _]]; [|congruence].
    apply scan_here. apply passport_match_token; try assumption.
    + apply all_digit_alnum. assumption.
    + lia.
  - rewrite last_or_cons in Hprev.
    apply inside_token_step in Hin.
    specialize (IH (Some c) (S pos) _ Hin Hprev Hdig Hlen Hpost).
    simpl. apply in_or_app. right.
    replace (pos + S (List.length pre)) with (S pos + List.length pre) by lia.
    exact IH.
Qed.

(** Every span of digits [0-9] that [national_id] reports, [passport]
    reports too. *)
Lemma national_id_also_passport (text : str) (s e : nat) :
  In (s, e) (finditer national_id_re text) ->
  all_in is_ascii_digit (slice text s e) ->
  In (s, e) (finditer passport_re text).
Proof.
  unfold finditer. intros H Hascii.
  apply scan_sound in H. destruct H as (pre & suf & -> & -> & Hle & Hm).
  apply national_id_match in Hm.
  destruct Hm as (Hprev & Hn & Hlen & Hdig & Hpost).
  set (n := e - (0 + List.length pre)) in *.
  assert (Hslice : slice (pre ++ suf) (0 + List.length pre) e
                   = firstn n suf).
  { unfold slice. cbn [Nat.add]. fold n.
    rewrite skipn_app, skipn_all, Nat.sub_diag. reflexivity. }
  rewrite Hslice in Hascii.
  assert (Htok : List.length (firstn n suf) = n)
    by (rewrite length_firstn; lia).
  rewrite <- (firstn_skipn n suf).
  replace e with (0 + List.length pre + List.length (firstn n suf))
    by (rewrite Htok; unfold n; lia).
  apply passport_scan_reaches; try assumption.
  - left. reflexivity.
  - lia.
Qed.

Lemma in_matches_of (text : str) (kp : str * regex) (m : PIIMatch) :
  In m (matches_of text kp) <->
  exists s e,
    In (s, e) (finditer (snd kp) text) /\
    skipped (fst kp) text s e = false /\
    m = mkPIIMatch (fst kp) (slice text s e) s e.
Proof.
  unfold matches_of. rewrite in_flat_map. split.
  - intros ([s e] & Hin & Hm). simpl in Hm.
    destruct (skipped (fst kp) text s e) eqn:E; [contradiction|].
    destruct Hm as [<-|[]]. exists s, e. auto.
  - intros (s & e & Hin & Hs & ->). exists (s, e). split; [assumption|].
    simpl. rewrite Hs. left. reflexivity.
Qed.

Lemma in_detect_pii (text : str) (m : PIIMatch) :
  In m (detect_pii text) <->
  exists kp, In kp _PATTERNS /\ In m (matches_of text kp).
Proof.
  destruct text as [|c text].
  - simpl. split; [contradiction|].
    intros (kp & Hkp & Hm).
    destruct Hkp as [<-|[<-|[<-|[<-|[]]]]]; vm_compute in Hm; exact Hm.
  - unfold detect_pii. rewrite in_flat_map. reflexivity.
Qed.

Lemma reported_iff (text k : str) (pattern : regex) (s e : nat) :
  In (k, pattern) _PATTERNS ->
  In (s, e) (finditer pattern text) ->
  In (mkPIIMatch k (slice text s e) s e) (detect_pii text) <->
  skipped k text s e = false.
Proof.
  intros Hkp Hin. rewrite in_detect_pii. split.
  - intros (kp & _ & Hm). apply in_matches_of in Hm.
    destruct Hm as (s' & e' & _ & Hs & E). injection E as E1 _ E2 E3.
    subst s' e'. rewrite E1. exact Hs.
  - intros Hs. exists (k, pattern). split; [assumption|].
    apply in_matches_of. exists s, e. auto.
Qed.

Lemma filter_all (A : Type) (f : A -> bool) (l : list A) :
  (forall x, In x l -> f x = true) -> filter f l = l.
Proof.
  induction l as [|a l IH]; intros H; simpl; [reflexivity|].
  rewrite (H a (or_introl eq_refl)). f_equal. apply IH.
  intros x Hx. apply H. right. assumption.
Qed.

Lemma filter_none (A : Type) (f : A -> bool) (l : list A) :
  (forall x, In x l -> f x = false) -> filter f l = [].
Proof.
  induction l as [|a l IH]; intros H; simpl; [reflexivity|].
  rewrite (H a (or_introl eq_refl)). apply IH.
  intros x Hx. apply H. right. assumption.
Qed.




Lemma skipped_same_for_both (text : str) (s e : nat) :
  skipped (s2l "passport") text s e = skipped (s2l "national_id") text s e.
Proof. reflexivity. Qed.

(** C7.  A span found by the [national_id] or the [passport] pattern is
    reported exactly when the window that reaches eight characters to
    either side of it contains neither [http] nor [@]; a span found by
    the [email] or the [phone] pattern is always reported. *)
Theorem detect_pii_suppression
        (text k : str) (pattern : regex) (s e : nat) :
  In (k, pattern) _PATTERNS ->
  In (s, e) (finditer pattern text) ->
  let window := slice text (s - 8) (e + 8) in
  let reported := In (mkPIIMatch k (slice text s e) s e) (detect_pii text) in
  (k = s2l "national_id" \/ k = s2l "passport" ->
   (reported <->
    contains (s2l "http") window = false /\ contains (s2l "@") window = false))
  /\ (k = s2l "email" \/ k = s2l "phone" -> reported).
Proof.
  intros Hkp Hin window reported.
  pose proof (@reported_iff text k pattern s e Hkp Hin) as R.
  fold reported in R.
  split.
  - intros Hk. rewrite R.
    assert (E : skipped k text s e
                = contains (s2l "http") window || contains (s2l "@") window)
      by (destruct Hk as [-> | ->]; reflexivity).
    rewrite E. apply orb_false_iff.
  - intros Hk. apply R. destruct Hk as [-> | ->]; reflexivity.
Qed.

Lemma detect_pii_suppression_witness :
  let text := s2l "mail a@b.co 1234567" in
  (In (mkPIIMatch (s2l "national_id") (slice text 12 19) 12 19)
      (detect_pii text) <->
   contains (s2l "http") (slice text (12 - 8) (19 + 8)) = false /\
   contains (s2l "@") (slice text (12 - 8) (19 + 8)) = false).
Proof.
  intros text.
  refine (proj1 (@detect_pii_suppression text (s2l "national_id")
                   national_id_re 12 19 _ _) _).
  - vm_compute. auto.
  - vm_compute. auto.
  - left. reflexivity.
Defined.




(** C3.  On the text of the repository's own test, [redact_pii] leaves
    none of the three literals, writes the phone and the email
    placeholders, and does not write [<NATIONAL_ID_REDACTED>]: the same
    span is replaced once as [national_id] and once more as [passport],
    the second replacement using the offsets of the original text. *)
Theorem redact_pii_test_text :
  let text := s2l "ID 12345678, phone 0712345678, email user@example.com" in
  let red := redact_pii text (Some (detect_pii text)) in
  redact_pii text None = red
  /\ red = s2l "ID <PASSPORT_REDACTED>L_ID_REDACTED>, phone <PHONE_REDACTED>, email <EMAIL_REDACTED>"
  /\ contains (s2l "<NATIONAL_ID_REDACTED>") red = false
  /\ contains (s2l "<PHONE_REDACTED>") red = true
  /\ contains (s2l "<EMAIL_REDACTED>") red = true
  /\ contains (s2l "12345678") red = false
  /\ contains (s2l "0712345678") red = false
  /\ contains (s2l "user@example.com") red = false.
Proof. vm_compute. repeat split. Qed.

End PiiFacts.

(** ** The message-history manager *)

Module OrchestratorFacts.
Import Orchestrator.

Lemma deref_new_list_old (h : heap) (v : list ModelMessage) (r : ref) :
  r < List.length h -> deref (fst (new_list h v)) r = deref h r.
Proof. intros H. unfold deref, new_list. simpl. apply app_nth1. exact H. Qed.

Lemma deref_new_list_new (h : heap) (v : list ModelMessage) :
  deref (fst (new_list h v)) (snd (new_list h v)) = v.
Proof.
  unfold deref, new_list. simpl.
  rewrite app_nth2, Nat.sub_diag; [reflexivity | lia].
Qed.

Lemma length_update (h : heap) :
  forall r v, List.length (update h r v) = List.length h.
Proof.
  induction h as [|x h IH]; intros [|r] v; simpl; try reflexivity.
  rewrite IH. reflexivity.
Qed.

Lemma deref_update_same (h : heap) :
  forall r v, r < List.length h -> deref (update h r v) r = v.
Proof.
  unfold deref.
  induction h as [|x h IH]; intros [|r] v H; simpl in *; try lia;
    [reflexivity|].
  apply IH. lia.
Qed.

Lemma deref_update_other (h : heap) :
  forall r r' v, r <> r' -> deref (update h r v) r' = deref h r'.
Proof.
  unfold deref.
  induction h as [|x h IH]; intros [|r] [|r'] v H; simpl in *;
    try reflexivity; try congruence.
  apply IH. congruence.
Qed.

(** The identities collected by the first loop of
    [combine_message_histories]. *)
Lemma existing_ids_spec (l : list ModelMessage) :
  forall acc i,
    In i (fold_left (fun ids msg =>
                       match id msg with
                       | Some j => j :: ids
                       | None => ids
                       end) l acc) <->
    In i acc \/ exists other, In other l /\ id other = Some i.
Proof.
  induction l as [|m l IH]; intros acc i; simpl.
  - split; [auto|]. intros [H|(o & [] & _)]. exact H.
  - rewrite IH. destruct (id m) as [j|] eqn:E; simpl; split.
    + intros [[<-|H]|(o & Ho & Hi)]; eauto.
    + intros [H|(o & [<-|Ho] & Hi)]; eauto.
      left. left. congruence.
    + intros [H|(o & Ho & Hi)]; eauto.
    + intros [H|(o & [<-|Ho] & Hi)]; eauto. congruence.
Qed.

(** The second loop of [combine_message_histories] appends the kept
    messages to [combined] and touches no other list. *)
Lemma append_loop_spec (keep : ModelMessage -> bool) (combined : ref)
      (l : list ModelMessage) :
  forall hh,
    combined < List.length hh ->
    let hh' := fold_left (fun h0 msg =>
                            if keep msg then list_append h0 combined msg
                            else h0) l hh in
    List.length hh' = List.length hh /\
    deref hh' combined = deref hh combined ++ filter keep l /\
    forall r, r <> combined -> deref hh' r = deref hh r.
Proof.
  induction l as [|m l IH]; intros hh Hc; simpl.
  - rewrite app_nil_r. auto.
  - destruct (keep m) eqn:K.
    + destruct (IH (list_append hh combined m)) as (Hl & Hd & Ho).
      { unfold list_append. rewrite length_update. exact Hc. }
      unfold list_append in *. rewrite length_update in Hl.
      rewrite deref_update_same in Hd by exact Hc.
      split; [exact Hl|]. split.
      * rewrite Hd, <- app_assoc. reflexivity.
      * intros r Hr. rewrite Ho by exact Hr.
        apply deref_update_other. congruence.
    + apply IH. exact Hc.
Qed.

Lemma fold_left_ext (A B : Type) (f g : A -> B -> A) (l : list B) :
  (forall a b, f a b = g a b) ->
  forall a, fold_left f l a = fold_left g l a.
Proof.
  intros E. induction l as [|b l IH]; intros a; simpl; [reflexivity|].
  rewrite E. apply IH.
Qed.

(** C5.  [combine_message_histories] returns a new list that holds the
    existing history followed by the new messages whose identity no
    message of the existing history has, in their order; a message
    without identity is always among them; and no list that existed
    before the call, the two arguments included, is changed. *)
Theorem combine_message_histories_spec
        (h : heap) (existing_history new_messages : ref) :
  existing_history < List.length h ->
  new_messages < List.length h ->
  let h' := fst (combine_message_histories h existing_history new_messages) in
  let combined :=
    snd (combine_message_histories h existing_history new_messages) in
  exists keep : ModelMessage -> bool,
    (forall msg,
        keep msg = true <-> ~ known_id (deref h existing_history) msg)
    /\ (forall msg, id msg = None -> keep msg = true)
    /\ deref h' combined =
       deref h existing_history ++ filter keep (deref h new_messages)
    /\ (forall r, r < List.length h -> deref h' r = deref h r)
    /\ List.length h <= combined.
Proof.
  intros He Hn h' combined.
  set (ids := fold_left (fun ids msg =>
                           match id msg with
                           | Some j => j :: ids
                           | None => ids
                           end) (deref h existing_history) []).
  set (keep := fun msg : ModelMessage =>
                 match id msg with
                 | Some i => negb (existsb (Nat.eqb i) ids)
                 | None => true
                 end).
  exists keep.
  assert (Hkeep : forall msg,
             keep msg = true <-> ~ known_id (deref h existing_history) msg).
  { intros msg. unfold keep, known_id.
    destruct (id msg) as [i|] eqn:E.
    - rewrite negb_true_iff. split.
      + intros Hex (j & o & Hj & Ho & Hoj). injection Hj as <-.
        assert (In i ids) as Hi.
        { apply existing_ids_spec. right. exists o. auto. }
        assert (existsb (Nat.eqb i) ids = true); [|congruence].
        apply existsb_exists. exists i. split; [exact Hi|].
        apply Nat.eqb_refl.
      + intros Hno. destruct (existsb (Nat.eqb i) ids) eqn:X; [|reflexivity].
        exfalso. apply Hno. apply existsb_exists in X.
        destruct X as (j & Hj & Hij). apply Nat.eqb_eq in Hij. subst j.
        apply existing_ids_spec in Hj.
        destruct Hj as [[]|(o & Ho & Hoi)]. exists i, o. auto.
    - split; [|reflexivity]. intros _ (j & o & Hj & _). discriminate. }
  split; [exact Hkeep|].
  split; [intros msg E; unfold keep; rewrite E; reflexivity|].
  assert (Hrun : combine_message_histories h existing_history new_messages
                 = (fold_left (fun h0 msg =>
                                 if keep msg then
                                   list_append h0 (List.length h) msg
                                 else h0)
                              (deref h new_messages)
                              (h ++ [deref h existing_history]),
                    List.length h)).
  { unfold combine_message_histories, new_list. fold ids. f_equal.
    replace (deref (h ++ [deref h existing_history]) new_messages)
      with (deref h new_messages)
      by (unfold deref; rewrite app_nth1; [reflexivity | exact Hn]).
    apply fold_left_ext. intros a b. unfold keep.
    destruct (id b); [|reflexivity].
    destruct (existsb (Nat.eqb n) ids); reflexivity. }
  unfold h', combined. rewrite Hrun. simpl.
  destruct (@append_loop_spec keep (List.length h) (deref h new_messages)
              (h ++ [deref h existing_history])) as (_ & Hd & Ho).
  { rewrite length_app. simpl. lia. }
  split; [|split; [|lia]].
  - rewrite Hd. f_equal.
    exact (deref_new_list_new h (deref h existing_history)).
  - intros r Hr. rewrite Ho by lia.
    exact (@deref_new_list_old h (deref h existing_history) r Hr).
Qed.

Lemma combine_message_histories_spec_witness :
  let A := mkMessage (s2l "request") (Some 1) (s2l "a") in
  let B := mkMessage (s2l "response") (Some 2) (s2l "b") in
  let C := mkMessage (s2l "request") (Some 3) (s2l "c") in
  let h := [[A; B]; [B; C]] in
  exists keep : ModelMessage -> bool,
    (forall msg, keep msg = true <-> ~ known_id (deref h 0) msg)
    /\ (forall msg, id msg = None -> keep msg = true)
    /\ deref (fst (combine_message_histories h 0 1))
             (snd (combine_message_histories h 0 1)) =
       deref h 0 ++ filter keep (deref h 1)
    /\ (forall r, r < List.length h ->
          deref (fst (combine_message_histories h 0 1)) r = deref h r)
    /\ List.length h <= snd (combine_message_histories h 0 1).
Proof.
  intros A B C h.
  apply (@combine_message_histories_spec h 0 1); simpl; lia.
Defined.

(** The merge of the specification's example: B is not duplicated. *)
Example combine_message_histories_example :
  let A := mkMessage (s2l "request") (Some 1) (s2l "a") in
  let B := mkMessage (s2l "response") (Some 2) (s2l "b") in
  let C := mkMessage (s2l "request") (Some 3) (s2l "c") in
  let N := mkMessage (s2l "request") None (s2l "n") in
  let r := combine_message_histories [[A; B; N]; [B; N; C; N; C]] 0 1 in
  deref (fst r) (snd r) = [A; B; N; N; C; N; C]
  /\ deref (fst r) 0 = [A; B; N] /\ deref (fst r) 1 = [B; N; C; N; C].
Proof. vm_compute. repeat split. Qed.

Lemma deref_app_old (h h2 : heap) (r : ref) :
  r < List.length h -> deref (h ++ h2) r = deref h r.
Proof. intros H. unfold deref. apply app_nth1. exact H. Qed.

Lemma deref_app_new (h : heap) (v : list ModelMessage) :
  deref (h ++ [v]) (List.length h) = v.
Proof. exact (deref_new_list_new h v). Qed.

Lemma length_partition (A : Type) (f : A -> bool) (l : list A) :
  List.length (filter f l) + List.length (filter (fun x => negb (f x)) l)
  = List.length l.
Proof.
  induction l as [|a l IH]; simpl; [reflexivity|].
  destruct (f a); simpl; lia.
Qed.

(** [l[-m:]] for a positive [m]: the last [m] elements. *)
Lemma slice_from_negative (A : Type) (l : list A) (m : nat) :
  0 < m -> slice_from l (- Z.of_nat m) = lastn m l.
Proof.
  intros Hm. unfold slice_from, lastn.
  destruct (Z.ltb_spec (- Z.of_nat m) 0) as [_|H]; [|lia].
  f_equal. lia.
Qed.

(** [l[-0:]] is [l[0:]]: the whole list. *)
Lemma slice_from_zero (A : Type) (l : list A) : slice_from l (- 0) = l.
Proof.
  unfold slice_from. simpl.
  rewrite Z.min_l by lia. reflexivity.
Qed.

(** For a positive bound the function does what the specification says:
    a history within the bound is returned as it is (the same list);
    otherwise a new list holds the system messages followed by the
    [min (n - k) m] most recent other messages; no existing list is
    changed. *)
Lemma truncate_message_history_positive
      (h : heap) (message_history : ref) (m : nat) :
  0 < m ->
  message_history < List.length h ->
  let history := deref h message_history in
  let r := truncate_message_history h message_history (Z.of_nat m) in
  (List.length history <= m -> r = (h, message_history))
  /\ (m < List.length history ->
      deref (fst r) (snd r) = truncate_spec history m)
  /\ (forall r0, r0 < List.length h -> deref (fst r) r0 = deref h r0).
Proof.
  intros Hm Hr history r. unfold r, truncate_message_history. fold history.
  destruct (Z.leb_spec (Z.of_nat (List.length history)) (Z.of_nat m)) as [H|H].
  - repeat split; try reflexivity. intros; lia.
  - unfold new_list.
    rewrite (@deref_app_old h _ message_history Hr). fold history.
    rewrite deref_app_new.
    set (sys := filter is_system history).
    set (others := filter (fun msg => negb (is_system msg)) history).
    split; [intros; lia|]. split.
    + intros _. cbn [fst snd]. rewrite deref_app_new.
      rewrite !length_app. cbn [List.length].
      replace (List.length h + 1 + 1) with (S (S (List.length h))) by lia.
      replace (List.length h + 1) with (S (List.length h)) by lia.
      rewrite (@deref_app_old ((h ++ [sys]) ++ [others]) _ (List.length h))
        by (rewrite !length_app; simpl; lia).
      rewrite (@deref_app_old (h ++ [sys]) _ (List.length h))
        by (rewrite !length_app; simpl; lia).
      rewrite deref_app_new.
      replace (S (S (List.length h)))
        with (List.length ((h ++ [sys]) ++ [others]))
        by (rewrite !length_app; simpl; lia).
      rewrite deref_app_new.
      unfold truncate_spec. fold sys others. f_equal.
      rewrite slice_from_negative by exact Hm.
      unfold lastn. f_equal.
      pose proof (length_partition is_system history) as P.
      fold sys others in P. lia.
    + intros r0 Hr0. cbn [fst].
      rewrite !deref_app_old; try reflexivity;
        rewrite ?length_app; simpl; lia.
Qed.

(** With the bound [0] nothing is dropped from a history that is not
    empty: the result holds the system messages and then all the other
    messages. *)
Lemma truncate_message_history_zero_keeps_all
      (h : heap) (message_history : ref) :
  message_history < List.length h ->
  deref h message_history <> [] ->
  let history := deref h message_history in
  let r := truncate_message_history h message_history 0 in
  deref (fst r) (snd r) =
  filter is_system history ++
  filter (fun msg => negb (is_system msg)) history.
Proof.
  intros Hr Hne history r. unfold r, truncate_message_history. fold history.
  destruct (Z.leb_spec (Z.of_nat (List.length history)) 0) as [H|H].
  - exfalso. apply Hne. fold history.
    destruct history; [reflexivity | simpl in H; lia].
  - unfold new_list.
    rewrite (@deref_app_old h _ message_history Hr). fold history.
    rewrite deref_app_new.
    set (sys := filter is_system history).
    set (others := filter (fun msg => negb (is_system msg)) history).
    cbn [fst snd]. rewrite deref_app_new.
    rewrite !length_app. cbn [List.length].
    replace (List.length h + 1 + 1) with (S (S (List.length h))) by lia.
    replace (List.length h + 1) with (S (List.length h)) by lia.
    rewrite (@deref_app_old ((h ++ [sys]) ++ [others]) _ (List.length h))
      by (rewrite !length_app; simpl; lia).
    rewrite (@deref_app_old (h ++ [sys]) _ (List.length h))
      by (rewrite !length_app; simpl; lia).
    rewrite deref_app_new.
    replace (S (S (List.length h)))
      with (List.length ((h ++ [sys]) ++ [others]))
      by (rewrite !length_app; simpl; lia).
    rewrite deref_app_new.
    rewrite slice_from_zero. reflexivity.
Qed.

(** C2.  With [max_messages = 0] the slice [other_messages[-0:]] is the
    whole list, so every message is kept, where the specification keeps
    only the system messages. *)
Theorem truncate_message_history_zero :
  let sys := mkMessage (s2l "system") None (s2l "be brief") in
  let q := mkMessage (s2l "request") None (s2l "hello") in
  let a := mkMessage (s2l "response") None (s2l "hi") in
  let r := truncate_message_history [[q; sys; a]] 0 0 in
  deref (fst r) (snd r) = [sys; q; a]
  /\ truncate_spec [q; sys; a] 0 = [sys].
Proof. vm_compute. split; reflexivity. Qed.

End OrchestratorFacts.

(** ** The indexing synchronizer *)

Module IndexerFacts.
Import Indexer.

Local Open Scope py_scope.

Lemma firstn_add (A : Type) (n m : nat) :
  forall l : list A, firstn (n + m) l = firstn n l ++ firstn m (skipn n l).
Proof.
  induction n as [|n IH]; intros [|a l]; simpl;
    try reflexivity.
  - rewrite firstn_nil. reflexivity.
  - rewrite IH. reflexivity.
Qed.

Lemma slice_split (A : Type) (l : list A) (a b c : nat) :
  a <= b -> b <= c -> slice l a c = slice l a b ++ slice l b c.
Proof.
  intros Hab Hbc. unfold slice.
  replace (c - a) with ((b - a) + (c - b)) by lia.
  rewrite firstn_add, skipn_skipn.
  replace (b - a + a) with b by lia. reflexivity.
Qed.

Lemma slice_from_start (A : Type) (l : list A) (n : nat) :
  slice l 0 n = firstn n l.
Proof. unfold slice. rewrite Nat.sub_0_r. reflexivity. Qed.

Lemma length_slice (A : Type) (l : list A) (a b : nat) :
  List.length (slice l a b) <= b - a.
Proof. unfold slice. rewrite length_firstn. lia. Qed.

Lemma id_in_app (ids1 ids2 : list nat) (row : Webpage) :
  id_in (ids1 ++ ids2) row = id_in ids1 row || id_in ids2 row.
Proof. unfold id_in. apply existsb_app. Qed.

Lemma marked_nil (t : nat) (rows : list Webpage) : marked t [] rows = rows.
Proof. unfold marked. simpl. apply map_id. Qed.

Lemma marked_marked (t : nat) (ids1 ids2 : list nat) (rows : list Webpage) :
  marked t ids2 (marked t ids1 rows) = marked t (ids1 ++ ids2) rows.
Proof.
  unfold marked. rewrite map_map. apply map_ext. intros row.
  rewrite id_in_app.
  destruct (id_in ids1 row) eqn:E1; simpl.
  - destruct (id_in ids2 (mark_indexed t row)); reflexivity.
  - reflexivity.
Qed.

Lemma failure_within_nil (n : nat) : failure_within n [] = None.
Proof. destruct n; reflexivity. Qed.

Lemma length_range_step (n : nat) :
  List.length (range_step n batch_size) = (n + 99) / 100.
Proof.
  unfold range_step, batch_size. rewrite length_map, length_seq.
  f_equal. lia.
Qed.

(** One sub-batch: the update, then the commit. *)
Lemma batch_run (P : Webpage -> bool) (f : Webpage -> Webpage)
      (t : list Webpage) (v : list Node) (c : nat) (fs : list outcome) :
  let t' := map (fun row => if P row then f row else row) t in
  (db_update P f ;; db_commit) (mkWorld t t v c fs) =
  match fs with
  | [] => (Ok tt, mkWorld t' t' v c [])
  | [Works] => (Ok tt, mkWorld t' t' v c [])
  | Works :: Works :: fs' => (Ok tt, mkWorld t' t' v c fs')
  | Works :: Fails e _ :: fs' => (Raise (Exception e), mkWorld t t' v c fs')
  | Fails e _ :: fs' => (Raise (Exception e), mkWorld t t v c fs')
  end.
Proof. destruct fs as [|[|e g] [|[|e' g'] fs]]; reflexivity. Qed.

Lemma for_each_cons (S A : Type) (x : A) (xs : list A) (body : A -> M S unit)
      (s : S) :
  for_each (x :: xs) body s =
  match body x s with
  | (Ok _, s') => for_each xs body s'
  | (Raise e, s') => (Raise e, s')
  end.
Proof. reflexivity. Qed.

(** The loop of [mark_documents_as_indexed], started at sub-batch [j0]
    with nothing pending: sub-batches are committed one after the other
    until a call raises; the [p]-th call belongs to sub-batch
    [Nat.div2 p]. *)
Lemma mark_loop (now_ : nat) (ids : list nat) (k : nat) :
  forall j0 w,
    session w = table w ->
    let out :=
      for_each (map (fun j => j * batch_size) (seq j0 k))
               (fun i =>
                  db_update (id_in (slice ids i (i + batch_size)))
                            (mark_indexed now_) ;;
                  db_commit) w in
    vectors (snd out) = vectors w /\
    match failure_within (2 * k) (faults w) with
    | None =>
        fst out = Ok tt /\
        session (snd out) = table (snd out) /\
        table (snd out) =
        marked now_ (slice ids (j0 * batch_size) ((j0 + k) * batch_size))
               (table w)
    | Some (p, e) =>
        fst out = Raise (Exception e) /\
        table (snd out) =
        marked now_
               (slice ids (j0 * batch_size) ((j0 + Nat.div2 p) * batch_size))
               (table w)
    end.
Proof.
  generalize batch_size as B. intros B.
  assert (Hnone : forall j (t : list Webpage),
             t = marked now_ (slice ids (j * B) ((j + 0) * B)) t).
  { intros j t. rewrite Nat.add_0_r. unfold slice.
    rewrite Nat.sub_diag. simpl. symmetry. apply marked_nil. }
  assert (Hstep : forall j n (t : list Webpage),
             marked now_ (slice ids (S j * B) ((S j + n) * B))
                    (marked now_ (slice ids (j * B) (j * B + B)) t)
             = marked now_ (slice ids (j * B) ((j + S n) * B)) t).
  { intros j n t. rewrite marked_marked. f_equal.
    replace (j * B + B) with (S j * B) by lia.
    replace ((S j + n) * B) with ((j + S n) * B) by lia.
    symmetry. apply slice_split; lia. }
  induction k as [|k IH]; intros j0 w Hs out.
  - subst out. cbn. split; [reflexivity|]. split; [reflexivity|].
    split; [exact Hs|]. apply Hnone.
  - replace (2 * S k) with (S (S (2 * k))) by lia.
    destruct w as [t s v c fs]. simpl in Hs. subst s.
    subst out. cbn [seq map]. rewrite for_each_cons, batch_run.
    fold (marked now_ (slice ids (j0 * B) (j0 * B + B)) t).
    cbn [faults vectors table].
    destruct fs as [|[|e g] fs]; [| destruct fs as [|[|e' g'] fs] |].
    + (* no failure is scheduled *)
      specialize (IH (S j0)
                     (mkWorld (marked now_ (slice ids (j0 * B) (j0 * B + B)) t)
                              (marked now_ (slice ids (j0 * B) (j0 * B + B)) t)
                              v c []) eq_refl).
      cbn zeta in IH. cbn [faults vectors table] in IH.
      rewrite failure_within_nil in IH. rewrite Hstep in IH.
      cbn [failure_within]. exact IH.
    + (* one more call is scheduled, and it works *)
      specialize (IH (S j0)
                     (mkWorld (marked now_ (slice ids (j0 * B) (j0 * B + B)) t)
                              (marked now_ (slice ids (j0 * B) (j0 * B + B)) t)
                              v c []) eq_refl).
      cbn zeta in IH. cbn [faults vectors table] in IH.
      rewrite failure_within_nil in IH. rewrite Hstep in IH.
      cbn [failure_within]. exact IH.
    + (* the update and the commit of this sub-batch work *)
      specialize (IH (S j0)
                     (mkWorld (marked now_ (slice ids (j0 * B) (j0 * B + B)) t)
                              (marked now_ (slice ids (j0 * B) (j0 * B + B)) t)
                              v c fs) eq_refl).
      cbn zeta in IH. cbn [faults vectors table] in IH.
      cbn [failure_within].
      destruct (failure_within (2 * k) fs) as [[p e]|];
        rewrite Hstep in IH; exact IH.
    + (* the commit of this sub-batch raises *)
      cbn. repeat split. apply Hnone.
    + (* the update of this sub-batch raises *)
      cbn. repeat split. apply Hnone.
Qed.

(** What [mark_documents_as_indexed] leaves behind, by the first call
    that raises among the two calls of each sub-batch. *)
Lemma mark_spec (ids : list nat) (w : World) :
  session w = table w ->
  let out := mark_documents_as_indexed ids w in
  session (snd out) = table (snd out) /\
  vectors (snd out) = vectors w /\
  match failure_within (2 * ((List.length ids + 99) / 100)) (faults w) with
  | None =>
      fst out = Ok tt /\
      table (snd out) = marked (clock w) ids (table w)
  | Some (p, e) =>
      fst out = Raise (Exception e) /\
      table (snd out) =
      marked (clock w) (firstn (Nat.div2 p * 100) ids) (table w)
  end.
Proof.
  intros Hs out. subst out.
  destruct ids as [|i ids'].
  - cbn. rewrite marked_nil. auto.
  - set (ids := i :: ids') in *.
    rewrite <- length_range_step.
    set (loop := for_each (range_step (List.length ids) batch_size)
                   (fun i0 =>
                      db_update (id_in (slice ids i0 (i0 + batch_size)))
                                (mark_indexed (clock w)) ;; db_commit)
                   (mkWorld (table w) (session w) (vectors w) (S (clock w))
                            (faults w))).
    assert (Hrun : mark_documents_as_indexed ids w =
                   match loop with
                   | (Ok a, s') => (Ok a, s')
                   | (Raise e0, s') =>
                       (Raise e0,
                        mkWorld (table s') (table s') (vectors s') (clock s')
                                (faults s'))
                   end).
    { subst loop ids.
      unfold mark_documents_as_indexed, try_except, bind, now.
      cbv beta iota.
      destruct (for_each _ _ _) as [[a|e0] s']; reflexivity. }
    rewrite Hrun. clear Hrun.
    pose proof (@mark_loop (clock w) ids
                  (List.length (range_step (List.length ids) batch_size)) 0
                  (mkWorld (table w) (session w) (vectors w) (S (clock w))
                           (faults w)) Hs) as L.
    cbn zeta in L. cbn [faults vectors table] in L.
    unfold range_step in *. rewrite length_map, length_seq in *.
    set (nb := (List.length ids + batch_size - 1) / batch_size) in *.
    fold loop in L.
    destruct loop as [r w'].
    cbn [fst snd] in L. destruct L as [Hv L].
    destruct (failure_within (2 * nb) (faults w)) as [[p e]|].
    + destruct L as [-> Ht]. cbn.
      split; [reflexivity|]. split; [exact Hv|]. split; [reflexivity|].
      rewrite Ht. rewrite slice_from_start. reflexivity.
    + destruct L as (-> & Hst & Ht). cbn.
      split; [exact Hst|]. split; [exact Hv|]. split; [reflexivity|].
      rewrite Ht. rewrite slice_from_start. f_equal.
      apply firstn_all2. subst nb. unfold batch_size. cbn [Nat.add].
      pose proof (Nat.div_mod_eq (List.length ids + 100 - 1) 100).
      pose proof (Nat.mod_upper_bound (List.length ids + 100 - 1) 100).
      lia.
Qed.

Lemma unindexed_in_iff (collection : str) (row : Webpage) :
  unindexed_in collection row = true <->
  collection_id row = Some collection /\ is_indexed row = false /\
  content_markdown row <> None.
Proof.
  unfold unindexed_in, sql_eq, sql_not_null.
  rewrite !andb_true_iff, eqb_true_iff.
  destruct (collection_id row) as [c|], (content_markdown row) as [t|];
    rewrite ?str_eqb_eq; split; intros H; decompose [and] H;
    repeat split; try congruence; try discriminate.
Qed.

(** After marking, the selection finds the rows it found before, less
    the marked ones. *)
Lemma select_after_marking (collection : str) (t : nat) (ids : list nat)
      (rows : list Webpage) :
  filter (unindexed_in collection) (marked t ids rows) =
  filter (fun row => unindexed_in collection row && negb (id_in ids row)) rows.
Proof.
  unfold marked.
  induction rows as [|row rows IH]; simpl; [reflexivity|].
  rewrite IH. destruct (id_in ids row) eqn:E.
  - unfold unindexed_in at 1. simpl.
    rewrite andb_false_r, andb_false_r. simpl. reflexivity.
  - rewrite andb_true_r. reflexivity.
Qed.

(** C4.  [mark_documents_as_indexed], started with nothing pending,
    works through sub-batches of at most 100 ids, committing each.  If
    no call raises, all ids end up marked.  If the [p]-th call raises
    (each sub-batch makes two calls, the update and the commit), the
    exception is passed on and exactly the ids of the [p/2] sub-batches
    before it are committed: their rows carry the flag and the
    timestamp, every other row is as it was, nothing is left pending,
    and a later selection finds what it found before less the committed
    rows. *)
Theorem mark_documents_as_indexed_batches
        (document_ids : list nat) (w : World) :
  session w = table w ->
  let out := mark_documents_as_indexed document_ids w in
  let w' := snd out in
  (forall i,
      In i (range_step (List.length document_ids) batch_size) ->
      List.length (slice document_ids i (i + batch_size)) <= 100)
  /\ session w' = table w'
  /\ exists committed : list nat,
      match
        failure_within (2 * ((List.length document_ids + 99) / 100)) (faults w)
      with
      | None => fst out = Ok tt /\ committed = document_ids
      | Some (p, e) =>
          fst out = Raise (Exception e) /\
          committed = firstn (Nat.div2 p * 100) document_ids
      end
      /\ table w' =
         map (fun row =>
                if id_in committed row then mark_indexed (clock w) row
                else row)
             (table w)
      /\ (forall row,
             In row (table w') -> id_in committed row = true ->
             is_indexed row = true /\ indexed_at row = Some (clock w))
      /\ (forall row,
             In row (table w) -> id_in committed row = false ->
             In row (table w'))
      /\ (forall collection,
             filter (unindexed_in collection) (table w') =
             filter (fun row =>
                       unindexed_in collection row
                       && negb (id_in committed row))
                    (table w)).
Proof.
  intros Hs out w'.
  destruct (@mark_spec document_ids w Hs) as (Hst & _ & H).
  fold out in Hst, H. fold w' in Hst, H.
  split.
  { intros i _. pose proof (length_slice document_ids i (i + batch_size)).
    unfold batch_size in *. lia. }
  split; [exact Hst|].
  assert (Hrows : forall committed,
             table w' = marked (clock w) committed (table w) ->
             table w' =
             map (fun row =>
                    if id_in committed row then mark_indexed (clock w) row
                    else row) (table w)
             /\ (forall row,
                    In row (table w') -> id_in committed row = true ->
                    is_indexed row = true /\ indexed_at row = Some (clock w))
             /\ (forall row,
                    In row (table w) -> id_in committed row = false ->
                    In row (table w'))
             /\ (forall collection,
                    filter (unindexed_in collection) (table w') =
                    filter (fun row =>
                              unindexed_in collection row
                              && negb (id_in committed row))
                           (table w))).
  { intros committed Ht. split; [exact Ht|]. split; [|split].
    - intros row Hin Hc. rewrite Ht in Hin. unfold marked in Hin.
      apply in_map_iff in Hin. destruct Hin as (row0 & E & _).
      destruct (id_in committed row0) eqn:E0; subst row.
      + split; reflexivity.
      + congruence.
    - intros row Hin Hc. rewrite Ht. unfold marked.
      apply in_map_iff. exists row. rewrite Hc. auto.
    - intros collection. rewrite Ht. apply select_after_marking. }
  destruct (failure_within (2 * ((List.length document_ids + 99) / 100))
              (faults w)) as [[p e]|].
  - destruct H as [Hr Ht].
    exists (firstn (Nat.div2 p * 100) document_ids).
    split; [split; [exact Hr | reflexivity]|]. apply Hrows. exact Ht.
  - destruct H as [Hr Ht]. exists document_ids.
    split; [split; [exact Hr | reflexivity]|]. apply Hrows. exact Ht.
Qed.

Lemma mark_documents_as_indexed_batches_witness :
  let page := fun i =>
    mkWebpage i (s2l "https://www.example.go.ke/") None (Some (s2l "text"))
              (Some (s2l "kfc")) None false None in
  let rows := [page 7; page 100; page 101; page 150] in
  let w := mkWorld rows rows [] 5
             [Works; Works; Works; Fails (s2l "connection lost") 0] in
  let out := mark_documents_as_indexed (seq 1 150) w in
  session w = table w
  /\ fst out = Raise (Exception (s2l "connection lost"))
  /\ session (snd out) = table (snd out)
  /\ table (snd out) =
     [mark_indexed 5 (page 7); mark_indexed 5 (page 100); page 101; page 150].
Proof.
  intros page rows w out.
  split; [reflexivity|].
  destruct (@mark_documents_as_indexed_batches (seq 1 150) w eq_refl)
    as (_ & Hs & committed & Hm & Ht & _).
  change (fst out = Raise (Exception (s2l "connection lost"))
          /\ committed = seq 1 100) in Hm.
  destruct Hm as [Hr Hc].
  split; [exact Hr|]. split; [exact Hs|].
  fold out in Ht. rewrite Ht, Hc. reflexivity.
Defined.

(** C6 as amended.  [get_unindexed_documents] changes neither the table,
    nor the session, nor the vector store; unless its query raises, it
    returns the data of exactly the rows of the collection whose indexed
    flag is false and whose content is not NULL (an empty content is
    selected too), in the order of the rows. *)
Theorem get_unindexed_documents_selects (collection : str) (w : World) :
  let out := get_unindexed_documents collection w in
  table (snd out) = table w
  /\ session (snd out) = session w
  /\ vectors (snd out) = vectors w
  /\ (forall row,
         unindexed_in collection row = true <->
         collection_id row = Some collection /\ is_indexed row = false /\
         content_markdown row <> None)
  /\ match failure_within 1 (faults w) with
     | Some (_, e) => fst out = Raise (Exception e)
     | None =>
         fst out =
         Ok (map webpage_data (filter (unindexed_in collection) (session w)))
     end.
Proof.
  intros out. subst out.
  destruct w as [t s v c [|[|e g] fs]]; cbn;
    (split; [|split; [|split; [|split]]]);
    try reflexivity; intros row; apply unindexed_in_iff.
Qed.

(** C6 as stated fails: a row whose content is the empty string is
    selected, though its content is not non-empty. *)
Lemma get_unindexed_documents_empty_content :
  let row := mkWebpage 1 (s2l "https://www.example.go.ke/") (Some (s2l "Home"))
                       (Some (s2l "")) (Some (s2l "kfc")) None false None in
  let w := mkWorld [row] [row] [] 0 [] in
  fst (get_unindexed_documents (s2l "kfc") w) = Ok [webpage_data row]
  /\ fst (get_unindexed_documents (s2l "kfc") w) <>
     Ok (map webpage_data (filter (selected_spec (s2l "kfc")) (session w))).
Proof.
  intros row w. split; [reflexivity|]. vm_compute. discriminate.
Qed.

Ltac run_monad :=
  cbv beta iota zeta delta
      [index_documents_by_collection try_except with_session bind io
       update_stats modify get ret raise get_unindexed_documents db_select
       db_rollback now await_io await_bulk setup_vector_store pipeline_run
       vector_store_index set_vectors fst snd table session vectors clock
       faults].

(** The shape of a run: it always returns its statistics; the table is
    untouched unless the selection was not empty and the query, the
    set-up of the vector store, the pipeline and the construction of
    the index all returned, in which case marking starts from a world
    whose vector store holds the nodes of every selected document. *)
Lemma index_run (sp : str -> list str) (collection : str) (w : World) :
  let docs := map webpage_data (filter (unindexed_in collection) (table w)) in
  let w4 := mkWorld (table w) (table w)
                    (vectors w ++ flat_map (nodes_of sp) docs)
                    (S (clock w)) (skipn 4 (faults w)) in
  let marking := mark_documents_as_indexed (map doc_id docs) w4 in
  let out := index_documents_by_collection sp collection w in
  (exists stats, fst out = Ok stats) /\
  match failure_within 4 (faults w) with
  | Some (p, e) =>
      table (snd out) = table w /\
      forall stats,
        fst out = Ok stats ->
        documents_indexed stats = 0 /\
        (p = 0 \/ docs <> [] ->
         status stats = s2l "failed" /\ st_error stats = Some e)
  | None =>
      match docs with
      | [] => table (snd out) = table w
      | _ :: _ =>
          table (snd out) = table (snd marking) /\
          vectors (snd out) = vectors (snd marking)
      end
  end.
Proof.
  intros docs w4 marking out. subst out marking w4 docs.
  destruct w as [t s v c fs].
  destruct fs as [|[|e0 g0] [|[|e1 g1] [|[|e2 g2] [|[|e3 g3] fs]]]];
    cbn [table vectors clock faults failure_within skipn];
    run_monad;
    destruct (filter (unindexed_in collection) t) as [|r rs];
    cbn [map]; run_monad;
    try (destruct (mark_documents_as_indexed _ _) as [[[]|e] w5]);
    cbn; eauto;
    (split; [eauto|]); split; try reflexivity;
    intros stats E; injection E as <-; (split; [reflexivity|]);
    intros [H|H]; try discriminate; try (split; reflexivity);
    exfalso; apply H; reflexivity.
Qed.

Lemma in_firstn (A : Type) (x : A) (n : nat) :
  forall l, In x (firstn n l) -> In x l.
Proof.
  induction n as [|n IH]; intros [|a l] H; simpl in *; try contradiction.
  destruct H as [H|H]; [left; exact H | right; apply IH; exact H].
Qed.

Lemma same_id_same_row (rows : list Webpage) (a b : Webpage) :
  NoDup (map id rows) -> In a rows -> In b rows -> id a = id b -> a = b.
Proof.
  induction rows as [|r rows IH]; intros Hnd Ha Hb E; [contradiction|].
  simpl in Hnd. apply NoDup_cons_iff in Hnd. destruct Hnd as [Hr Hnd].
  destruct Ha as [->|Ha], Hb as [->|Hb].
  - reflexivity.
  - exfalso. apply Hr. rewrite E. apply in_map. exact Hb.
  - exfalso. apply Hr. rewrite <- E. apply in_map. exact Ha.
  - apply IH; assumption.
Qed.

(** C1.  A run of [index_documents_by_collection] always returns its
    statistics.  If the query, the set-up of the vector store, the
    pipeline (chunking, embedding, upsert) or the construction of the
    index raises, the table is left as it was and no document counts as
    indexed.  Every row of the table after the run is either a row of
    the table before, or a selected row that the run marked; in that
    case those four calls all returned and the vector store holds every
    node of the row's document. *)
Theorem index_documents_marks_after_upsert
        (sentence_splitter : str -> list str) (collection : str) (w : World) :
  NoDup (map id (table w)) ->
  let out := index_documents_by_collection sentence_splitter collection w in
  let w' := snd out in
  (exists stats, fst out = Ok stats)
  /\ (forall p e,
         failure_within 4 (faults w) = Some (p, e) ->
         table w' = table w /\
         forall stats,
           fst out = Ok stats ->
           documents_indexed stats = 0 /\
           (p = 0
            \/ filter (unindexed_in collection) (table w) <> [] ->
            status stats = s2l "failed" /\ st_error stats = Some e))
  /\ (forall row',
         In row' (table w') ->
         In row' (table w)
         \/ exists row at_,
             In row (table w)
             /\ unindexed_in collection row = true
             /\ row' = mark_indexed at_ row
             /\ failure_within 4 (faults w) = None
             /\ forall node,
                 In node (nodes_of sentence_splitter (webpage_data row)) ->
                 In node (vectors w')).
Proof.
  intros Hkey out w'.
  pose proof (index_run sentence_splitter collection w) as R.
  cbn zeta in R. fold out in R. fold w' in R.
  destruct R as [Hret R].
  split; [exact Hret|].
  destruct (failure_within 4 (faults w)) as [[p e]|] eqn:F.
  { destruct R as [Ht Hz]. split.
    - intros p0 e0 E. injection E as <- <-. split; [exact Ht|].
      intros stats Hs. destruct (Hz stats Hs) as [Hi Hf].
      split; [exact Hi|]. intros [H|H]; apply Hf; [left; exact H|].
      right. intros E. apply H.
      destruct (filter (unindexed_in collection) (table w));
        [reflexivity | discriminate].
    - intros row' Hin. left. rewrite <- Ht. exact Hin. }
  split; [intros p e; discriminate|].
  intros row' Hin.
  set (sel := filter (unindexed_in collection) (table w)) in *.
  destruct (map webpage_data sel) as [|d ds] eqn:D.
  { left. rewrite <- R. exact Hin. }
  rewrite <- D in R. clear D d ds.
  set (w4 := mkWorld (table w) (table w)
               (vectors w ++
                flat_map (nodes_of sentence_splitter) (map webpage_data sel))
               (S (clock w)) (skipn 4 (faults w))) in *.
  destruct R as [Ht Hv].
  destruct (@mark_spec (map doc_id (map webpage_data sel)) w4 eq_refl)
    as (_ & Hv4 & M).
  assert (Hmarked : exists committed,
             (forall i, In i committed -> In i (map id sel)) /\
             table w' = marked (clock w4) committed (table w)).
  { rewrite map_map in M. cbn [doc_id webpage_data] in M.
    rewrite map_map in Ht. cbn [doc_id webpage_data] in Ht.
    destruct (failure_within _ (faults w4)) as [[p e]|].
    - exists (firstn (Nat.div2 p * 100) (map (fun x => id x) sel)). split.
      + intros i Hi. apply in_firstn in Hi. exact Hi.
      + rewrite Ht. apply M.
    - exists (map (fun x => id x) sel). split; [auto|].
      rewrite Ht. apply M. }
  destruct Hmarked as (committed & Hsub & Htab).
  rewrite Htab in Hin. unfold marked in Hin.
  apply in_map_iff in Hin. destruct Hin as (row & Hrow' & Hrow).
  destruct (id_in committed row) eqn:C; [|left; subst row'; exact Hrow].
  right. exists row, (clock w4).
  assert (Hsel : In row sel).
  { unfold id_in in C. apply existsb_exists in C.
    destruct C as (i & Hi & Ei). apply Nat.eqb_eq in Ei. subst i.
    apply Hsub in Hi. apply in_map_iff in Hi.
    destruct Hi as (row2 & E2 & H2).
    assert (row2 = row) as <-; [|exact H2].
    apply (@same_id_same_row (table w)); try assumption.
    unfold sel in H2. apply filter_In in H2. apply H2. }
  split; [exact Hrow|].
  split; [unfold sel in Hsel; apply filter_In in Hsel; apply Hsel|].
  split; [symmetry; exact Hrow'|].
  split; [reflexivity|].
  intros node Hnode. fold w'. rewrite Hv, Hv4. unfold w4. cbn [vectors].
  apply in_or_app. right. apply in_flat_map.
  exists (webpage_data row). split; [|exact Hnode].
  apply in_map. exact Hsel.
Qed.

Lemma index_documents_marks_after_upsert_witness :
  let page := fun i coll =>
    mkWebpage i (s2l "https://www.example.go.ke/") None (Some (s2l "text"))
              (Some coll) None false None in
  let rows := [page 1 (s2l "kfc"); page 2 (s2l "brs")] in
  let w := mkWorld rows rows [] 0 [Works; Works; Fails (s2l "timeout") 1] in
  let out := index_documents_by_collection (fun t => [t]) (s2l "kfc") w in
  NoDup (map id (table w))
  /\ (exists stats, fst out = Ok stats)
  /\ table (snd out) = table w.
Proof.
  intros page rows w out.
  assert (Hkey : NoDup (map id (table w))).
  { repeat constructor; simpl; intros H; decompose [or] H;
      try discriminate; contradiction. }
  split; [exact Hkey|].
  destruct (@index_documents_marks_after_upsert
              (fun t => [t]) (s2l "kfc") w Hkey) as (Hret & Hfail & _).
  split; [exact Hret|].
  exact (proj1 (Hfail 2 (s2l "timeout") eq_refl)).
Defined.

End IndexerFacts.

(** ** The chat endpoints *)

Module ChatFacts.
Import Orchestrator ChatEndpoints.

Lemma find_app_none (A : Type) (f : A -> bool) (l l' : list A) :
  find f l = None -> find f (l ++ l') = find f l'.
Proof.
  induction l as [|a l IH]; simpl; [reflexivity|].
  destruct (f a); [discriminate | exact IH].
Qed.

Lemma map_if_none (A : Type) (f : A -> bool) (g : A -> A) (l : list A) :
  find f l = None -> map (fun c => if f c then g c else c) l = l.
Proof.
  induction l as [|a l IH]; simpl; [reflexivity|].
  destruct (f a); [discriminate|]. intros H. rewrite IH by exact H.
  reflexivity.
Qed.

Ltac run_chat :=
  cbv beta iota zeta delta
      [process_chat delete_chat try_except bind modify get ret raise
       await_storage uuid4 create_chat_session create_chat_session_with_id
       get_chat_by_session_id load_messages save_messages
       delete_chat_session run_agent set_chats truthy negb fst snd
       chats uuid_source uuid_count storage_faults agent session_id user_id
       message].

(** C8 as amended.  When the request carries a session id that is not
    the empty string and names no stored session, and storage and agent
    work, [process_chat] stores a session under exactly that id, runs
    the agent without any message history and saves the messages of
    the turn in the new session; it answers with that session id when
    the sources of the agent's output are dictionaries of strings.
    When they are not, building the answer fails and the caller gets
    status 500 (never a not-found error), the session and its messages
    staying stored. *)
Theorem process_chat_unknown_session
        (validation_error : list Source -> str)
        (request : ChatRequest) (sid : str) (w : ChatWorld)
        (res : AgentRunResult) :
  session_id request = Some sid ->
  sid <> [] ->
  find (has_id sid) (chats w) = None ->
  failure_within 3 (storage_faults w) = None ->
  agent w None (message request) = Ok res ->
  let out := process_chat validation_error request w in
  match validate_sources (sources (output res)) with
  | Some validated =>
      fst out =
      Ok (mkChatResponse sid (answer (output res)) validated
            (confidence (output res)) (retriever_type (output res))
            (Some (uuid_source w (uuid_count w))))
  | None =>
      fst out =
      Raise (HTTPException 500
               (s2l "Internal server error: "
                ++ validation_error (sources (output res))))
  end
  /\ chats (snd out) =
     chats w ++ [mkChat sid (user_id request) (new_messages res)].
Proof.
  intros Hsid Hne Hnew Hio Hagent out. subst out.
  destruct request as [msg rsid usr meta]. cbn in Hsid, Hagent. subst rsid.
  destruct sid as [|c0 sid0]; [congruence|].
  set (sid := c0 :: sid0) in *.
  assert (Hfresh : find (has_id sid) (chats w ++ [mkChat sid usr []])
                   = Some (mkChat sid usr [])).
  { rewrite find_app_none by exact Hnew. cbn [find].
    unfold has_id at 1. cbn [chat_session_id]. rewrite str_eqb_refl.
    reflexivity. }
  assert (Hsaved : map (fun c =>
                          if has_id sid c then
                            mkChat (chat_session_id c) (chat_user_id c)
                                   (chat_messages c ++ new_messages res)
                          else c)
                       (chats w ++ [mkChat sid usr []])
                   = chats w ++ [mkChat sid usr (new_messages res)]).
  { rewrite map_app, map_if_none by exact Hnew. cbn [map].
    unfold has_id at 1. cbn [chat_session_id chat_user_id chat_messages].
    rewrite str_eqb_refl. reflexivity. }
  destruct w as [cs us uc fs ag]. cbn in Hnew, Hagent, Hfresh, Hsaved |- *.
  destruct fs as [|[|e0 g0] [|[|e1 g1] [|[|e2 g2] fs]]];
    cbn in Hio; try discriminate;
    unfold sid; run_chat; fold sid;
    rewrite ?Hnew; run_chat; fold sid;
    rewrite ?Hagent; run_chat; fold sid;
    rewrite ?Hfresh; run_chat; fold sid;
    rewrite ?Hsaved;
    destruct (validate_sources (sources (output res)));
    split; reflexivity.
Qed.

Lemma process_chat_unknown_session_witness :
  let hello := mkMessage (s2l "request") None (s2l "Hello") in
  let reply := mkMessage (s2l "response") None (s2l "Karibu") in
  let source := [(s2l "title", s2l "Fees"); (s2l "url", s2l "https://brs.go.ke")] in
  let res := mkAgentRunResult
               (mkOutput (s2l "Karibu") [StrDict source] 1 (s2l "none"))
               [hello; reply] [hello; reply] in
  let request := mkChatRequest (s2l "Hello") (Some (s2l "abc-123")) None None in
  let w := mkChatWorld [] (fun _ => s2l "trace-1") 0 [Works]
                   (fun _ _ => Ok res) in
  let out := process_chat (fun _ => s2l "validation error") request w in
  session_id request = Some (s2l "abc-123")
  /\ find (has_id (s2l "abc-123")) (chats w) = None
  /\ fst out =
     Ok (mkChatResponse (s2l "abc-123") (s2l "Karibu") [source] 1 (s2l "none")
           (Some (s2l "trace-1")))
  /\ chats (snd out) = [mkChat (s2l "abc-123") None [hello; reply]].
Proof.
  intros hello reply source res request w out.
  split; [reflexivity|]. split; [reflexivity|].
  apply (@process_chat_unknown_session
           (fun _ => s2l "validation error") request (s2l "abc-123") w res);
    try reflexivity.
  discriminate.
Defined.

(** C8 as stated fails: the empty string is a session id that names no
    stored session, and [process_chat] does not create a session under
    it; being falsy, it counts as no session id, and the session is
    created under a new identifier. *)
Lemma process_chat_empty_session_id :
  let hello := mkMessage (s2l "request") None (s2l "Hello") in
  let reply := mkMessage (s2l "response") None (s2l "Karibu") in
  let res := mkAgentRunResult
               (mkOutput (s2l "Karibu") [] 1 (s2l "none"))
               [hello; reply] [hello; reply] in
  let request := mkChatRequest (s2l "Hello") (Some (s2l "")) None None in
  let w := mkChatWorld []
             (fun n => if n =? 0 then s2l "trace-1" else s2l "session-1")
             0 [] (fun _ _ => Ok res) in
  let out := process_chat (fun _ => s2l "validation error") request w in
  session_id request = Some (s2l "")
  /\ find (has_id (s2l "")) (chats w) = None
  /\ fst out =
     Ok (mkChatResponse (s2l "session-1") (s2l "Karibu") [] 1 (s2l "none")
           (Some (s2l "trace-1")))
  /\ chats (snd out) = [mkChat (s2l "session-1") None [hello; reply]]
  /\ find (has_id (s2l "")) (chats (snd out)) = None.
Proof. vm_compute. repeat split. Qed.

(** C9.  [delete_chat] never answers 404.  For a session that does not
    exist, [delete_chat_session] returns false and the endpoint raises
    its 404 inside the [try]; the handler for [Exception] catches it and
    raises status 500, the status a storage failure gets as well. *)
Theorem delete_chat_not_found_is_500 :
  (forall sid w detail,
      fst (delete_chat sid w) <> Raise (HTTPException 404 detail))
  /\ let w := mkChatWorld [] (fun _ => s2l "trace-1") 0 []
                      (fun _ _ => Raise (Exception (s2l "no agent"))) in
     let broken := mkChatWorld [] (fun _ => s2l "trace-1") 0
                           [Fails (s2l "connection lost") 0]
                           (fun _ _ => Raise (Exception (s2l "no agent"))) in
     fst (delete_chat_session (s2l "abc-123") w) = Ok false
     /\ fst (delete_chat (s2l "abc-123") w) =
        Raise (HTTPException 500
                 (s2l "Internal server error: 404: Chat session abc-123 not found"))
     /\ fst (delete_chat (s2l "abc-123") broken) =
        Raise (HTTPException 500
                 (s2l "Internal server error: connection lost")).
Proof.
  split.
  - intros sid [cs us uc fs ag] detail.
    destruct fs as [|[|e0 g0] fs]; run_chat;
      try (destruct (find (has_id sid) cs)); run_chat; discriminate.
  - vm_compute. repeat split.
Qed.

End ChatFacts.

(** ** More on the PII filter *)

Module PiiMore.
Import Re Pii ReFacts PiiFacts.

(** Where a reported match comes from: its pattern matches at its start
    offset, over its length, and it was not skipped. *)
Lemma detect_pii_span (text : str) (m : PIIMatch) :
  In m (detect_pii text) ->
  exists kp pre suf,
    In kp _PATTERNS /\ kind m = fst kp /\
    text = pre ++ suf /\ start m = List.length pre /\
    start m <= end_ m /\
    match_at (snd kp) (last_or None pre) suf = Some (end_ m - start m) /\
    match_ m = slice text (start m) (end_ m).
Proof.
  intros H. apply in_detect_pii in H. destruct H as (kp & Hkp & H).
  apply in_matches_of in H. destruct H as (s & e & Hin & _ & ->).
  unfold finditer in Hin. apply scan_sound in Hin.
  destruct Hin as (pre & suf & Ht & Hs & Hle & Hm).
  exists kp, pre, suf. simpl. repeat split; auto.
Qed.

Lemma slice_of_suffix (A : Type) (pre suf : list A) (n : nat) :
  slice (pre ++ suf) (List.length pre) (List.length pre + n) = firstn n suf.
Proof.
  unfold slice. rewrite skipn_app, skipn_all, Nat.sub_diag. simpl.
  f_equal. lia.
Qed.

(** X1.  Every match that [detect_pii] reports is of one of the four
    kinds, spans at least six characters inside the text, and carries
    exactly the characters of its span. *)
Theorem detect_pii_matches_well_formed (text : str) (m : PIIMatch) :
  In m (detect_pii text) ->
  In (kind m)
     [s2l "email"; s2l "phone"; s2l "national_id"; s2l "passport"]
  /\ start m + 6 <= end_ m
  /\ end_ m <= List.length text
  /\ match_ m = slice text (start m) (end_ m)
  /\ List.length (match_ m) = end_ m - start m.
Proof.
  intros H. apply detect_pii_span in H.
  destruct H as (kp & pre & suf & Hkp & Hk & Ht & Hs & Hle & Hm & Hmt).
  pose proof (@patterns_match_six_or_more kp _ _ _ Hkp Hm) as H6.
  apply match_at_length in Hm. destruct Hm as [_ Hlen].
  assert (Hend : end_ m <= List.length text).
  { rewrite Ht, length_app. lia. }
  split.
  { rewrite Hk. destruct Hkp as [<-|[<-|[<-|[<-|[]]]]]; simpl; auto. }
  split; [lia|]. split; [exact Hend|]. split; [exact Hmt|].
  rewrite Hmt. unfold slice. rewrite length_firstn, length_skipn. lia.
Qed.

Lemma detect_pii_matches_well_formed_witness :
  let text := s2l "Call 0712345678 today" in
  let m := mkPIIMatch (s2l "phone") (s2l "0712345678") 5 15 in
  In m (detect_pii text)
  /\ start m + 6 <= end_ m
  /\ end_ m <= List.length text
  /\ match_ m = slice text (start m) (end_ m).
Proof.
  intros text m.
  assert (H : In m (detect_pii text)) by (vm_compute; auto).
  split; [exact H|].
  destruct (@detect_pii_matches_well_formed text m H) as (_ & A & B & C & _).
  split; [exact A|]. split; [exact B | exact C].
Defined.

(** X2.  A text of fewer than six characters holds no match, and
    [redact_pii] returns it as it is. *)
Theorem short_text_has_no_pii (text : str) :
  List.length text < 6 ->
  detect_pii text = [] /\ redact_pii text None = text.
Proof.
  intros Hlen.
  assert (Hnone : detect_pii text = []).
  { destruct (detect_pii text) as [|m l] eqn:E; [reflexivity|].
    assert (H : In m (detect_pii text)) by (rewrite E; left; reflexivity).
    apply detect_pii_span in H.
    destruct H as (kp & pre & suf & Hkp & _ & Ht & Hs & Hle & Hm & _).
    pose proof (@patterns_match_six_or_more kp _ _ _ Hkp Hm) as H6.
    apply match_at_length in Hm. rewrite Ht, length_app in Hlen. lia. }
  split; [exact Hnone|].
  unfold redact_pii. rewrite Hnone. destruct text; reflexivity.
Qed.

Lemma short_text_has_no_pii_witness :
  List.length (s2l "12345") < 6
  /\ redact_pii (s2l "12345") None = s2l "12345".
Proof.
  split; [simpl; lia|].
  apply (@short_text_has_no_pii (s2l "12345")). simpl. lia.
Defined.

(** X3.  What the two numeric kinds report: a [national_id] match is
    seven or eight decimal digits, a [passport] match is six to nine
    letters or digits. *)
Theorem detect_pii_numeric_kinds (text : str) (m : PIIMatch) :
  In m (detect_pii text) ->
  (kind m = s2l "national_id" ->
   all_in is_digit (match_ m) /\
   (List.length (match_ m) = 7 \/ List.length (match_ m) = 8))
  /\ (kind m = s2l "passport" ->
      all_in is_alnum (match_ m) /\ 6 <= List.length (match_ m) <= 9).
Proof.
  intros H. apply detect_pii_span in H.
  destruct H as (kp & pre & suf & Hkp & Hk & Ht & Hs & Hle & Hm & Hmt).
  assert (Hslice : match_ m = firstn (end_ m - start m) suf).
  { rewrite Hmt, Ht, Hs.
    replace (end_ m) with (List.length pre + (end_ m - List.length pre))
      at 1 by lia.
    apply slice_of_suffix. }
  pose proof (@match_at_length _ _ _ _ Hm) as [_ Hlen].
  assert (Hl : List.length (match_ m) = end_ m - start m).
  { rewrite Hslice, length_firstn. lia. }
  split; intros Hkind; rewrite Hkind in Hk.
  - assert (kp = (s2l "national_id", national_id_re)) as ->.
    { destruct Hkp as [<-|[<-|[<-|[<-|[]]]]];
        simpl in Hk; try discriminate; reflexivity. }
    apply national_id_match in Hm.
    destruct Hm as (_ & Hn & _ & Hd & _).
    rewrite Hslice at 1. rewrite Hl. auto.
  - assert (kp = (s2l "passport", passport_re)) as ->.
    { destruct Hkp as [<-|[<-|[<-|[<-|[]]]]];
        simpl in Hk; try discriminate; reflexivity. }
    apply passport_match in Hm. destruct Hm as (Hn & Ha).
    rewrite Hslice at 1. rewrite Hl. auto.
Qed.

Lemma detect_pii_numeric_kinds_witness :
  let text := s2l "ref AB123456 ok" in
  let m := mkPIIMatch (s2l "passport") (s2l "AB123456") 4 12 in
  In m (detect_pii text)
  /\ all_in is_alnum (match_ m) /\ 6 <= List.length (match_ m) <= 9.
Proof.
  intros text m.
  assert (H : In m (detect_pii text)) by (vm_compute; auto).
  split; [exact H|].
  exact (proj2 (@detect_pii_numeric_kinds text m H) eq_refl).
Defined.

Lemma scan_after_skip (r : regex) (rest : str) :
  forall prev pos skip s e,
    In (s, e) (scan r prev rest pos skip) -> pos + skip <= s.
Proof.
  induction rest as [|c rest IH]; intros prev pos skip s e H;
    simpl in H; apply in_app_or in H; destruct H as [H|H];
    try contradiction.
  - destruct skip; [|contradiction].
    destruct (match_at r prev []); [|contradiction].
    destruct H as [H|[]]. injection H as <- <-. lia.
  - destruct skip; [|contradiction].
    destruct (match_at r prev (c :: rest)); [|contradiction].
    destruct H as [H|[]]. injection H as <- <-. lia.
  - apply IH in H. destruct skip as [|k]; [lia|]. simpl in H. lia.
Qed.

(** The spans of one scan do not overlap: each ends before the next
    starts. *)
Lemma scan_disjoint (r : regex) (rest : str) :
  forall prev pos skip,
    StronglySorted (fun a b : nat * nat => snd a <= fst b)
                   (scan r prev rest pos skip).
Proof.
  induction rest as [|c rest IH]; intros prev pos skip; simpl.
  - rewrite app_nil_r.
    destruct (match skip with 0 => match_at r prev [] | S _ => None end);
      repeat constructor.
  - set (here := match skip with
                 | 0 => match_at r prev (c :: rest)
                 | S _ => None
                 end).
    set (skip' := match here with Some n => pred n | None => pred skip end).
    destruct here as [n|] eqn:E; simpl; [|apply IH].
    constructor; [apply IH|].
    apply Forall_forall. intros [s e] Hin. simpl.
    apply scan_after_skip in Hin. subst skip'. destruct n; simpl in Hin; lia.
Qed.

Lemma sorted_pairs (A : Type) (R : A -> A -> Prop) (l : list A) (x y : A) :
  StronglySorted R l -> In x l -> In y l -> x = y \/ R x y \/ R y x.
Proof.
  induction l as [|a l IH]; intros Hs Hx Hy; [contradiction|].
  apply StronglySorted_inv in Hs. destruct Hs as [Hs Ha].
  rewrite Forall_forall in Ha.
  destruct Hx as [->|Hx], Hy as [->|Hy]; auto.
Qed.

(** X4.  Two matches of the same kind never overlap: the one that
    starts first ends before the other starts. *)
Theorem same_kind_matches_disjoint (text : str) (m1 m2 : PIIMatch) :
  In m1 (detect_pii text) ->
  In m2 (detect_pii text) ->
  kind m1 = kind m2 ->
  start m1 < start m2 ->
  end_ m1 <= start m2.
Proof.
  intros H1 H2 Hk Hlt.
  apply in_detect_pii in H1. destruct H1 as (kp1 & Hkp1 & H1).
  apply in_detect_pii in H2. destruct H2 as (kp2 & Hkp2 & H2).
  apply in_matches_of in H1. destruct H1 as (s1 & e1 & Hin1 & _ & ->).
  apply in_matches_of in H2. destruct H2 as (s2 & e2 & Hin2 & _ & ->).
  simpl in *.
  assert (kp1 = kp2) as ->.
  { destruct Hkp1 as [<-|[<-|[<-|[<-|[]]]]];
      destruct Hkp2 as [<-|[<-|[<-|[<-|[]]]]];
      simpl in Hk; try discriminate; reflexivity. }
  pose proof (scan_disjoint (snd kp2) text None 0 0) as Hs.
  destruct (@sorted_pairs _ _ _ _ _ Hs Hin1 Hin2) as [E|[H|H]].
  - injection E as -> ->. lia.
  - exact H.
  - simpl in H. unfold finditer in Hin2. apply scan_sound in Hin2.
    destruct Hin2 as (_ & _ & _ & _ & Hle & _). lia.
Qed.

Lemma same_kind_matches_disjoint_witness :
  let text := s2l "+254712345678 and 0712345678" in
  let m1 := mkPIIMatch (s2l "phone") (s2l "254712345678") 1 13 in
  let m2 := mkPIIMatch (s2l "phone") (s2l "0712345678") 18 28 in
  In m1 (detect_pii text) /\ In m2 (detect_pii text)
  /\ end_ m1 <= start m2.
Proof.
  intros text m1 m2.
  assert (H1 : In m1 (detect_pii text)) by (vm_compute; left; reflexivity).
  assert (H2 : In m2 (detect_pii text))
    by (vm_compute; right; left; reflexivity).
  split; [exact H1|]. split; [exact H2|].
  apply (@same_kind_matches_disjoint text m1 m2 H1 H2 eq_refl).
  simpl. lia.
Defined.

Lemma insert_desc_last (m : PIIMatch) (l : list PIIMatch) :
  (forall y, In y l -> start m < start y) -> insert_desc m l = l ++ [m].
Proof.
  induction l as [|y l IH]; intros H; simpl; [reflexivity|].
  assert (Hy : start m < start y) by (apply H; left; reflexivity).
  apply Nat.ltb_lt in Hy. rewrite Hy. f_equal. apply IH.
  intros z Hz. apply H. right. exact Hz.
Qed.

Lemma laid_out_bounds (ms : list PIIMatch) (len : nat) :
  forall pos,
    laid_out pos ms len ->
    pos <= len /\ forall y, In y ms -> pos <= start y /\ end_ y <= len.
Proof.
  induction ms as [|m ms IH]; intros pos H; simpl in H.
  - split; [exact H|]. intros y [].
  - destruct H as (Hp & Hm & H). apply IH in H. destruct H as [He Hall].
    split; [lia|]. intros y [<-|Hy]; [lia|].
    destruct (Hall y Hy). lia.
Qed.

(** Matches laid out from left to right are sorted to the reverse
    list. *)
Lemma sorted_desc_laid_out (ms : list PIIMatch) (len : nat) :
  forall pos, laid_out pos ms len -> sorted_desc ms = rev ms.
Proof.
  unfold sorted_desc.
  induction ms as [|m ms IH]; intros pos H; simpl; [reflexivity|].
  simpl in H. destruct H as (Hp & Hm & H).
  rewrite (IH _ H).
  apply insert_desc_last. intros y Hy. apply in_rev in Hy.
  apply laid_out_bounds in H. destruct H as [_ H].
  destruct (H y Hy). lia.
Qed.

Lemma firstn_slice (A : Type) (l : list A) (a b : nat) :
  a <= b -> firstn b l = firstn a l ++ slice l a b.
Proof.
  intros H. unfold slice.
  replace b with (a + (b - a)) at 1 by lia. apply IndexerFacts.firstn_add.
Qed.

(** Replacing the last span first leaves the offsets of the spans
    before it as they were. *)
Lemma redact_from_the_end (text : str) (ms : list PIIMatch) :
  forall pos,
    laid_out pos ms (List.length text) ->
    fold_right (fun m acc => redact_step acc m) text ms =
    firstn pos text ++ splice text pos ms.
Proof.
  induction ms as [|m ms IH]; intros pos H; simpl.
  - symmetry. apply firstn_skipn.
  - simpl in H. destruct H as (Hp & Hm & H).
    rewrite (IH _ H). unfold redact_step.
    pose proof (@laid_out_bounds _ _ _ H) as [Hend _].
    assert (Hlen : List.length (firstn (end_ m) text) = end_ m)
      by (rewrite length_firstn; lia).
    rewrite firstn_app, Hlen, firstn_firstn.
    replace (start m - end_ m) with 0 by lia.
    replace (Nat.min (start m) (end_ m)) with (start m) by lia.
    simpl. rewrite app_nil_r.
    rewrite skipn_app, Hlen, Nat.sub_diag. simpl.
    rewrite skipn_all2 by lia. simpl.
    rewrite (@firstn_slice _ text pos (start m) Hp), <- app_assoc.
    reflexivity.
Qed.

(** X5.  Given matches whose spans are not empty and lie one after the
    other in the text, [redact_pii] returns the text with every span
    replaced by the placeholder of its match and everything between the
    spans kept. *)
Theorem redact_pii_disjoint_spans (text : str) (ms : list PIIMatch) :
  laid_out 0 ms (List.length text) ->
  redact_pii text (Some ms) = splice text 0 ms.
Proof.
  intros H. unfold redact_pii.
  destruct text as [|c text].
  - destruct ms as [|m ms]; [reflexivity|].
    simpl in H. destruct H as (_ & Hm & H).
    apply laid_out_bounds in H. simpl in H. lia.
  - destruct ms as [|m ms]; [reflexivity|].
    rewrite (@sorted_desc_laid_out _ _ _ H).
    pose proof (@redact_from_the_end (c :: text) (m :: ms) 0 H) as E.
    pose proof (fold_left_rev_right (fun x acc => redact_step acc x)
                  (rev (m :: ms)) (c :: text)) as F.
    rewrite rev_involutive in F.
    etransitivity; [symmetry; exact F | exact E].
Qed.

Lemma redact_pii_disjoint_spans_witness :
  let text := s2l "ID 12345678, phone 0712345678." in
  let ms := [mkPIIMatch (s2l "national_id") (s2l "12345678") 3 11;
             mkPIIMatch (s2l "phone") (s2l "0712345678") 19 29] in
  laid_out 0 ms (List.length text)
  /\ redact_pii text (Some ms) =
     s2l "ID <NATIONAL_ID_REDACTED>, phone <PHONE_REDACTED>.".
Proof.
  intros text ms.
  assert (H : laid_out 0 ms (List.length text)) by (simpl; lia).
  split; [exact H|].
  rewrite (@redact_pii_disjoint_spans text ms H). reflexivity.
Defined.

(** [\b\d{7,8}\b] matches a whole run of seven or eight digits that
    stands between word boundaries. *)
Lemma national_id_match_token (prev : option char) (tok post : str) :
  word_at prev = false -> all_in is_digit tok ->
  7 <= List.length tok <= 8 ->
  word_at (hd_error post) = false ->
  match_at national_id_re prev (tok ++ post) = Some (List.length tok).
Proof.
  intros Hprev Hall Hlen Hpost.
  unfold match_at, national_id_re. simpl.
  assert (Hne : tok <> []) by (destruct tok; simpl in *; [lia | discriminate]).
  destruct (last_or_holds prev Hne Hall) as (c & Hc & Hd).
  assert (B : at_boundary prev (tok ++ post) = true).
  { unfold at_boundary. rewrite Hprev.
    destruct tok as [|a tok]; [congruence|]. simpl.
    inversion Hall; subst. apply digit_word. assumption. }
  rewrite B.
  apply rep_greedy; try assumption; simpl; try lia.
  - intros d Hd'. rewrite Hd' in Hpost. simpl in Hpost.
    destruct (is_digit d) eqn:E; [|reflexivity].
    apply digit_word in E. congruence.
  - rewrite Hc. unfold at_boundary. simpl.
    rewrite (digit_word _ Hd), Hpost. simpl.
    f_equal. rewrite length_app. lia.
Qed.

(** A scan for a pattern whose matches consist of word characters
    reports the match at every position that follows a character which
    is not a word character. *)
Lemma token_scan_reaches (r : regex) (tok post pre : str) :
  (forall prev rest n,
      match_at r prev rest = Some n ->
      1 <= n /\ all_in is_word (firstn n rest)) ->
  forall prev pos skip,
    skip = 0
    \/ (word_at prev = true
        /\ all_in is_word (firstn skip (pre ++ tok ++ post))) ->
    word_at (last_or prev pre) = false ->
    match_at r (last_or prev pre) (tok ++ post) = Some (List.length tok) ->
    In (pos + List.length pre, pos + List.length pre + List.length tok)
       (scan r prev (pre ++ tok ++ post) pos skip).
Proof.
  intros Hsound.
  induction pre as [|c pre IH]; intros prev pos skip Hin Hprev Hm.
  - simpl in *. rewrite Nat.add_0_r.
    destruct Hin as [->|[Hw _]]; [|congruence].
    apply PiiFacts.scan_here. exact Hm.
  - rewrite last_or_cons in Hprev, Hm.
    set (skip' := match
                     match skip with
                     | 0 => match_at r prev (c :: pre ++ tok ++ post)
                     | S _ => None
                     end
                   with
                   | Some n => pred n
                   | None => pred skip
                   end).
    assert (Hin' : skip' = 0
                   \/ (word_at (Some c) = true
                       /\ all_in is_word
                                 (firstn skip' (pre ++ tok ++ post)))).
    { subst skip'. destruct skip as [|k].
      - destruct (match_at r prev (c :: pre ++ tok ++ post)) as [n|] eqn:E;
          [|left; reflexivity].
        apply Hsound in E. destruct E as [Hn Hall].
        destruct n as [|n]; [lia|]. simpl in *.
        inversion Hall; subst. right. split; assumption.
      - destruct Hin as [Hin|[_ Hall]]; [discriminate|]. simpl in *.
        inversion Hall; subst. right. split; assumption. }
    specialize (IH (Some c) (S pos) skip' Hin' Hprev Hm).
    simpl. apply in_or_app. right.
    replace (pos + S (List.length pre)) with (S pos + List.length pre) by lia.
    exact IH.
Qed.

(** X6.  A run of seven or eight digits [0-9] that stands between
    characters which are not word characters (or the ends of the text),
    with neither [http] nor [@] within eight characters of it, is
    reported, as a [national_id] match and as a [passport] match. *)
Theorem lone_number_is_reported (pre tok post : str) :
  word_at (last_or None pre) = false ->
  all_in is_ascii_digit tok ->
  7 <= List.length tok <= 8 ->
  word_at (hd_error post) = false ->
  let text := pre ++ tok ++ post in
  let s := List.length pre in
  let e := List.length pre + List.length tok in
  contains (s2l "http") (slice text (s - 8) (e + 8)) = false ->
  contains (s2l "@") (slice text (s - 8) (e + 8)) = false ->
  In (mkPIIMatch (s2l "national_id") tok s e) (detect_pii text)
  /\ In (mkPIIMatch (s2l "passport") tok s e) (detect_pii text).
Proof.
  intros Hprev Hdig Hlen Hpost text s e Hhttp Hat.
  assert (Hscan : In (s, e) (finditer national_id_re text)).
  { unfold finditer, text, s, e.
    change (List.length pre) with (0 + List.length pre).
    apply (@token_scan_reaches national_id_re tok post pre).
    - intros p r n H. apply national_id_match in H.
      destruct H as (_ & Hn & _ & Hd & _).
      split; [lia|]. unfold all_in in *.
      eapply Forall_impl; [|exact Hd]. intros c. apply digit_word.
    - left. reflexivity.
    - exact Hprev.
    - apply national_id_match_token; try assumption.
      apply all_ascii_digit_digit. exact Hdig. }
  assert (Htok : slice text s e = tok).
  { unfold text, s, e. rewrite slice_of_suffix.
    rewrite firstn_app, Nat.sub_diag, firstn_all. simpl.
    apply app_nil_r. }
  assert (Hskip : skipped (s2l "national_id") text s e = false).
  { unfold skipped, surrounding. simpl str_in. cbn iota.
    change (Nat.max 0 (s - 8)) with (s - 8).
    rewrite Hhttp, Hat. reflexivity. }
  split; apply in_detect_pii.
  - exists (s2l "national_id", national_id_re). split; [simpl; auto|].
    apply in_matches_of. exists s, e. simpl. rewrite Htok. auto.
  - exists (s2l "passport", passport_re). split; [simpl; auto|].
    apply in_matches_of. exists s, e. simpl. rewrite Htok.
    split; [apply national_id_also_passport;
            [exact Hscan | rewrite Htok; exact Hdig]|].
    split; [|reflexivity].
    rewrite skipped_same_for_both. exact Hskip.
Qed.

Lemma lone_number_is_reported_witness :
  let pre := s2l "My ID is " in
  let tok := s2l "1234567" in
  let post := s2l ", thanks" in
  all_in is_ascii_digit tok
  /\ In (mkPIIMatch (s2l "national_id") tok 9 16)
        (detect_pii (pre ++ tok ++ post))
  /\ In (mkPIIMatch (s2l "passport") tok 9 16)
        (detect_pii (pre ++ tok ++ post)).
Proof.
  intros pre tok post.
  assert (Hd : all_in is_ascii_digit tok) by (repeat constructor).
  split; [exact Hd|].
  apply (@lone_number_is_reported pre tok post); try reflexivity.
  - exact Hd.
  - simpl. lia.
Defined.

End PiiMore.

(** ** More on the message-history manager *)

Module OrchestratorMore.
Import Orchestrator OrchestratorFacts.

Lemma id_known_iff (existing : list ModelMessage) (msg : ModelMessage) :
  id_known existing msg = true <-> known_id existing msg.
Proof.
  unfold id_known, known_id. destruct (id msg) as [i|].
  - rewrite existsb_exists. split.
    + intros (o & Ho & E). destruct (id o) as [j|] eqn:Ej; [|discriminate].
      apply Nat.eqb_eq in E. subst j. exists i, o. auto.
    + intros (j & o & Hj & Ho & Hoj). injection Hj as <-.
      exists o. split; [exact Ho|]. rewrite Hoj. apply Nat.eqb_refl.
  - split; [discriminate|]. intros (j & o & Hj & _). discriminate.
Qed.

(** The content of the list that [combine_message_histories] returns,
    and what the call does to the heap. *)
Lemma combine_content (h : heap) (existing_history new_messages : ref) :
  existing_history < List.length h ->
  new_messages < List.length h ->
  let r := combine_message_histories h existing_history new_messages in
  snd r = List.length h
  /\ List.length (fst r) = S (List.length h)
  /\ deref (fst r) (snd r) =
     deref h existing_history ++
     filter (fun msg => negb (id_known (deref h existing_history) msg))
            (deref h new_messages)
  /\ (forall r0, r0 < List.length h -> deref (fst r) r0 = deref h r0).
Proof.
  intros He Hn r.
  set (existing := deref h existing_history) in *.
  set (keep := fun msg => negb (id_known existing msg)).
  assert (Hrun : r = (fold_left (fun h0 msg =>
                                   if keep msg then
                                     list_append h0 (List.length h) msg
                                   else h0)
                                (deref h new_messages) (h ++ [existing]),
                      List.length h)).
  { unfold r, combine_message_histories, new_list. fold existing. f_equal.
    replace (deref (h ++ [existing]) new_messages)
      with (deref h new_messages)
      by (unfold deref; rewrite app_nth1; [reflexivity | exact Hn]).
    apply fold_left_ext. intros a b. unfold keep, id_known.
    destruct (id b) as [i|] eqn:Eb; [|reflexivity].
    match goal with
    | |- (if ?x then _ else _) = (if negb ?y then _ else _) =>
        assert (E : x = y); [|rewrite E; destruct y; reflexivity]
    end.
    apply eq_true_iff_eq. rewrite !existsb_exists. split.
    - intros (j & Hj & Hij). apply Nat.eqb_eq in Hij. subst j.
      apply existing_ids_spec in Hj. destruct Hj as [[]|(o & Ho & Hoi)].
      exists o. split; [exact Ho|]. rewrite Hoi. apply Nat.eqb_refl.
    - intros (o & Ho & Hoi). destruct (id o) as [j|] eqn:Ej; [|discriminate].
      apply Nat.eqb_eq in Hoi. subst j. exists i.
      split; [|apply Nat.eqb_refl].
      apply existing_ids_spec. right. exists o. auto. }
  rewrite Hrun. cbn [fst snd].
  destruct (@append_loop_spec keep (List.length h) (deref h new_messages)
              (h ++ [existing])) as (Hl & Hd & Ho).
  { rewrite length_app. simpl. lia. }
  split; [reflexivity|]. split; [|split].
  - rewrite Hl, length_app. simpl. lia.
  - rewrite Hd. f_equal. exact (deref_new_list_new h existing).
  - intros r0 Hr0. rewrite Ho by lia.
    exact (@deref_new_list_old h existing r0 Hr0).
Qed.

(** X7.  Merging the same new messages a second time appends once more
    exactly those of them that have no identity; the ones with an
    identity are never added twice. *)
Theorem combine_message_histories_again
        (h : heap) (existing_history new_messages : ref) :
  existing_history < List.length h ->
  new_messages < List.length h ->
  let r1 := combine_message_histories h existing_history new_messages in
  let r2 := combine_message_histories (fst r1) (snd r1) new_messages in
  deref (fst r2) (snd r2) =
  deref (fst r1) (snd r1) ++ filter has_no_id (deref h new_messages).
Proof.
  intros He Hn r1 r2.
  destruct (@combine_content h existing_history new_messages He Hn)
    as (Hs1 & Hl1 & Hc1 & Ho1).
  fold r1 in Hs1, Hl1, Hc1, Ho1.
  assert (Hv1 : snd r1 < List.length (fst r1)) by lia.
  assert (Hn1 : new_messages < List.length (fst r1)) by lia.
  destruct (@combine_content (fst r1) (snd r1) new_messages Hv1 Hn1)
    as (_ & _ & Hc2 & _).
  fold r2 in Hc2. rewrite Hc2. f_equal.
  rewrite (Ho1 new_messages Hn). rewrite Hc1.
  set (e := deref h existing_history).
  set (n := deref h new_messages).
  apply filter_ext_in. intros msg Hmsg.
  unfold has_no_id. destruct (id msg) as [i|] eqn:Ei.
  - apply negb_false_iff. apply id_known_iff.
    destruct (id_known e msg) eqn:K.
    + apply id_known_iff in K. destruct K as (j & o & Hj & Ho & Hoj).
      exists j, o. repeat split; auto. apply in_or_app. left. exact Ho.
    + exists i, msg. repeat split; auto. apply in_or_app. right.
      apply filter_In. split; [exact Hmsg|]. rewrite K. reflexivity.
  - unfold id_known. rewrite Ei. reflexivity.
Qed.

Lemma combine_message_histories_again_witness :
  let A := mkMessage (s2l "request") (Some 1) (s2l "a") in
  let B := mkMessage (s2l "response") (Some 2) (s2l "b") in
  let N := mkMessage (s2l "request") None (s2l "n") in
  let h := [[A]; [B; N]] in
  let r1 := combine_message_histories h 0 1 in
  let r2 := combine_message_histories (fst r1) (snd r1) 1 in
  1 < List.length h
  /\ deref (fst r2) (snd r2) = [A; B; N; N].
Proof.
  intros A B N h r1 r2.
  split; [simpl; lia|].
  etransitivity;
    [apply (@combine_message_histories_again h 0 1); simpl; lia
    | reflexivity].
Defined.

(** X8.  If no new message has an identity that the existing history
    knows, the result is the existing history followed by all the new
    messages, duplicates among them included; if every new message has
    an identity that the existing history knows, the result is a copy of
    the existing history. *)
Theorem combine_message_histories_all_or_nothing
        (h : heap) (existing_history new_messages : ref) :
  existing_history < List.length h ->
  new_messages < List.length h ->
  let r := combine_message_histories h existing_history new_messages in
  ((forall msg, In msg (deref h new_messages) ->
                ~ known_id (deref h existing_history) msg) ->
   deref (fst r) (snd r) =
   deref h existing_history ++ deref h new_messages)
  /\ ((forall msg, In msg (deref h new_messages) ->
                   known_id (deref h existing_history) msg) ->
      deref (fst r) (snd r) = deref h existing_history)
  /\ snd r <> existing_history.
Proof.
  intros He Hn r.
  destruct (@combine_content h existing_history new_messages He Hn)
    as (Hs & _ & Hc & _).
  fold r in Hs, Hc. split; [|split].
  - intros Hall. rewrite Hc. f_equal. apply PiiFacts.filter_all.
    intros msg Hmsg. apply negb_true_iff.
    destruct (id_known (deref h existing_history) msg) eqn:K;
      [|reflexivity].
    apply id_known_iff in K. exfalso. exact (Hall msg Hmsg K).
  - intros Hall. rewrite Hc.
    rewrite PiiFacts.filter_none; [apply app_nil_r|].
    intros msg Hmsg. apply negb_false_iff. apply id_known_iff.
    exact (Hall msg Hmsg).
  - lia.
Qed.

Lemma combine_message_histories_all_or_nothing_witness :
  let A := mkMessage (s2l "request") (Some 1) (s2l "a") in
  let C := mkMessage (s2l "request") (Some 3) (s2l "c") in
  let h := [[A]; [C; C]] in
  let r := combine_message_histories h 0 1 in
  1 < List.length h /\ deref (fst r) (snd r) = [A; C; C].
Proof.
  intros A C h r.
  split; [simpl; lia|].
  refine (proj1 (@combine_message_histories_all_or_nothing h 0 1 _ _) _).
  - simpl. lia.
  - simpl. lia.
  - intros msg Hmsg (i & o & Hi & Ho & Hoi).
    destruct Ho as [<-|[]]. simpl in Hoi. injection Hoi as <-.
    destruct Hmsg as [<-|[<-|[]]]; discriminate.
Defined.

Lemma deref_at_end (h : heap) (v : list ModelMessage) (n : nat) :
  n = List.length h -> deref (h ++ [v]) n = v.
Proof. intros ->. apply deref_app_new. Qed.

(** What [truncate_message_history] returns and does to the heap, for
    any bound. *)
Lemma truncate_content (h : heap) (message_history : ref) (max : Z) :
  message_history < List.length h ->
  let history := deref h message_history in
  let r := truncate_message_history h message_history max in
  deref (fst r) (snd r) = truncated history max
  /\ ((Z.of_nat (List.length history) <= max)%Z -> r = (h, message_history))
  /\ ((max < Z.of_nat (List.length history))%Z ->
      snd r = List.length h + 3 /\ List.length (fst r) = List.length h + 4)
  /\ (forall r0, r0 < List.length h -> deref (fst r) r0 = deref h r0).
Proof.
  intros Hr history r. unfold r, truncate_message_history, truncated.
  fold history.
  destruct (Z.leb_spec (Z.of_nat (List.length history)) max) as [H|H].
  - repeat split; try reflexivity; intros; lia.
  - unfold new_list.
    rewrite (@deref_app_old h _ message_history Hr). fold history.
    rewrite deref_app_new.
    set (sys := filter is_system history).
    set (others := filter (fun msg => negb (is_system msg)) history).
    cbn [fst snd].
    rewrite !length_app. cbn [List.length].
    replace (List.length h + 1 + 1) with (S (S (List.length h))) by lia.
    replace (List.length h + 1) with (S (List.length h)) by lia.
    split; [|split; [intros; lia | split; [intros _; lia|]]].
    + rewrite deref_at_end by (rewrite !length_app; simpl; lia).
      rewrite (@deref_app_old ((h ++ [sys]) ++ [others]) _ (List.length h))
        by (rewrite !length_app; simpl; lia).
      rewrite (@deref_app_old (h ++ [sys]) _ (List.length h))
        by (rewrite !length_app; simpl; lia).
      rewrite deref_app_new.
      rewrite deref_at_end by (rewrite !length_app; simpl; lia).
      reflexivity.
    + intros r0 Hr0.
      rewrite !deref_app_old; try reflexivity;
        rewrite ?length_app; simpl; lia.
Qed.

Lemma in_slice_from (A : Type) (l : list A) (i : Z) (x : A) :
  In x (slice_from l i) -> In x l.
Proof.
  unfold slice_from. intros H.
  rewrite <- (firstn_skipn
                (Z.to_nat
                   (if (i <? 0)%Z then Z.max 0 (Z.of_nat (List.length l) + i)
                    else Z.min i (Z.of_nat (List.length l)))) l).
  apply in_or_app. right. exact H.
Qed.

Lemma length_slice_from (A : Type) (l : list A) (i : Z) :
  List.length (slice_from l i) <= List.length l.
Proof. unfold slice_from. rewrite length_skipn. lia. Qed.

(** X9.  Whatever the bound, truncation changes no list that exists:
    a history within the bound is returned as the same list object, a
    longer one as a new list.  The result holds only messages of the
    history, holds every system message of it, and is never longer than
    it. *)
Theorem truncate_message_history_safe
        (h : heap) (message_history : ref) (max : Z) :
  message_history < List.length h ->
  let history := deref h message_history in
  let r := truncate_message_history h message_history max in
  ((Z.of_nat (List.length history) <= max)%Z -> r = (h, message_history))
  /\ ((max < Z.of_nat (List.length history))%Z -> List.length h <= snd r)
  /\ (forall r0, r0 < List.length h -> deref (fst r) r0 = deref h r0)
  /\ (forall msg, In msg (deref (fst r) (snd r)) -> In msg history)
  /\ (forall msg, In msg history -> is_system msg = true ->
                  In msg (deref (fst r) (snd r)))
  /\ List.length (deref (fst r) (snd r)) <= List.length history.
Proof.
  intros Hr history r.
  destruct (@truncate_content h message_history max Hr)
    as (Hc & Hsame & Hnew & Hold).
  fold history in Hc, Hsame, Hnew. fold r in Hc, Hsame, Hnew, Hold.
  split; [exact Hsame|]. split; [intros H; apply Hnew in H; lia|].
  split; [exact Hold|]. rewrite Hc. unfold truncated.
  destruct (Z.of_nat (List.length history) <=? max)%Z; [auto|].
  split; [|split].
  - intros msg H. apply in_app_or in H. destruct H as [H|H].
    + apply filter_In in H. apply H.
    + apply in_slice_from in H. apply filter_In in H. apply H.
  - intros msg Hin Hsys. apply in_or_app. left.
    apply filter_In. auto.
  - rewrite length_app.
    pose proof (length_partition is_system history).
    pose proof (length_slice_from
                  (filter (fun m => negb (is_system m)) history) (- max)).
    lia.
Qed.

Lemma truncate_message_history_safe_witness :
  let sys := mkMessage (s2l "system") None (s2l "be brief") in
  let q := mkMessage (s2l "request") None (s2l "hello") in
  let a := mkMessage (s2l "response") None (s2l "hi") in
  let h := [[q; sys; a]] in
  let r := truncate_message_history h 0 1 in
  0 < List.length h
  /\ List.length h <= snd r
  /\ deref (fst r) 0 = [q; sys; a]
  /\ List.length (deref (fst r) (snd r)) <= 3.
Proof.
  intros sys q a h r.
  split; [simpl; lia|].
  destruct (@truncate_message_history_safe h 0 1) as (_ & A & B & _ & _ & C);
    [simpl; lia|].
  split; [apply A; simpl; lia|].
  split; [apply (B 0); simpl; lia | exact C].
Defined.

Lemma filter_system_truncated (l : list ModelMessage) (i : Z) :
  filter is_system
         (filter is_system l
          ++ slice_from (filter (fun m => negb (is_system m)) l) i)
  = filter is_system l
  /\ filter (fun m => negb (is_system m))
            (filter is_system l
             ++ slice_from (filter (fun m => negb (is_system m)) l) i)
     = slice_from (filter (fun m => negb (is_system m)) l) i.
Proof.
  rewrite !filter_app.
  assert (Hs : forall x, In x (filter is_system l) -> is_system x = true).
  { intros x H. apply filter_In in H. apply H. }
  assert (Ho : forall x,
             In x (slice_from (filter (fun m => negb (is_system m)) l) i) ->
             is_system x = false).
  { intros x H. apply in_slice_from in H. apply filter_In in H.
    destruct H as [_ H]. apply negb_true_iff in H. exact H. }
  set (sys := filter is_system l) in *.
  set (rec := slice_from (filter (fun m => negb (is_system m)) l) i) in *.
  split.
  - rewrite (@PiiFacts.filter_all _ is_system sys Hs).
    rewrite (@PiiFacts.filter_none _ is_system rec Ho). apply app_nil_r.
  - rewrite (@PiiFacts.filter_none _ (fun m => negb (is_system m)) sys).
    + simpl. apply PiiFacts.filter_all. intros x H.
      rewrite (Ho x H). reflexivity.
    + intros x H. rewrite (Hs x H). reflexivity.
Qed.

Lemma slice_from_twice (A : Type) (l : list A) (m : Z) :
  (0 <= m)%Z -> slice_from (slice_from l (- m)) (- m) = slice_from l (- m).
Proof.
  intros Hm. unfold slice_from at 1.
  replace (Z.to_nat _) with 0; [reflexivity|].
  pose proof (length_slice_from l (- m)) as Hl.
  assert (Hlen : List.length (slice_from l (- m))
                 = List.length l
                   - Z.to_nat (if (- m <? 0)%Z
                               then Z.max 0 (Z.of_nat (List.length l) + - m)
                               else Z.min (- m) (Z.of_nat (List.length l)))).
  { unfold slice_from. apply length_skipn. }
  destruct (Z.ltb_spec (- m) 0); lia.
Qed.

Lemma truncated_idempotent (l : list ModelMessage) (max : Z) :
  (0 <= max)%Z -> truncated (truncated l max) max = truncated l max.
Proof.
  intros Hm.
  destruct (Z.leb_spec (Z.of_nat (List.length l)) max) as [H|H].
  - assert (E : truncated l max = l).
    { unfold truncated. apply Z.leb_le in H. rewrite H. reflexivity. }
    rewrite !E. reflexivity.
  - assert (E : truncated l max
                = filter is_system l
                  ++ slice_from (filter (fun m => negb (is_system m)) l)
                                (- max)).
    { unfold truncated. apply Z.leb_gt in H. rewrite H. reflexivity. }
    rewrite E. unfold truncated.
    destruct (Z.of_nat _ <=? max)%Z; [reflexivity|].
    destruct (filter_system_truncated l (- max)) as [-> ->].
    rewrite slice_from_twice by exact Hm. reflexivity.
Qed.

(** X10.  For a bound that is not negative, truncating a truncated
    history again keeps every message of it, in the same order. *)
Theorem truncate_message_history_idempotent
        (h : heap) (message_history : ref) (max : Z) :
  message_history < List.length h ->
  (0 <= max)%Z ->
  let r1 := truncate_message_history h message_history max in
  let r2 := truncate_message_history (fst r1) (snd r1) max in
  deref (fst r2) (snd r2) = deref (fst r1) (snd r1).
Proof.
  intros Hr Hm r1 r2.
  destruct (@truncate_content h message_history max Hr)
    as (Hc1 & Hsame & Hnew & _).
  fold r1 in Hc1, Hsame, Hnew.
  assert (Hv : snd r1 < List.length (fst r1)).
  { destruct (Z.leb_spec (Z.of_nat (List.length (deref h message_history)))
                         max) as [H|H].
    - rewrite (Hsame H). exact Hr.
    - destruct (Hnew H). lia. }
  destruct (@truncate_content (fst r1) (snd r1) max Hv) as (Hc2 & _).
  fold r2 in Hc2. rewrite Hc2, Hc1. apply truncated_idempotent. exact Hm.
Qed.

Lemma truncate_message_history_idempotent_witness :
  let sys := mkMessage (s2l "system") None (s2l "be brief") in
  let q := mkMessage (s2l "request") None (s2l "hello") in
  let a := mkMessage (s2l "response") None (s2l "hi") in
  let h := [[q; sys; a; q; a]] in
  let r1 := truncate_message_history h 0 2 in
  let r2 := truncate_message_history (fst r1) (snd r1) 2 in
  0 < List.length h
  /\ deref (fst r1) (snd r1) = [sys; q; a]
  /\ deref (fst r2) (snd r2) = deref (fst r1) (snd r1).
Proof.
  intros sys q a h r1 r2.
  split; [simpl; lia|]. split; [reflexivity|].
  apply (@truncate_message_history_idempotent h 0 2); simpl; lia.
Defined.

(** X11.  With a negative bound [-d] no history is within the bound: a
    new list is built that holds the system messages and then the other
    messages without the [d] oldest of them, even when the history is
    short or empty. *)
Theorem truncate_message_history_negative
        (h : heap) (message_history : ref) (d : nat) :
  message_history < List.length h ->
  0 < d ->
  let history := deref h message_history in
  let r := truncate_message_history h message_history (- Z.of_nat d) in
  snd r = List.length h + 3
  /\ deref (fst r) (snd r) =
     filter is_system history
     ++ skipn d (filter (fun msg => negb (is_system msg)) history).
Proof.
  intros Hr Hd history r.
  destruct (@truncate_content h message_history (- Z.of_nat d) Hr)
    as (Hc & _ & Hnew & _).
  fold history in Hc, Hnew. fold r in Hc, Hnew.
  split; [apply Hnew; lia|].
  rewrite Hc. unfold truncated.
  destruct (Z.leb_spec (Z.of_nat (List.length history)) (- Z.of_nat d));
    [lia|].
  f_equal. unfold slice_from.
  destruct (Z.ltb_spec (- - Z.of_nat d) 0); [lia|].
  set (others := filter (fun msg => negb (is_system msg)) history).
  destruct (Nat.le_gt_cases d (List.length others)) as [Hle|Hgt].
  - f_equal. lia.
  - rewrite !skipn_all2; [reflexivity | lia | lia].
Qed.

Lemma truncate_message_history_negative_witness :
  let q := mkMessage (s2l "request") None (s2l "hello") in
  let a := mkMessage (s2l "response") None (s2l "hi") in
  let h := [[q; a]] in
  let r := truncate_message_history h 0 (- Z.of_nat 1) in
  0 < List.length h /\ deref (fst r) (snd r) = [a].
Proof.
  intros q a h r.
  split; [simpl; lia|].
  refine (proj2 (@truncate_message_history_negative h 0 1 _ _));
    simpl; lia.
Defined.

End OrchestratorMore.

(** ** More on the indexing synchronizer *)

Module IndexerMore.
Import Indexer IndexerFacts.

Local Open Scope py_scope.

(** The statistics of a run and what it leaves behind, by the first of
    the four calls before marking that raises and by what marking
    returns. *)
Lemma index_run_stats (sp : str -> list str) (collection : str) (w : World) :
  let sel := filter (unindexed_in collection) (table w) in
  let n := List.length sel in
  let w4 := mkWorld (table w) (table w)
                    (vectors w ++ flat_map (nodes_of sp) (map webpage_data sel))
                    (S (clock w)) (skipn 4 (faults w)) in
  let marking :=
    mark_documents_as_indexed (map doc_id (map webpage_data sel)) w4 in
  let out := index_documents_by_collection sp collection w in
  exists stats,
    fst out = Ok stats /\
    session (snd out) = table (snd out) /\
    st_collection_id stats = collection /\
    st_start_time stats = clock w /\
    match sel, failure_within 4 (faults w) with
    | _, Some (0, e) =>
        status stats = s2l "failed" /\ st_error stats = Some e /\
        st_message stats = None /\
        documents_processed stats = 0 /\ documents_indexed stats = 0 /\
        table (snd out) = table w /\ vectors (snd out) = vectors w
    | [], _ =>
        status stats = s2l "completed" /\ st_error stats = None /\
        st_message stats = Some (s2l "No unindexed documents found") /\
        documents_processed stats = 0 /\ documents_indexed stats = 0 /\
        table (snd out) = table w /\ vectors (snd out) = vectors w
    | _ :: _, Some (S p, e) =>
        status stats = s2l "failed" /\ st_error stats = Some e /\
        st_message stats = None /\
        documents_processed stats = (if p =? 0 then 0 else n) /\
        documents_indexed stats = 0 /\
        table (snd out) = table w
    | _ :: _, None =>
        table (snd out) = table (snd marking) /\
        vectors (snd out) = vectors (snd marking) /\
        match fst marking with
        | Ok _ =>
            status stats = s2l "completed" /\ st_error stats = None /\
            st_message stats = None /\
            documents_processed stats = n /\ documents_indexed stats = n
        | Raise e =>
            status stats = s2l "failed" /\
            st_error stats = Some (str_of_exn e) /\
            st_message stats = None /\
            documents_processed stats = n /\ documents_indexed stats = 0
        end
    end.
Proof.
  intros sel n w4 marking out. subst out marking w4 n sel.
  destruct w as [t s v c fs].
  destruct fs as [|[|e0 g0] [|[|e1 g1] [|[|e2 g2] [|[|e3 g3] fs]]]];
    cbn [table vectors clock faults failure_within skipn];
    run_monad;
    destruct (filter (unindexed_in collection) t) as [|r rs];
    cbn [map]; run_monad;
    try (destruct (mark_documents_as_indexed _ _) as [[[]|e] w5]);
    cbn; (eexists; split; [reflexivity|]); cbn; rewrite ?length_map;
    repeat split; reflexivity.
Qed.

(** Marking the ids of the selected rows leaves none of them selected. *)
Lemma all_selected_marked (collection : str) (t : nat) (rows : list Webpage) :
  filter (unindexed_in collection)
         (marked t (map id (filter (unindexed_in collection) rows)) rows) = [].
Proof.
  rewrite select_after_marking. apply PiiFacts.filter_none.
  intros row Hin.
  destruct (unindexed_in collection row) eqn:E; [|reflexivity].
  simpl. apply negb_false_iff. unfold id_in. apply existsb_exists.
  exists (id row). split; [|apply Nat.eqb_refl].
  apply in_map. apply filter_In. auto.
Qed.

Lemma failed_not_completed : s2l "failed" <> s2l "completed".
Proof. discriminate. Qed.

(** A run that reports [completed]. *)
Lemma completed_run (sp : str -> list str) (collection : str) (w : World)
      (stats : Stats) :
  let sel := filter (unindexed_in collection) (table w) in
  let out := index_documents_by_collection sp collection w in
  fst out = Ok stats ->
  status stats = s2l "completed" ->
  filter (unindexed_in collection) (table (snd out)) = []
  /\ session (snd out) = table (snd out)
  /\ documents_processed stats = List.length sel
  /\ documents_indexed stats = List.length sel
  /\ st_error stats = None
  /\ table (snd out) = marked (S (clock w)) (map id sel) (table w)
  /\ vectors (snd out)
     = vectors w ++ flat_map (nodes_of sp) (map webpage_data sel).
Proof.
  intros sel out Hok Hst.
  pose proof (index_run_stats sp collection w) as R. cbn zeta in R.
  fold sel in R. fold out in R.
  destruct R as (stats' & Hok' & Hsess & _ & _ & H).
  rewrite Hok in Hok'. injection Hok' as <-.
  assert (Hno : status stats <> s2l "failed").
  { rewrite Hst. intros E. symmetry in E. revert E.
    exact failed_not_completed. }
  pose proof (all_selected_marked collection (S (clock w)) (table w)) as A.
  fold sel in A.
  clearbody sel out.
  destruct sel as [|r rs].
  - assert (H' : documents_processed stats = 0
                 /\ documents_indexed stats = 0 /\ st_error stats = None
                 /\ table (snd out) = table w /\ vectors (snd out) = vectors w).
    { destruct (failure_within 4 (faults w)) as [[[|p] e]|];
        destruct H as (H1 & H2 & H3 & H4 & H5 & H6 & H7);
        try (exfalso; apply Hno; exact H1); auto. }
    destruct H' as (H4 & H5 & H2 & H6 & H7).
    cbn [map flat_map] in *. rewrite marked_nil in *. rewrite app_nil_r.
    repeat split; auto. rewrite H6. exact A.
  - set (sel := r :: rs) in *.
    destruct (failure_within 4 (faults w)) as [[[|p] e]|];
      try (destruct H as (H1 & _); exfalso; apply Hno; exact H1).
    destruct H as (Ht & Hv & H).
    set (w4 := mkWorld (table w) (table w)
                 (vectors w ++ flat_map (nodes_of sp) (map webpage_data sel))
                 (S (clock w)) (skipn 4 (faults w))) in *.
    destruct (@mark_spec (map doc_id (map webpage_data sel)) w4 eq_refl)
      as (_ & Hv4 & M).
    destruct (failure_within _ (faults w4)) as [[p e]|]; destruct M as [Hr Hm];
      rewrite Hr in H;
      [destruct H as (H1 & _); exfalso; apply Hno; exact H1|].
    destruct H as (_ & He & _ & Hp & Hi).
    set (marking := mark_documents_as_indexed _ w4) in *.
    rewrite map_map in Hm. cbn [doc_id webpage_data] in Hm.
    cbn [clock table w4] in Hm.
    rewrite Ht, Hv, Hm, Hv4. cbn [vectors w4].
    repeat split; auto.
    rewrite <- Hm, <- Ht. exact Hsess.
Qed.

(** X12.  When a run reports [completed], whatever the calls before did:
    no row of the collection that has a content is left unindexed,
    nothing is pending in the session, no error is recorded, and both
    counters equal the number of rows that were selected. *)
Theorem completed_run_indexes_every_document
        (sentence_splitter : str -> list str) (collection : str) (w : World)
        (stats : Stats) :
  let out := index_documents_by_collection sentence_splitter collection w in
  fst out = Ok stats ->
  status stats = s2l "completed" ->
  (forall row,
      In row (table (snd out)) ->
      collection_id row = Some collection ->
      content_markdown row <> None ->
      is_indexed row = true)
  /\ session (snd out) = table (snd out)
  /\ st_error stats = None
  /\ documents_processed stats
     = List.length (filter (unindexed_in collection) (table w))
  /\ documents_indexed stats = documents_processed stats.
Proof.
  intros out Hok Hst.
  destruct (@completed_run sentence_splitter collection w stats Hok Hst)
    as (Hnone & Hs & Hp & Hi & He & _).
  fold out in Hnone, Hs.
  split; [|rewrite Hp, Hi; auto].
  intros row Hin Hc Hm.
  destruct (is_indexed row) eqn:E; [reflexivity|].
  assert (Hsel : In row (filter (unindexed_in collection) (table (snd out)))).
  { apply filter_In. split; [exact Hin|]. apply unindexed_in_iff. auto. }
  rewrite Hnone in Hsel. contradiction.
Qed.

Lemma completed_run_indexes_every_document_witness :
  let page := fun i coll =>
    mkWebpage i (s2l "https://www.example.go.ke/") None (Some (s2l "text"))
              (Some coll) None false None in
  let rows := [page 1 (s2l "kfc"); page 2 (s2l "brs"); page 3 (s2l "kfc")] in
  let w := mkWorld rows rows [] 0 [] in
  let out := index_documents_by_collection (fun t => [t]) (s2l "kfc") w in
  exists stats,
    fst out = Ok stats
    /\ status stats = s2l "completed"
    /\ documents_indexed stats = 2
    /\ session (snd out) = table (snd out).
Proof.
  intros page rows w out.
  set (stats := mkStats (s2l "kfc") 0 2 2 (s2l "completed") (Some 2)
                        None None).
  assert (Hok : fst out = Ok stats) by (vm_compute; reflexivity).
  exists stats. split; [exact Hok|]. split; [reflexivity|].
  destruct (@completed_run_indexes_every_document
              (fun t => [t]) (s2l "kfc") w stats Hok eq_refl)
    as (_ & Hs & _ & _ & _).
  split; [reflexivity | exact Hs].
Defined.

(** X13.  When the query, the set-up, the pipeline and the construction
    of the index return and marking raises at its [p]-th call, the run
    still returns: it reports [failed] with the message of the exception
    and not one indexed document, although the rows of the [p/2]
    sub-batches committed before stay marked and the vector store holds
    the nodes of every selected document. *)
Theorem marking_failure_reports_nothing_indexed
        (sentence_splitter : str -> list str) (collection : str) (w : World)
        (p : nat) (e : str) :
  let sel := filter (unindexed_in collection) (table w) in
  sel <> [] ->
  failure_within 4 (faults w) = None ->
  failure_within (2 * ((List.length sel + 99) / 100)) (skipn 4 (faults w))
  = Some (p, e) ->
  let out := index_documents_by_collection sentence_splitter collection w in
  exists stats,
    fst out = Ok stats
    /\ status stats = s2l "failed"
    /\ st_error stats = Some e
    /\ documents_processed stats = List.length sel
    /\ documents_indexed stats = 0
    /\ table (snd out)
       = marked (S (clock w)) (firstn (Nat.div2 p * 100) (map id sel))
                (table w)
    /\ session (snd out) = table (snd out)
    /\ vectors (snd out)
       = vectors w
         ++ flat_map (nodes_of sentence_splitter) (map webpage_data sel).
Proof.
  intros sel Hsel F4 Fm out.
  pose proof (index_run_stats sentence_splitter collection w) as R.
  cbn zeta in R. fold sel in R. fold out in R.
  destruct R as (stats & Hok & Hsess & _ & _ & H).
  exists stats. split; [exact Hok|].
  rewrite F4 in H. clearbody sel out.
  destruct sel as [|r rs]; [congruence|].
  set (sel := r :: rs) in *.
  destruct H as (Ht & Hv & H).
  set (w4 := mkWorld (table w) (table w)
               (vectors w
                ++ flat_map (nodes_of sentence_splitter)
                            (map webpage_data sel))
               (S (clock w)) (skipn 4 (faults w))) in *.
  destruct (@mark_spec (map doc_id (map webpage_data sel)) w4 eq_refl)
    as (_ & Hv4 & M).
  rewrite !length_map in M. cbn [faults w4] in M. rewrite Fm in M.
  destruct M as [Hr Hm]. rewrite Hr in H.
  destruct H as (H1 & H2 & _ & H4 & H5).
  set (marking := mark_documents_as_indexed _ w4) in *.
  rewrite map_map in Hm. cbn [doc_id webpage_data] in Hm.
  cbn [clock table w4] in Hm.
  rewrite Ht, Hv, Hm, Hv4. cbn [vectors w4].
  repeat split; auto.
  rewrite <- Hm, <- Ht. exact Hsess.
Qed.

Lemma marking_failure_reports_nothing_indexed_witness :
  let page := fun i =>
    mkWebpage i (s2l "https://www.example.go.ke/") None (Some (s2l "text"))
              (Some (s2l "kfc")) None false None in
  let rows := map page (seq 1 101) in
  let w := mkWorld rows rows [] 0
             [Works; Works; Works; Works; Works; Works;
              Fails (s2l "connection lost") 0] in
  let out := index_documents_by_collection (fun t => [t]) (s2l "kfc") w in
  exists stats,
    fst out = Ok stats
    /\ status stats = s2l "failed"
    /\ documents_indexed stats = 0
    /\ table (snd out) = marked 1 (seq 1 100) rows.
Proof.
  intros page rows w out.
  destruct (@marking_failure_reports_nothing_indexed
              (fun t => [t]) (s2l "kfc") w 2 (s2l "connection lost"))
    as (stats & Hok & Hst & _ & _ & Hi & Ht & _).
  - vm_compute. discriminate.
  - vm_compute. reflexivity.
  - vm_compute. reflexivity.
  - exists stats. split; [exact Hok|]. split; [exact Hst|].
    split; [exact Hi|]. fold out in Ht. rewrite Ht.
    vm_compute. reflexivity.
Defined.

(** X14.  When every external call either returns or raises an
    exception that derives from [Exception], a run returns statistics
    (the handler of the run catches each such exception) and leaves
    nothing pending in the session.  The
    statistics carry the collection and the start time; the status is
    [completed] or [failed], and [failed] exactly when an error is
    recorded; the documents processed are none or all the selected
    ones; the documents indexed are none, or all the selected ones in a
    run that completed; a message is only given when nothing was
    selected. *)
Theorem index_documents_by_collection_stats
        (sentence_splitter : str -> list str) (collection : str) (w : World) :
  let n := List.length (filter (unindexed_in collection) (table w)) in
  let out := index_documents_by_collection sentence_splitter collection w in
  exists stats,
    fst out = Ok stats
    /\ session (snd out) = table (snd out)
    /\ st_collection_id stats = collection
    /\ st_start_time stats = clock w
    /\ (status stats = s2l "completed" \/ status stats = s2l "failed")
    /\ (status stats = s2l "failed" <-> st_error stats <> None)
    /\ (documents_processed stats = 0 \/ documents_processed stats = n)
    /\ (documents_indexed stats = 0
        \/ (documents_indexed stats = n /\ status stats = s2l "completed"))
    /\ (st_message stats <> None ->
        n = 0 /\ status stats = s2l "completed").
Proof.
  intros n out.
  pose proof (index_run_stats sentence_splitter collection w) as R.
  cbn zeta in R. fold out in R.
  destruct R as (stats & Hok & Hsess & Hc & Hstart & H).
  exists stats.
  split; [exact Hok|]. split; [exact Hsess|]. split; [exact Hc|].
  split; [exact Hstart|].
  subst n. clearbody out.
  assert (Hshape :
            forall m,
              (status stats = s2l "completed" /\ st_error stats = None
               /\ (st_message stats <> None -> m = 0)
               /\ (documents_indexed stats = 0 \/ documents_indexed stats = m)
               \/ (exists e, status stats = s2l "failed"
                             /\ st_error stats = Some e)
                  /\ st_message stats = None
                  /\ documents_indexed stats = 0) ->
              (documents_processed stats = 0
               \/ documents_processed stats = m) ->
              (status stats = s2l "completed"
               \/ status stats = s2l "failed")
              /\ (status stats = s2l "failed" <-> st_error stats <> None)
              /\ (documents_processed stats = 0
                  \/ documents_processed stats = m)
              /\ (documents_indexed stats = 0
                  \/ (documents_indexed stats = m
                      /\ status stats = s2l "completed"))
              /\ (st_message stats <> None ->
                  m = 0 /\ status stats = s2l "completed")).
  { intros m [(H1 & H2 & H3 & H4)|((e & H1 & H2) & H3 & H4)] Hp.
    - split; [left; exact H1|]. split.
      { rewrite H1, H2. split; [discriminate | congruence]. }
      split; [exact Hp|]. split.
      { destruct H4 as [H4|H4]; [left; exact H4 | right; auto]. }
      intros Hm. auto.
    - split; [right; exact H1|]. split.
      { rewrite H2. split; [discriminate | intros _; exact H1]. }
      split; [exact Hp|]. split; [left; exact H4|].
      intros Hm. congruence. }
  apply Hshape; clear Hshape;
    destruct (filter (unindexed_in collection) (table w)) as [|r rs];
    destruct (failure_within 4 (faults w)) as [[[|p] e]|];
    try (destruct H as (_ & _ & H);
         destruct (fst (mark_documents_as_indexed _ _)) as [u|e]);
    destruct H as (H1 & H2 & H3 & H4 & H5);
    first
      [ right; split; [eexists; split; [exact H1 | exact H2]|];
        split; [exact H3|]; first [exact H5 | exact (proj1 H5)]
      | left; split; [exact H1|]; split; [exact H2|];
        split; [intros; first [reflexivity | congruence]|];
        first [left; exact H5 | left; exact (proj1 H5) | right; exact H5]
      | left; exact H4
      | right; exact H4
      | rewrite H4; destruct (p =? 0); [left | right]; reflexivity ].
Qed.

Lemma first_call_works (n : nat) (fs : list outcome) :
  failure_within 1 fs = None ->
  failure_within (S n) fs = None
  \/ exists p e, failure_within (S n) fs = Some (S p, e).
Proof.
  destruct fs as [|[|e g] fs]; simpl; intros F; try discriminate.
  - left. reflexivity.
  - destruct (failure_within n fs) as [[p e]|]; eauto.
Qed.

(** X15.  After a run that reported [completed], a second run whose
    query returns finds nothing to do: it reports [completed] with the
    message [No unindexed documents found] and no document processed,
    and it changes neither the table nor the vector store. *)
Theorem index_documents_by_collection_again
        (sentence_splitter : str -> list str) (collection : str) (w : World)
        (stats : Stats) :
  let out := index_documents_by_collection sentence_splitter collection w in
  fst out = Ok stats ->
  status stats = s2l "completed" ->
  failure_within 1 (faults (snd out)) = None ->
  let again :=
    index_documents_by_collection sentence_splitter collection (snd out) in
  exists stats',
    fst again = Ok stats'
    /\ status stats' = s2l "completed"
    /\ st_message stats' = Some (s2l "No unindexed documents found")
    /\ documents_processed stats' = 0
    /\ documents_indexed stats' = 0
    /\ table (snd again) = table (snd out)
    /\ vectors (snd again) = vectors (snd out).
Proof.
  intros out Hok Hst F again.
  destruct (@completed_run sentence_splitter collection w stats Hok Hst)
    as (Hnone & _).
  fold out in Hnone.
  pose proof (index_run_stats sentence_splitter collection (snd out)) as R.
  cbn zeta in R. fold again in R.
  destruct R as (stats' & Hok' & _ & _ & _ & H).
  exists stats'. split; [exact Hok'|].
  rewrite Hnone in H. clearbody again out.
  destruct (@first_call_works 3 (faults (snd out)) F) as [E|(p & e & E)];
    rewrite E in H; decompose [and] H; auto 10.
Qed.

Lemma index_documents_by_collection_again_witness :
  let page := fun i coll =>
    mkWebpage i (s2l "https://www.example.go.ke/") None (Some (s2l "text"))
              (Some coll) None false None in
  let rows := [page 1 (s2l "kfc"); page 2 (s2l "brs"); page 3 (s2l "kfc")] in
  let w := mkWorld rows rows [] 0 [] in
  let out := index_documents_by_collection (fun t => [t]) (s2l "kfc") w in
  let again :=
    index_documents_by_collection (fun t => [t]) (s2l "kfc") (snd out) in
  exists stats',
    fst again = Ok stats'
    /\ documents_processed stats' = 0
    /\ table (snd again) = table (snd out)
    /\ vectors (snd again) = vectors (snd out).
Proof.
  intros page rows w out again.
  set (stats := mkStats (s2l "kfc") 0 2 2 (s2l "completed") (Some 2)
                        None None).
  assert (Hok : fst out = Ok stats) by (vm_compute; reflexivity).
  assert (F : failure_within 1 (faults (snd out)) = None)
    by (vm_compute; reflexivity).
  destruct (@index_documents_by_collection_again
              (fun t => [t]) (s2l "kfc") w stats Hok eq_refl F)
    as (stats' & Hok' & _ & _ & Hp & _ & Ht & Hv).
  exists stats'. split; [exact Hok'|]. split; [exact Hp|].
  split; [exact Ht | exact Hv].
Defined.

End IndexerMore.

(** ** More on the chat endpoints *)

Module ChatMore.
Import Orchestrator ChatEndpoints ChatFacts.

(** The history that [process_chat] hands to the agent when the stored
    one has more than twenty messages. *)
Lemma truncated_history (history : list ModelMessage) :
  (let (h, r) := truncate_message_history [history] 0 20 in deref h r)
  = truncated history 20.
Proof.
  destruct (@OrchestratorMore.truncate_content [history] 0 20) as (H & _);
    [simpl; lia|].
  cbn [deref nth] in H. rewrite <- H.
  destruct (truncate_message_history [history] 0 20). reflexivity.
Qed.

Lemma truncated_short (history : list ModelMessage) :
  (20 <? List.length history) = false -> truncated history 20 = history.
Proof.
  intros H. apply Nat.ltb_ge in H. unfold truncated.
  replace (Z.of_nat (List.length history) <=? 20)%Z with true; [reflexivity|].
  symmetry. apply Z.leb_le. lia.
Qed.

(** X16.  A request without a session id, or with the empty string as
    session id, starts a new session: when [create_chat_session]
    returns an id that no stored session has, saving and the agent
    work, and the sources of the agent's output are dictionaries of
    strings, the agent runs without any history, all messages of the
    run are saved in the session of that id, and the answer carries
    that id, and as trace id the identifier [process_chat] drew at its
    start. *)
Theorem process_chat_new_session
        (validation_error : list Source -> str)
        (request : ChatRequest) (w w1 : ChatWorld) (sid : str)
        (res : AgentRunResult) (validated : list (list (str * str))) :
  session_id request = None \/ session_id request = Some [] ->
  create_chat_session (user_id request) (snd (uuid4 w)) = (Ok sid, w1) ->
  find (has_id sid) (chats w) = None ->
  failure_within 1 (storage_faults w1) = None ->
  agent w None (message request) = Ok res ->
  validate_sources (sources (output res)) = Some validated ->
  let out := process_chat validation_error request w in
  fst out =
  Ok (mkChatResponse sid (answer (output res)) validated
        (confidence (output res)) (retriever_type (output res))
        (Some (uuid_source w (uuid_count w))))
  /\ chats (snd out) =
     chats w ++ [mkChat sid (user_id request) (all_messages res)].
Proof.
  destruct w as [cs us uc fs ag].
  destruct request as [msg rsid usr meta].
  cbv beta iota delta [uuid_source uuid_count chats user_id session_id
                       message agent].
  intros Hsid Hcreate Hnew Hio Hagent Hvalid out. subst out.
  assert (Hc : sid = us (S uc)
               /\ storage_faults w1 = tl fs
               /\ failure_within 1 fs = None).
  { destruct fs as [|[|e0 g0] fs];
      cbv beta iota zeta delta
          [create_chat_session bind modify ret await_storage uuid4 set_chats
           snd fst chats uuid_source uuid_count storage_faults agent]
        in Hcreate;
      try discriminate; injection Hcreate as <- <-; auto. }
  destruct Hc as (-> & Hfs & Hfirst). rewrite Hfs in Hio. clear Hcreate Hfs.
  set (sid := us (S uc)) in *.
  assert (Hfresh : find (has_id sid) (cs ++ [mkChat sid usr []])
                   = Some (mkChat sid usr [])).
  { rewrite find_app_none by exact Hnew. cbn [find].
    unfold has_id at 1. cbn [chat_session_id]. rewrite str_eqb_refl.
    reflexivity. }
  assert (Hsaved : map (fun c =>
                          if has_id sid c then
                            mkChat (chat_session_id c) (chat_user_id c)
                                   (chat_messages c ++ all_messages res)
                          else c)
                       (cs ++ [mkChat sid usr []])
                   = cs ++ [mkChat sid usr (all_messages res)]).
  { rewrite map_app, map_if_none by exact Hnew. cbn [map].
    unfold has_id at 1. cbn [chat_session_id chat_user_id chat_messages].
    rewrite str_eqb_refl. reflexivity. }
  destruct Hsid as [-> | ->];
    destruct fs as [|[|e0 g0] [|[|e1 g1] fs]];
    cbn in Hio, Hfirst; try discriminate;
    run_chat; fold sid; rewrite ?Hagent; run_chat; fold sid;
    rewrite ?Hfresh; run_chat; fold sid; rewrite ?Hsaved, ?Hvalid;
    split; reflexivity.
Qed.

Lemma process_chat_new_session_witness :
  let hello := mkMessage (s2l "request") None (s2l "Hello") in
  let reply := mkMessage (s2l "response") None (s2l "Karibu") in
  let sys := mkMessage (s2l "system") None (s2l "instructions") in
  let source := [(s2l "title", s2l "Fees")] in
  let res := mkAgentRunResult
               (mkOutput (s2l "Karibu") [StrDict source] 1 (s2l "none"))
               [sys; hello; reply] [hello; reply] in
  let request := mkChatRequest (s2l "Hello") (Some (s2l "")) None None in
  let w := mkChatWorld []
             (fun n => if n =? 0 then s2l "trace-1" else s2l "session-1")
             0 [] (fun _ _ => Ok res) in
  let out := process_chat (fun _ => s2l "validation error") request w in
  fst out =
  Ok (mkChatResponse (s2l "session-1") (s2l "Karibu") [source] 1 (s2l "none")
        (Some (s2l "trace-1")))
  /\ chats (snd out) = [mkChat (s2l "session-1") None [sys; hello; reply]].
Proof.
  intros hello reply sys source res request w out.
  refine (@process_chat_new_session
            (fun _ => s2l "validation error") request w _ _ res [source]
            (or_intror eq_refl) eq_refl eq_refl eq_refl eq_refl eq_refl).
Defined.

(** X17.  A request that names a stored session continues it: when
    storage and agent work, the agent runs on the stored history cut to
    the system messages and the twenty most recent other messages (on
    all of it when it has at most twenty messages, and without any
    history when the session is empty), only the new messages of the
    run are appended to the session and what was stored before stays;
    when the sources of the agent's output are dictionaries of strings,
    the answer carries the session id of the request. *)
Theorem process_chat_existing_session
        (validation_error : list Source -> str)
        (request : ChatRequest) (sid : str) (w : ChatWorld) (c : Chat)
        (res : AgentRunResult) (validated : list (list (str * str))) :
  session_id request = Some sid ->
  sid <> [] ->
  find (has_id sid) (chats w) = Some c ->
  failure_within 3 (storage_faults w) = None ->
  agent w
        (match chat_messages c with
         | [] => None
         | _ :: _ => Some (truncated (chat_messages c) 20)
         end)
        (message request) = Ok res ->
  validate_sources (sources (output res)) = Some validated ->
  let out := process_chat validation_error request w in
  fst out =
  Ok (mkChatResponse sid (answer (output res)) validated
        (confidence (output res)) (retriever_type (output res))
        (Some (uuid_source w (uuid_count w))))
  /\ chats (snd out) =
     map (fun c' =>
            if has_id sid c' then
              mkChat (chat_session_id c') (chat_user_id c')
                     (chat_messages c' ++ new_messages res)
            else c')
         (chats w).
Proof.
  intros Hsid Hne Hfind Hio Hagent Hvalid out. subst out.
  destruct request as [msg rsid usr meta]. cbn in Hsid, Hagent. subst rsid.
  destruct sid as [|c0 sid0]; [congruence|].
  set (sid := c0 :: sid0) in *.
  destruct w as [cs us uc fs ag]. cbn in Hfind, Hagent.
  cbv beta iota delta [uuid_source uuid_count chats].
  destruct (chat_messages c) as [|m history] eqn:Hc.
  - destruct fs as [|[|e0 g0] [|[|e1 g1] [|[|e2 g2] fs]]];
      cbn in Hio; try discriminate;
      unfold sid; run_chat; fold sid;
      rewrite ?Hfind; run_chat; fold sid;
      rewrite ?Hfind, ?Hc; run_chat; fold sid;
      rewrite ?Hagent; run_chat; fold sid;
      rewrite ?Hfind; run_chat; rewrite ?Hvalid; split; reflexivity.
  - assert (Hh : (if 20 <? List.length (m :: history)
                  then let (h, r) :=
                         truncate_message_history [m :: history] 0 20 in
                       deref h r
                  else m :: history)
                 = truncated (m :: history) 20).
    { destruct (20 <? List.length (m :: history)) eqn:E.
      - apply truncated_history.
      - symmetry. apply truncated_short. exact E. }
    set (hist := m :: history) in *.
    destruct fs as [|[|e0 g0] [|[|e1 g1] [|[|e2 g2] fs]]];
      cbn in Hio; try discriminate;
      unfold sid; run_chat; fold sid;
      rewrite ?Hfind; run_chat; fold sid;
      rewrite ?Hfind, ?Hc; unfold hist; run_chat; fold sid; fold hist;
      rewrite ?Hh, ?Hagent; run_chat; fold sid;
      rewrite ?Hfind; run_chat; rewrite ?Hvalid; split; reflexivity.
Qed.

Lemma process_chat_existing_session_witness :
  let sys := mkMessage (s2l "system") None (s2l "instructions") in
  let hello := mkMessage (s2l "request") None (s2l "Hello") in
  let reply := mkMessage (s2l "response") None (s2l "Karibu") in
  let stored := sys :: repeat hello 11 ++ repeat reply 11 in
  let res := mkAgentRunResult
               (mkOutput (s2l "Karibu") [] 1 (s2l "none"))
               (stored ++ [hello; reply]) [hello; reply] in
  let request := mkChatRequest (s2l "Hello") (Some (s2l "abc-123")) None None in
  let w := mkChatWorld [mkChat (s2l "abc-123") None stored]
             (fun _ => s2l "trace-1") 0 []
             (fun history _ =>
                match history with
                | Some l =>
                    if List.length l =? 21 then Ok res
                    else Raise (Exception (s2l "context too long"))
                | None => Raise (Exception (s2l "no context"))
                end) in
  let out := process_chat (fun _ => s2l "validation error") request w in
  fst out =
  Ok (mkChatResponse (s2l "abc-123") (s2l "Karibu") [] 1 (s2l "none")
        (Some (s2l "trace-1")))
  /\ chats (snd out) =
     [mkChat (s2l "abc-123") None (stored ++ [hello; reply])].
Proof.
  intros sys hello reply stored res request w out.
  refine (@process_chat_existing_session
            (fun _ => s2l "validation error")
            request (s2l "abc-123") w (mkChat (s2l "abc-123") None stored) res
            [] eq_refl _ eq_refl eq_refl _ eq_refl).
  - discriminate.
  - vm_compute. reflexivity.
Defined.

(** X18.  When the agent raises in a new session, the endpoint answers
    with status 500 and the text of the exception after
    [Internal server error: ]; the session that was created before the
    agent ran stays stored, empty. *)
Theorem process_chat_agent_failure
        (validation_error : list Source -> str)
        (request : ChatRequest) (w : ChatWorld) (msg : str) :
  truthy (session_id request) = false ->
  failure_within 1 (storage_faults w) = None ->
  agent w None (message request) = Raise (Exception msg) ->
  let out := process_chat validation_error request w in
  fst out = Raise (HTTPException 500 (s2l "Internal server error: " ++ msg))
  /\ chats (snd out) =
     chats w ++ [mkChat (uuid_source w (S (uuid_count w))) (user_id request)
                        []].
Proof.
  intros Hsid Hio Hagent out. subst out.
  destruct request as [text rsid usr meta]. cbn in Hsid, Hagent.
  destruct w as [cs us uc fs ag]. cbn in Hagent.
  cbv beta iota delta [uuid_source uuid_count chats].
  destruct rsid as [[|c0 sid0]|]; try discriminate;
    destruct fs as [|[|e0 g0] fs];
    cbn in Hio; try discriminate;
    run_chat; rewrite ?Hagent; run_chat; split; reflexivity.
Qed.

Lemma process_chat_agent_failure_witness :
  let request := mkChatRequest (s2l "Hello") None (Some (s2l "amina")) None in
  let w := mkChatWorld []
             (fun n => if n =? 0 then s2l "trace-1" else s2l "session-1")
             0 [] (fun _ _ => Raise (Exception (s2l "model overloaded"))) in
  let out := process_chat (fun _ => s2l "validation error") request w in
  fst out =
  Raise (HTTPException 500 (s2l "Internal server error: model overloaded"))
  /\ chats (snd out) =
     [mkChat (s2l "session-1") (Some (s2l "amina")) []].
Proof.
  intros request w out.
  apply (@process_chat_agent_failure
           (fun _ => s2l "validation error") request w
           (s2l "model overloaded"));
    reflexivity.
Defined.

(** X19.  A storage failure is reported differently by where it
    happens.  When the first storage call raises (the creation or the
    look-up of the session, before the [try]), the exception leaves
    [process_chat] as it is, not as an [HTTPException], and no session
    is stored or changed.  When in a new session the creation works and
    saving raises, the answer is status 500 with the text of the
    exception, and the new session stays stored, empty. *)
Theorem process_chat_storage_failure
        (validation_error : list Source -> str)
        (request : ChatRequest) (w : ChatWorld) (e : str) (res : AgentRunResult) :
  (failure_within 1 (storage_faults w) = Some (0, e) ->
   let out := process_chat validation_error request w in
   fst out = Raise (Exception e) /\ chats (snd out) = chats w)
  /\ (truthy (session_id request) = false ->
      failure_within 2 (storage_faults w) = Some (1, e) ->
      agent w None (message request) = Ok res ->
      let out := process_chat validation_error request w in
      fst out =
      Raise (HTTPException 500 (s2l "Internal server error: " ++ e))
      /\ chats (snd out) =
         chats w ++ [mkChat (uuid_source w (S (uuid_count w)))
                            (user_id request) []]).
Proof.
  destruct request as [text rsid usr meta].
  destruct w as [cs us uc fs ag].
  cbv beta iota delta [uuid_source uuid_count chats storage_faults agent
                       session_id message user_id].
  split.
  - intros Hio out. subst out.
    destruct fs as [|[|e0 g0] fs]; cbn in Hio; try discriminate.
    injection Hio as <-.
    destruct rsid as [[|c0 sid0]|]; run_chat; split; reflexivity.
  - intros Hsid Hio Hagent out. subst out.
    destruct rsid as [[|c0 sid0]|]; try discriminate;
      destruct fs as [|[|e0 g0] [|[|e1 g1] fs]];
      cbn in Hio; try discriminate; injection Hio as <-;
      run_chat; rewrite ?Hagent; run_chat; split; reflexivity.
Qed.

Lemma process_chat_storage_failure_witness :
  let hello := mkMessage (s2l "request") None (s2l "Hello") in
  let res := mkAgentRunResult
               (mkOutput (s2l "Karibu") [] 1 (s2l "none")) [hello] [hello] in
  let request := mkChatRequest (s2l "Hello") None None None in
  let w := fun faults =>
             mkChatWorld []
               (fun n => if n =? 0 then s2l "trace-1" else s2l "session-1")
               0 faults (fun _ _ => Ok res) in
  let process := process_chat (fun _ => s2l "validation error") request in
  fst (process (w [Fails (s2l "connection lost") 0]))
  = Raise (Exception (s2l "connection lost"))
  /\ fst (process (w [Works; Fails (s2l "connection lost") 0]))
     = Raise (HTTPException 500
                (s2l "Internal server error: connection lost")).
Proof.
  intros hello res request w process.
  split.
  - apply (proj1 (@process_chat_storage_failure
                    (fun _ => s2l "validation error")
                    request (w [Fails (s2l "connection lost") 0])
                    (s2l "connection lost") res)).
    reflexivity.
  - apply (proj2 (@process_chat_storage_failure
                    (fun _ => s2l "validation error")
                    request (w [Works; Fails (s2l "connection lost") 0])
                    (s2l "connection lost") res)); reflexivity.
Defined.

Ltac run_history :=
  cbv beta iota zeta delta
      [get_chat_history try_except bind get ret raise await_storage uuid4
       get_chat_by_session_id fst snd chats uuid_source uuid_count
       storage_faults agent].

(** X20.  [get_chat_history] only reads: it leaves the stored sessions
    as they are.  When it raises, the status is 404 or 500 and nothing
    else, and it is 404, with the session id in the detail, exactly
    when the look-up returned and found no session of that id: here the
    404 raised inside the [try] does reach the caller. *)
Theorem get_chat_history_errors
        (Json : Type) (json_loads : str -> option Json) (sid : str)
        (w : ChatWorld) :
  let out := get_chat_history json_loads sid w in
  chats (snd out) = chats w
  /\ (forall e,
         fst out = Raise e ->
         e = HTTPException 404
               (s2l "Chat session " ++ sid ++ s2l " not found")
         \/ exists detail,
             e = HTTPException 500 (s2l "Internal server error: " ++ detail))
  /\ (fst out
      = Raise (HTTPException 404
                 (s2l "Chat session " ++ sid ++ s2l " not found"))
      <-> failure_within 1 (storage_faults w) = None
          /\ find (has_id sid) (chats w) = None).
Proof.
  intros out. subst out. destruct w as [cs us uc fs ag].
  cbv beta iota delta [chats storage_faults].
  assert (Hwork :
            forall fs',
              (fs = [] /\ fs' = [] \/ fs = Works :: fs') ->
              let out := get_chat_history json_loads sid
                           (mkChatWorld cs us uc fs ag) in
              chats (snd out) = cs
              /\ match find (has_id sid) cs with
                 | Some _ => exists r, fst out = Ok r
                 | None =>
                     fst out
                     = Raise (HTTPException 404
                                (s2l "Chat session " ++ sid
                                 ++ s2l " not found"))
                 end).
  { intros fs' [[-> ->]| ->]; run_history;
      destruct (find (has_id sid) cs) as [c|]; run_history;
      split; eauto. }
  destruct fs as [|[|e0 g0] fs]; cbn [failure_within].
  - destruct (Hwork [] (or_introl (conj eq_refl eq_refl))) as [Hc H].
    split; [exact Hc|].
    destruct (find (has_id sid) cs) as [c|].
    + destruct H as [r ->]. split; [intros e E; discriminate E|].
      split; [intros E; discriminate E | intros [_ B]; discriminate B].
    + rewrite H. split; [intros e E; injection E as <-; left; reflexivity|].
      split; auto.
  - destruct (Hwork fs (or_intror eq_refl)) as [Hc H].
    split; [exact Hc|].
    destruct (find (has_id sid) cs) as [c|].
    + destruct H as [r ->]. split; [intros e E; discriminate E|].
      split; [intros E; discriminate E | intros [_ B]; discriminate B].
    + rewrite H. split; [intros e E; injection E as <-; left; reflexivity|].
      split; auto.
  - run_history. split; [reflexivity|].
    split; [intros e E; injection E as <-; right; eexists; reflexivity|].
    split; [intros E; discriminate E | intros [A _]; discriminate A].
Qed.



End ChatMore.

(** ** Text extraction and collection statistics *)

Module ExtractionFacts.
Import Indexer IndexerFacts.

Local Open Scope py_scope.

(** The rows that the query of [extract_texts_by_collection] selects
    when the clock reads [now_]; a window that [datetime] cannot compute
    raises before the query is made. *)
Lemma extract_run (hour : nat) (overflow_error : Z -> str) (collection : str)
      (hours_ago : option Z) (include_title include_url : bool) (w : World) :
  let out := extract_texts_by_collection hour overflow_error collection
                                         hours_ago include_title include_url
                                         w in
  let query :=
    match hours_ago with
    | Some h =>
        fun row =>
          in_collection collection row
          && crawled_since (Z.of_nat (clock w) - h * Z.of_nat hour) row
    | None => in_collection collection
    end in
  table (snd out) = table w /\ session (snd out) = session w
  /\ vectors (snd out) = vectors w
  /\ (window_fits hour hours_ago w = true ->
      match failure_within 1 (faults w) with
      | Some (_, e) => fst out = Raise (Exception e)
      | None =>
          fst out
          = Ok (map (item_of include_title include_url)
                    (filter (fun row => not_empty (content_markdown row))
                            (filter query (session w))))
      end)
  /\ (forall h,
         hours_ago = Some h -> window_fits hour hours_ago w = false ->
         fst out = Raise (Exception (overflow_error h))
         /\ faults (snd out) = faults w).
Proof.
  intros out query. subst out query.
  destruct w as [t s v c fs].
  destruct hours_ago as [h|].
  - unfold window_fits, extract_texts_by_collection, try_except, bind, now.
    cbn [clock table session vectors faults].
    destruct (timedelta_fits h
              && datetime_fits hour (Z.of_nat c - h * Z.of_nat hour)).
    + destruct fs as [|[|e g] fs];
        (split; [reflexivity|]); (split; [reflexivity|]);
        (split; [reflexivity|]);
        (split; [intros _; reflexivity | intros h0 _ E; discriminate E]).
    + split; [reflexivity|]. split; [reflexivity|]. split; [reflexivity|].
      split; [intros E; discriminate E|].
      intros h0 E _. injection E as <-. split; reflexivity.
  - destruct fs as [|[|e g] fs];
      (split; [reflexivity|]); (split; [reflexivity|]);
      (split; [reflexivity|]);
      (split; [intros _; reflexivity | intros h0 E; discriminate E]).
Qed.

Lemma not_empty_some (s : option str) :
  not_empty s = true -> exists c t, s = Some (c :: t).
Proof. destruct s as [[|c t]|]; try discriminate. eauto. Qed.

(** X22.  [extract_texts_by_collection] only reads.  Every dictionary
    it returns comes from a row of the collection: it has the id, the
    content and the crawl time of the row, the content is not empty, a
    title is only there when asked for and then it is the non-empty
    title of the row, the url is there exactly when asked for, and
    under a time window the row was crawled, at or after the
    threshold. *)
Theorem extract_texts_by_collection_items
        (hour : nat) (overflow_error : Z -> str) (collection : str)
        (hours_ago : option Z) (include_title include_url : bool)
        (w : World) (texts : list Item) :
  let out := extract_texts_by_collection hour overflow_error collection
                                         hours_ago include_title include_url
                                         w in
  fst out = Ok texts ->
  table (snd out) = table w /\ session (snd out) = session w
  /\ vectors (snd out) = vectors w
  /\ forall item,
      In item texts ->
      item_content item <> []
      /\ (forall t, item_title item = Some t ->
                    t <> [] /\ include_title = true)
      /\ (item_url item <> None <-> include_url = true)
      /\ exists row,
          In row (session w)
          /\ collection_id row = Some collection
          /\ item_id item = id row
          /\ content_markdown row = Some (item_content item)
          /\ item_last_crawled item = last_crawled row
          /\ (forall t, item_title item = Some t -> title row = Some t)
          /\ (forall u, item_url item = Some u -> u = url row)
          /\ (forall h, hours_ago = Some h ->
              exists t, last_crawled row = Some t
                        /\ (Z.of_nat (clock w) - h * Z.of_nat hour
                            <= Z.of_nat t)%Z).
Proof.
  intros out Hok.
  destruct (extract_run hour overflow_error collection hours_ago
                        include_title include_url w)
    as (Ht & Hs & Hv & H & Hover).
  fold out in Ht, Hs, Hv, H, Hover.
  split; [exact Ht|]. split; [exact Hs|]. split; [exact Hv|].
  destruct (window_fits hour hours_ago w) eqn:Hfits.
  2:{ destruct hours_ago as [h|]; [|discriminate].
      destruct (Hover h eq_refl eq_refl) as [E _]. congruence. }
  specialize (H eq_refl).
  destruct (failure_within 1 (faults w)) as [[p e]|]; [congruence|].
  rewrite Hok in H. injection H as ->.
  intros item Hin. apply in_map_iff in Hin. destruct Hin as (row & <- & Hin).
  apply filter_In in Hin. destruct Hin as [Hin Hc].
  apply filter_In in Hin. destruct Hin as [Hin Hq].
  apply not_empty_some in Hc. destruct Hc as (c & t & Hc).
  unfold item_of. cbn [item_title item_url item_content item_id
                       item_last_crawled].
  rewrite Hc. cbn [get_or].
  split; [discriminate|]. split.
  { intros t0. destruct include_title; [|discriminate].
    destruct (title row) as [[|c0 t1]|]; cbn; try discriminate.
    intros E. injection E as <-. split; [discriminate | reflexivity]. }
  split.
  { destruct include_url; split; congruence. }
  exists row. split; [exact Hin|].
  assert (Hcoll : in_collection collection row = true).
  { destruct hours_ago; [apply andb_true_iff in Hq; apply Hq | exact Hq]. }
  split.
  { unfold in_collection, sql_eq in Hcoll.
    destruct (collection_id row) as [c1|]; [|discriminate].
    apply str_eqb_eq in Hcoll. congruence. }
  split; [reflexivity|]. split; [exact Hc|]. split; [reflexivity|].
  split.
  { intros t0. destruct (include_title && not_empty (title row));
      [auto | discriminate]. }
  split.
  { intros u. destruct include_url; congruence. }
  intros h ->. apply andb_true_iff in Hq. destruct Hq as [_ Hq].
  unfold crawled_since in Hq.
  destruct (last_crawled row) as [t0|]; [|discriminate].
  exists t0. split; [reflexivity|]. apply Z.leb_le. exact Hq.
Qed.

Lemma extract_texts_by_collection_items_witness :
  let page := fun i title content crawled =>
    mkWebpage i (s2l "https://www.example.go.ke/") title content
              (Some (s2l "kfc")) crawled false None in
  let rows := [page 1 (Some (s2l "Home")) (Some (s2l "text")) (Some 250);
               page 2 None (Some (s2l "")) (Some 290);
               page 3 None (Some (s2l "old")) (Some 10)] in
  let w := mkWorld rows rows [] 300 [] in
  let out := extract_texts_by_collection 10 (fun _ => s2l "overflow")
                                         (s2l "kfc") (Some 24%Z)
                                         true false w in
  fst out = Ok [mkItem (Some (s2l "Home")) None (s2l "text") 1 (Some 250)]
  /\ session (snd out) = session w.
Proof.
  intros page rows w out.
  assert (Hok : fst out
                = Ok [mkItem (Some (s2l "Home")) None (s2l "text") 1
                             (Some 250)])
    by (vm_compute; reflexivity).
  split; [exact Hok|].
  exact (proj1 (proj2 (@extract_texts_by_collection_items
                         10 (fun _ => s2l "overflow") (s2l "kfc")
                         (Some 24%Z) true false w _ Hok))).
Defined.

(** The rows behind the dictionaries of a run whose query returns. *)
Lemma extract_rows (hour : nat) (overflow_error : Z -> str)
      (collection : str) (hours_ago : option Z)
      (include_title include_url : bool) (w : World) :
  window_fits hour hours_ago w = true ->
  failure_within 1 (faults w) = None ->
  fst (extract_texts_by_collection hour overflow_error collection hours_ago
                                   include_title include_url w)
  = Ok (map (item_of include_title include_url)
            (extracted hour collection hours_ago w)).
Proof.
  intros Hfits Hio.
  destruct (extract_run hour overflow_error collection hours_ago
                        include_title include_url w)
    as (_ & _ & _ & H & _).
  specialize (H Hfits).
  rewrite Hio in H. rewrite H. unfold extracted. do 3 f_equal.
  destruct hours_ago as [h|]; [reflexivity|].
  apply filter_ext. intros row. rewrite andb_true_r. reflexivity.
Qed.

Lemma in_extracted (hour : nat) (collection : str) (hours_ago : option Z)
      (w : World) (row : Webpage) :
  In row (extracted hour collection hours_ago w) <->
  In row (session w)
  /\ in_collection collection row = true
  /\ not_empty (content_markdown row) = true
  /\ match hours_ago with
     | Some h =>
         crawled_since (Z.of_nat (clock w) - h * Z.of_nat hour) row = true
     | None => True
     end.
Proof.
  unfold extracted. rewrite !filter_In, andb_true_iff.
  destruct hours_ago; intuition.
Qed.

(** X23.  For windows whose threshold [datetime] can compute, a wider
    window returns more: the rows that a window of [h1] hours returns, a
    window of [h2 >= h1] hours returns too, and no window at all returns
    all of those; a row that was never crawled is returned only when no
    window is given. *)
Theorem extract_texts_by_collection_window
        (hour : nat) (overflow_error : Z -> str) (collection : str)
        (h1 h2 : Z) (include_title include_url : bool) (w : World) :
  (h1 <= h2)%Z ->
  window_fits hour (Some h1) w = true ->
  window_fits hour (Some h2) w = true ->
  failure_within 1 (faults w) = None ->
  let run := fun hours_ago =>
    fst (extract_texts_by_collection hour overflow_error collection hours_ago
                                     include_title include_url w) in
  exists rows1 rows2 rows,
    run (Some h1) = Ok (map (item_of include_title include_url) rows1)
    /\ run (Some h2) = Ok (map (item_of include_title include_url) rows2)
    /\ run None = Ok (map (item_of include_title include_url) rows)
    /\ incl rows1 rows2 /\ incl rows2 rows
    /\ (forall row, In row rows -> last_crawled row = None ->
                    ~ In row rows2).
Proof.
  intros Hh Hfits1 Hfits2 Hio run. subst run.
  exists (extracted hour collection (Some h1) w),
         (extracted hour collection (Some h2) w),
         (extracted hour collection None w).
  split; [apply extract_rows; assumption|].
  split; [apply extract_rows; assumption|].
  split; [apply extract_rows; [reflexivity | exact Hio]|].
  split; [|split].
  - intros row H. apply in_extracted in H. apply in_extracted.
    destruct H as (A & B & C & D). repeat split; auto.
    unfold crawled_since in *.
    destruct (last_crawled row) as [t|]; [|discriminate].
    apply Z.leb_le in D. apply Z.leb_le. nia.
  - intros row H. apply in_extracted in H. apply in_extracted.
    destruct H as (A & B & C & D). repeat split; auto.
  - intros row _ Hnull H. apply in_extracted in H.
    destruct H as (_ & _ & _ & D). unfold crawled_since in D.
    rewrite Hnull in D. discriminate.
Qed.

Lemma extract_texts_by_collection_window_witness :
  let page := fun i content crawled =>
    mkWebpage i (s2l "https://www.example.go.ke/") None content
              (Some (s2l "kfc")) crawled false None in
  let rows := [page 1 (Some (s2l "new")) (Some 290);
               page 2 (Some (s2l "old")) (Some 100);
               page 3 (Some (s2l "never")) None] in
  let w := mkWorld rows rows [] 300 [] in
  let run := fun hours_ago =>
    fst (extract_texts_by_collection 10 (fun _ => s2l "overflow")
                                     (s2l "kfc") hours_ago false false w) in
  exists rows1 rows2 rows,
    run (Some 1%Z) = Ok (map (item_of false false) rows1)
    /\ run (Some 24%Z) = Ok (map (item_of false false) rows2)
    /\ run None = Ok (map (item_of false false) rows)
    /\ incl rows1 rows2 /\ incl rows2 rows.
Proof.
  intros page rows w run.
  destruct (@extract_texts_by_collection_window
              10 (fun _ => s2l "overflow") (s2l "kfc") 1%Z 24%Z
              false false w)
    as (r1 & r2 & r & H1 & H2 & H3 & I1 & I2 & _).
  - lia.
  - reflexivity.
  - reflexivity.
  - reflexivity.
  - exists r1, r2, r. auto.
Defined.

(** X24.  What is waiting to be indexed can be extracted: every
    document that [get_unindexed_documents] returns with a content
    that is not empty is, with the same id, content and crawl time,
    among the texts that [extract_texts_by_collection] returns for the
    collection when no window is given. *)
Theorem unindexed_documents_are_extracted
        (hour : nat) (overflow_error : Z -> str) (collection : str)
        (include_title include_url : bool)
        (w : World) (docs : list Doc) (texts : list Item) :
  fst (get_unindexed_documents collection w) = Ok docs ->
  fst (extract_texts_by_collection hour overflow_error collection None
                                   include_title include_url w) = Ok texts ->
  forall d,
    In d docs -> not_empty (doc_content d) = true ->
    exists item,
      In item texts
      /\ item_id item = doc_id d
      /\ Some (item_content item) = doc_content d
      /\ item_last_crawled item = doc_last_crawled d.
Proof.
  intros Hdocs Htexts d Hd Hne.
  assert (Hio : failure_within 1 (faults w) = None
                /\ docs = map webpage_data
                              (filter (unindexed_in collection) (session w))).
  { destruct w as [t s v c [|[|e g] fs]]; cbn in Hdocs |- *;
      try discriminate; injection Hdocs as <-; auto. }
  destruct Hio as [Hio ->].
  rewrite (@extract_rows hour overflow_error collection None
                         include_title include_url w eq_refl Hio)
    in Htexts.
  injection Htexts as <-.
  apply in_map_iff in Hd. destruct Hd as (row & <- & Hrow).
  apply filter_In in Hrow. destruct Hrow as [Hin Hsel].
  cbn [doc_content webpage_data] in Hne.
  exists (item_of include_title include_url row).
  split.
  - apply in_map. apply in_extracted. repeat split; auto.
    unfold unindexed_in in Hsel. apply andb_true_iff in Hsel.
    destruct Hsel as [Hsel _]. apply andb_true_iff in Hsel. apply Hsel.
  - apply not_empty_some in Hne. destruct Hne as (c & t & Hc).
    unfold item_of. cbn. rewrite Hc. cbn. auto.
Qed.

Lemma unindexed_documents_are_extracted_witness :
  let page := fun i content indexed =>
    mkWebpage i (s2l "https://www.example.go.ke/") None content
              (Some (s2l "kfc")) None indexed None in
  let rows := [page 1 (Some (s2l "text")) false;
               page 2 (Some (s2l "")) false;
               page 3 (Some (s2l "done")) true] in
  let w := mkWorld rows rows [] 0 [] in
  let d := webpage_data (page 1 (Some (s2l "text")) false) in
  exists item,
    In item [item_of true true (page 1 (Some (s2l "text")) false);
             item_of true true (page 3 (Some (s2l "done")) true)]
    /\ item_id item = 1.
Proof.
  intros page rows w d.
  destruct (@unindexed_documents_are_extracted
              10 (fun _ => s2l "overflow") (s2l "kfc") true true w
              [d; webpage_data (page 2 (Some (s2l "")) false)]
              [item_of true true (page 1 (Some (s2l "text")) false);
               item_of true true (page 3 (Some (s2l "done")) true)]
              eq_refl eq_refl d (or_introl eq_refl) eq_refl)
    as (item & Hin & Hid & _).
  exists item. split; [exact Hin | exact Hid].
Defined.

Lemma fold_blocks (A : Type) (f : A -> str) (l : list A) (init : str) :
  fold_left (fun acc x => acc ++ f x) l init = init ++ List.concat (map f l).
Proof.
  revert init. induction l as [|x l IH]; intros init; simpl.
  - rewrite app_nil_r. reflexivity.
  - rewrite IH, app_assoc. reflexivity.
Qed.

Lemma markdown_block_of_row (row : Webpage) :
  markdown_block (item_of true true row) = markdown_of_row row.
Proof. reflexivity. Qed.

Lemma text_block_of_row (row : Webpage) :
  text_block (item_of true true row) = text_of_row row.
Proof.
  unfold text_block, text_of_row, title_of, item_of.
  cbn [item_title item_content andb].
  destruct (title row) as [[|c t]|]; reflexivity.
Qed.

Lemma str_eqb_neq (a b : str) : a <> b -> str_eqb a b = false.
Proof.
  intros H. destruct (str_eqb a b) eqn:E; [|reflexivity].
  apply str_eqb_eq in E. contradiction.
Qed.

Lemma blocks_empty (f : Webpage -> str) (rows : list Webpage) :
  (forall row, f row <> []) ->
  (List.concat (map f rows) = [] <-> rows = []).
Proof.
  intros Hf. destruct rows as [|row rows]; simpl; split;
    try reflexivity; try discriminate.
  intros H. apply app_eq_nil in H. destruct H as [H _].
  exfalso. exact (Hf row H).
Qed.

Lemma markdown_of_row_not_empty (row : Webpage) : markdown_of_row row <> [].
Proof. discriminate. Qed.

Lemma text_of_row_not_empty (row : Webpage) : text_of_row row <> [].
Proof.
  unfold text_of_row. intros H.
  apply (f_equal (@List.length char)) in H.
  rewrite !length_app in H. cbn in H. lia.
Qed.

(** X25.  [extract_text_batch] only reads, and when [datetime] can
    compute the threshold of its window and its query returns, it
    returns too.  For the format [json] it gives the dictionaries
    with title and url; for [markdown] a string with, for each
    extracted row in turn, a heading with the title of the row
    ([Untitled Document] when it has none), its url as the source (the
    default [Unknown] never shows) and its content; for any other
    format the plain text of the rows.  The string is empty exactly
    when no row is extracted. *)
Theorem extract_text_batch_output
        (hour : nat) (overflow_error : Z -> str) (collection : str)
        (hours_ago : option Z) (output_format : str) (w : World) :
  window_fits hour hours_ago w = true ->
  failure_within 1 (faults w) = None ->
  let rows := extracted hour collection hours_ago w in
  let out := extract_text_batch hour overflow_error collection hours_ago
                                output_format w in
  table (snd out) = table w /\ session (snd out) = session w
  /\ vectors (snd out) = vectors w
  /\ (output_format = s2l "json" ->
      fst out = Ok (Json (map (item_of true true) rows)))
  /\ (output_format = s2l "markdown" ->
      fst out = Ok (Plain (List.concat (map markdown_of_row rows))))
  /\ (output_format <> s2l "json" -> output_format <> s2l "markdown" ->
      fst out = Ok (Plain (List.concat (map text_of_row rows))))
  /\ (forall content,
         fst out = Ok (Plain content) -> (content = [] <-> rows = [])).
Proof.
  intros Hfits Hio rows out.
  pose proof (@extract_rows hour overflow_error collection hours_ago
                            true true w Hfits Hio) as R.
  destruct (extract_run hour overflow_error collection hours_ago true true w)
    as (Ht & Hs & Hv & _).
  fold rows in R. subst out. unfold extract_text_batch, bind.
  destruct (extract_texts_by_collection hour overflow_error collection
                                        hours_ago true true w)
    as [r w'].
  cbn [fst snd] in R, Ht, Hs, Hv. subst r.
  rewrite !fold_blocks. cbn [app].
  rewrite !map_map.
  rewrite (map_ext _ _ markdown_block_of_row).
  rewrite (map_ext _ _ text_block_of_row).
  assert (Hstate :
            forall b : Batch,
              snd ((if str_eqb output_format (s2l "json")
                    then ret (Json (map (item_of true true) rows))
                    else if str_eqb output_format (s2l "markdown")
                         then ret (Plain (List.concat (map markdown_of_row rows)))
                         else ret (Plain (List.concat (map text_of_row rows))))
                     w') = w').
  { intros _. destruct (str_eqb output_format (s2l "json"));
      [reflexivity|].
    destruct (str_eqb output_format (s2l "markdown")); reflexivity. }
  rewrite (Hstate (Json [])).
  split; [exact Ht|]. split; [exact Hs|]. split; [exact Hv|].
  split; [intros ->; reflexivity|].
  split; [intros ->; reflexivity|].
  split.
  { intros H1 H2. rewrite (str_eqb_neq H1), (str_eqb_neq H2). reflexivity. }
  intros content.
  destruct (str_eqb output_format (s2l "json")); [discriminate|].
  destruct (str_eqb output_format (s2l "markdown"));
    cbn [fst ret]; intros E; injection E as <-.
  - apply blocks_empty. exact markdown_of_row_not_empty.
  - apply blocks_empty. exact text_of_row_not_empty.
Qed.

Lemma extract_text_batch_output_witness :
  let page := fun i title content =>
    mkWebpage i (s2l "https://www.example.go.ke/") title content
              (Some (s2l "kfc")) None false None in
  let rows := [page 1 (Some (s2l "Home")) (Some (s2l "text"));
               page 2 None (Some (s2l ""))] in
  let w := mkWorld rows rows [] 0 [] in
  fst (extract_text_batch 10 (fun _ => s2l "overflow") (s2l "kfc") None
                          (s2l "markdown") w)
  = Ok (Plain (s2l "# Home" ++ newline
               ++ s2l "Source: https://www.example.go.ke/"
               ++ newline ++ newline
               ++ s2l "text" ++ newline ++ newline
               ++ s2l "---" ++ newline ++ newline)).
Proof.
  intros page rows w.
  destruct (@extract_text_batch_output
              10 (fun _ => s2l "overflow") (s2l "kfc") None (s2l "markdown") w
              eq_refl eq_refl)
    as (_ & _ & _ & _ & H & _).
  rewrite (H eq_refl). vm_compute. reflexivity.
Defined.

(** What the loop of [get_collection_stats] computes. *)
Lemma stats_loop (first_crawled : Webpage -> option nat)
      (rows : list Webpage) :
  forall e0 l0 n0,
    let r := fold_left (stats_step first_crawled) rows (e0, l0, n0) in
    snd r
    = n0 + list_sum (map (fun row =>
                            List.length (get_or [] (content_markdown row)))
                         rows)
    /\ (forall t,
           l0 = Some t
           \/ (exists row, In row rows /\ last_crawled row = Some t) ->
           exists l, snd (fst r) = Some l /\ t <= l)
    /\ (forall l,
           snd (fst r) = Some l ->
           l0 = Some l
           \/ exists row, In row rows /\ last_crawled row = Some l)
    /\ (forall t,
           e0 = Some t
           \/ (exists row, In row rows /\ first_crawled row = Some t) ->
           exists e, fst (fst r) = Some e /\ e <= t)
    /\ (forall e,
           fst (fst r) = Some e ->
           e0 = Some e
           \/ exists row, In row rows /\ first_crawled row = Some e).
Proof.
  induction rows as [|row rows IH]; intros e0 l0 n0.
  - cbn. split; [lia|].
    split; [intros t [->|(row & [] & _)]; eauto|].
    split; [auto|].
    split; [intros t [->|(row & [] & _)]; eauto | auto].
  - intros r. subst r. cbn [fold_left].
    pose (e1 := match first_crawled row, e0 with
               | Some t, None => Some t
               | Some t, Some e => if t <? e then Some t else Some e
               | None, _ => e0
               end).
    pose (l1 := match last_crawled row, l0 with
               | Some t, None => Some t
               | Some t, Some l => if l <? t then Some t else Some l
               | None, _ => l0
               end).
    pose (n1 := if not_empty (content_markdown row)
               then n0 + List.length (get_or [] (content_markdown row))
               else n0).
    change (stats_step first_crawled (e0, l0, n0) row) with (e1, l1, n1).
    destruct (IH e1 l1 n1) as (Hn & Hl1 & Hl2 & He1 & He2).
    assert (Hn1 : n1 = n0 + List.length (get_or [] (content_markdown row))).
    { subst n1. destruct (content_markdown row) as [[|c t]|]; cbn; lia. }
    assert (Hlmax : forall t,
               l0 = Some t \/ last_crawled row = Some t ->
               exists l, l1 = Some l /\ t <= l).
    { intros t [->|E]; subst l1.
      - destruct (last_crawled row) as [t'|]; [|eauto].
        destruct (Nat.ltb_spec t t'); eexists; split; eauto; lia.
      - rewrite E. destruct l0 as [l|]; [|eauto].
        destruct (Nat.ltb_spec l t); eexists; split; eauto; lia. }
    assert (Hlfrom : forall l,
               l1 = Some l -> l0 = Some l \/ last_crawled row = Some l).
    { intros l. subst l1.
      destruct (last_crawled row) as [t'|], l0 as [l'|];
        try destruct (l' <? t'); auto. }
    assert (Hemin : forall t,
               e0 = Some t \/ first_crawled row = Some t ->
               exists e, e1 = Some e /\ e <= t).
    { intros t [->|E]; subst e1.
      - destruct (first_crawled row) as [t'|]; [|eauto].
        destruct (Nat.ltb_spec t' t); eexists; split; eauto; lia.
      - rewrite E. destruct e0 as [e|]; [|eauto].
        destruct (Nat.ltb_spec t e); eexists; split; eauto; lia. }
    assert (Hefrom : forall e,
               e1 = Some e -> e0 = Some e \/ first_crawled row = Some e).
    { intros e. subst e1.
      destruct (first_crawled row) as [t'|], e0 as [e'|];
        try destruct (t' <? e'); auto. }
    split; [rewrite Hn, Hn1; cbn [map]; unfold list_sum;
            cbn [fold_right]; lia|].
    split.
    { intros t [H|(row0 & [<-|Hin] & E)].
      - destruct (Hlmax t (or_introl H)) as (l & El & Hle).
        destruct (Hl1 l (or_introl El)) as (l' & El' & Hle').
        exists l'. split; [exact El' | lia].
      - destruct (Hlmax t (or_intror E)) as (l & El & Hle).
        destruct (Hl1 l (or_introl El)) as (l' & El' & Hle').
        exists l'. split; [exact El' | lia].
      - apply Hl1. right. eauto. }
    split.
    { intros l H. destruct (Hl2 l H) as [H1|(row0 & Hin & E)].
      - destruct (Hlfrom l H1) as [H0|H0]; [auto|].
        right. exists row. split; [left; reflexivity | exact H0].
      - right. exists row0. split; [right; exact Hin | exact E]. }
    split.
    { intros t [H|(row0 & [<-|Hin] & E)].
      - destruct (Hemin t (or_introl H)) as (e & Ee & Hle).
        destruct (He1 e (or_introl Ee)) as (e' & Ee' & Hle').
        exists e'. split; [exact Ee' | lia].
      - destruct (Hemin t (or_intror E)) as (e & Ee & Hle).
        destruct (He1 e (or_introl Ee)) as (e' & Ee' & Hle').
        exists e'. split; [exact Ee' | lia].
      - apply He1. right. eauto. }
    intros e H. destruct (He2 e H) as [H1|(row0 & Hin & E)].
    + destruct (Hefrom e H1) as [H0|H0]; [auto|].
      right. exists row. split; [left; reflexivity | exact H0].
    + right. exists row0. split; [right; exact Hin | exact E].
Qed.

(** X26.  For a collection id that is not empty, when the query
    returns, [get_collection_stats] only reads and reports the
    collection: the number of its rows, the total length of their
    contents, as latest crawl the greatest [last_crawled] among them
    and as earliest crawl the least [first_crawled] (each one the time
    of some row, and missing exactly when no row has one). *)
Theorem get_collection_stats_of_collection
        (first_crawled : Webpage -> option nat) (collection : str)
        (w : World) :
  collection <> [] ->
  failure_within 1 (faults w) = None ->
  let rows := filter (in_collection collection) (session w) in
  let out := get_collection_stats first_crawled (Some collection) w in
  table (snd out) = table w /\ session (snd out) = session w
  /\ exists stats,
      fst out = Ok (OneCollection stats)
      /\ cs_collection_id stats = collection
      /\ webpage_count stats = List.length rows
      /\ total_characters stats
         = list_sum (map (fun row =>
                            List.length (get_or [] (content_markdown row)))
                         rows)
      /\ (forall row t,
             In row rows -> last_crawled row = Some t ->
             exists l, latest_crawl stats = Some l /\ t <= l)
      /\ (forall l,
             latest_crawl stats = Some l ->
             exists row, In row rows /\ last_crawled row = Some l)
      /\ (forall row t,
             In row rows -> first_crawled row = Some t ->
             exists e, earliest_crawl stats = Some e /\ e <= t)
      /\ (forall e,
             earliest_crawl stats = Some e ->
             exists row, In row rows /\ first_crawled row = Some e).
Proof.
  intros Hne Hio rows out.
  destruct collection as [|c0 c']; [congruence|].
  set (collection := c0 :: c') in *.
  pose proof (stats_loop first_crawled rows None None 0) as L.
  cbn zeta in L.
  assert (Hout : out
                 = (let '(earliest_crawl, latest_crawl, total_characters) :=
                      fold_left (stats_step first_crawled) rows
                                (None, None, 0) in
                    Ok (OneCollection
                          (mkCollectionStats collection (List.length rows)
                             total_characters earliest_crawl latest_crawl)),
                    mkWorld (table w) (session w) (vectors w) (clock w)
                            (tl (faults w)))).
  { subst out rows. destruct w as [t s v c fs].
    destruct fs as [|[|e g] fs]; cbn in Hio; try discriminate;
      cbv beta iota zeta delta
          [get_collection_stats try_except bind db_select await_io
           await_bulk get ret not_empty get_or faults session table
           vectors clock tl collection];
      destruct (fold_left _ _ _) as [[e1 l1] n1]; reflexivity. }
  rewrite Hout. clear Hout.
  destruct (fold_left (stats_step first_crawled) rows (None, None, 0))
    as [[e1 l1] n1].
  cbn [fst snd] in L. destruct L as (Hn & Hl1 & Hl2 & He1 & He2).
  cbn [fst snd table session].
  split; [reflexivity|]. split; [reflexivity|].
  eexists. split; [reflexivity|].
  cbn [cs_collection_id webpage_count total_characters latest_crawl
       earliest_crawl].
  split; [reflexivity|]. split; [reflexivity|]. split; [exact Hn|].
  split; [intros row t Hin E; apply Hl1; right; eauto|].
  split; [intros l E; destruct (Hl2 l E) as [H|H]; [discriminate | exact H]|].
  split; [intros row t Hin E; apply He1; right; eauto|].
  intros e E. destruct (He2 e E) as [H|H]; [discriminate | exact H].
Qed.

Lemma get_collection_stats_of_collection_witness :
  let page := fun i coll content crawled =>
    mkWebpage i (s2l "https://www.example.go.ke/") None content
              (Some coll) crawled false None in
  let rows := [page 1 (s2l "kfc") (Some (s2l "text")) (Some 7);
               page 2 (s2l "brs") (Some (s2l "other")) (Some 9);
               page 3 (s2l "kfc") None (Some 3)] in
  let w := mkWorld rows rows [] 10 [] in
  let out := get_collection_stats (fun _ => None) (Some (s2l "kfc")) w in
  exists stats,
    fst out = Ok (OneCollection stats)
    /\ webpage_count stats = 2
    /\ total_characters stats = 4.
Proof.
  intros page rows w out.
  destruct (@get_collection_stats_of_collection
              (fun _ => None) (s2l "kfc") w)
    as (_ & _ & stats & Hok & _ & Hc & Ht & _).
  - discriminate.
  - reflexivity.
  - exists stats. split; [exact Hok|].
    split; [rewrite Hc | rewrite Ht]; reflexivity.
Defined.

Lemma same_group_eq (a b : option str) : same_group a b = true <-> a = b.
Proof.
  destruct a as [x|], b as [y|]; simpl; rewrite ?str_eqb_eq;
    split; congruence.
Qed.

Lemma same_group_in_collection (collection : str) (row : Webpage) :
  same_group (Some collection) (collection_id row)
  = in_collection collection row.
Proof.
  unfold in_collection, sql_eq. destruct (collection_id row) as [x|];
    [|reflexivity].
  simpl. destruct (str_eqb collection x) eqn:E, (str_eqb x collection) eqn:F;
    try reflexivity.
  - apply str_eqb_eq in E. subst x. rewrite str_eqb_refl in F. discriminate.
  - apply str_eqb_eq in F. subst x. rewrite str_eqb_refl in E. discriminate.
Qed.

Lemma in_group_keys (rows : list Webpage) (key : option str) :
  In key (group_keys rows) <-> In key (map collection_id rows).
Proof.
  induction rows as [|row rows IH]; simpl; [reflexivity|].
  destruct (existsb (same_group (collection_id row)) (group_keys rows))
    eqn:E.
  - rewrite IH. split; [auto|]. intros [<-|H]; [|exact H].
    apply existsb_exists in E. destruct E as (k & Hk & Ek).
    apply same_group_eq in Ek. subst k. apply IH. exact Hk.
  - simpl. rewrite IH. reflexivity.
Qed.

Lemma nodup_group_keys (rows : list Webpage) : NoDup (group_keys rows).
Proof.
  induction rows as [|row rows IH]; simpl; [constructor|].
  destruct (existsb (same_group (collection_id row)) (group_keys rows))
    eqn:E; [exact IH|].
  constructor; [|exact IH]. intros H.
  assert (existsb (same_group (collection_id row)) (group_keys rows) = true).
  { apply existsb_exists. exists (collection_id row).
    split; [exact H | apply same_group_eq; reflexivity]. }
  congruence.
Qed.

(** The listing built from the groups. *)
Lemma in_listing (count : option str -> nat) (keys : list (option str))
      (c : str) (k : nat) :
  In (c, k)
     (flat_map (fun cc : option str * nat =>
                  if not_empty (fst cc) then [(get_or [] (fst cc), snd cc)]
                  else [])
               (map (fun key => (key, count key)) keys))
  <-> c <> [] /\ In (Some c) keys /\ k = count (Some c).
Proof.
  rewrite in_flat_map. split.
  - intros ([key n] & Hin & H). apply in_map_iff in Hin.
    destruct Hin as (key' & E & Hin). injection E as -> <-.
    cbn [fst snd] in H.
    destruct key as [[|c0 t]|]; cbn in H; try contradiction.
    destruct H as [H|[]]. injection H as <- <-.
    split; [discriminate|]. auto.
  - intros (Hne & Hin & ->). exists (Some c, count (Some c)).
    split; [apply in_map_iff; eauto|].
    destruct c as [|c0 t]; [congruence|]. left. reflexivity.
Qed.

Lemma nodup_listing (count : option str -> nat) (keys : list (option str)) :
  NoDup keys ->
  NoDup (map fst
             (flat_map (fun cc : option str * nat =>
                          if not_empty (fst cc)
                          then [(get_or [] (fst cc), snd cc)]
                          else [])
                       (map (fun key => (key, count key)) keys))).
Proof.
  induction keys as [|key keys IH]; intros Hnd; [constructor|].
  apply NoDup_cons_iff in Hnd. destruct Hnd as [Hkey Hnd].
  cbn [map flat_map fst snd].
  destruct key as [[|c0 t]|]; cbn [not_empty app]; try (apply IH; exact Hnd).
  cbn [get_or map fst]. constructor; [|apply IH; exact Hnd].
  intros H. apply in_map_iff in H. destruct H as ([c k] & E & H).
  cbn in E. subst c. apply in_listing in H. apply Hkey. apply H.
Qed.

(** X27.  Without a collection id (or with the empty string),
    [get_collection_stats] only reads and, when its query returns,
    lists the collections: each collection id that is not empty and
    has at least one row appears exactly once, with the number of its
    rows, which is the count that the statistics of that collection
    report; rows without a collection id are not listed. *)
Theorem get_collection_stats_listing
        (first_crawled : Webpage -> option nat) (collection : option str)
        (w : World) :
  not_empty collection = false ->
  failure_within 1 (faults w) = None ->
  let out := get_collection_stats first_crawled collection w in
  table (snd out) = table w /\ session (snd out) = session w
  /\ exists collections,
      fst out = Ok (AllCollections (List.length collections) collections)
      /\ NoDup (map fst collections)
      /\ forall c k,
          In (c, k) collections <->
          c <> [] /\ 0 < k
          /\ k = List.length (filter (in_collection c) (session w)).
Proof.
  intros Hne Hio out.
  set (count := fun key : option str =>
                  List.length
                    (filter (fun row => same_group key (collection_id row))
                            (session w))).
  set (listing :=
         flat_map (fun cc : option str * nat =>
                     if not_empty (fst cc)
                     then [(get_or [] (fst cc), snd cc)]
                     else [])
                  (map (fun key => (key, count key))
                       (group_keys (session w)))).
  assert (Hout : out
                 = (Ok (AllCollections (List.length listing) listing),
                    mkWorld (table w) (session w) (vectors w) (clock w)
                            (tl (faults w)))).
  { subst out listing count. destruct w as [t s v c fs].
    unfold get_collection_stats. rewrite Hne.
    destruct fs as [|[|e g] fs]; cbn in Hio; try discriminate;
      reflexivity. }
  rewrite Hout. cbn [fst snd table session].
  split; [reflexivity|]. split; [reflexivity|].
  exists listing. split; [reflexivity|].
  split; [apply nodup_listing; apply nodup_group_keys|].
  intros c k. unfold listing. rewrite in_listing, in_group_keys.
  unfold count.
  rewrite (filter_ext _ _ (same_group_in_collection c)).
  split.
  - intros (Hc & Hin & ->). split; [exact Hc|]. split; [|reflexivity].
    apply in_map_iff in Hin. destruct Hin as (row & E & Hin).
    assert (Hrow : In row (filter (in_collection c) (session w))).
    { apply filter_In. split; [exact Hin|].
      rewrite <- same_group_in_collection. apply same_group_eq.
      symmetry. exact E. }
    destruct (filter (in_collection c) (session w)); [contradiction|].
    simpl. lia.
  - intros (Hc & Hk & ->). split; [exact Hc|]. split; [|reflexivity].
    destruct (filter (in_collection c) (session w)) as [|row rows] eqn:F;
      [simpl in Hk; lia|].
    assert (Hrow : In row (filter (in_collection c) (session w))).
    { rewrite F. left. reflexivity. }
    apply filter_In in Hrow. destruct Hrow as [Hin Hcoll].
    apply in_map_iff. exists row. split; [|exact Hin].
    rewrite <- same_group_in_collection in Hcoll.
    apply same_group_eq in Hcoll. symmetry. exact Hcoll.
Qed.

Lemma get_collection_stats_listing_witness :
  let page := fun i coll =>
    mkWebpage i (s2l "https://www.example.go.ke/") None None
              coll None false None in
  let rows := [page 1 (Some (s2l "kfc")); page 2 None;
               page 3 (Some (s2l "kfc")); page 4 (Some (s2l ""))] in
  let w := mkWorld rows rows [] 0 [] in
  exists collections,
    fst (get_collection_stats (fun _ => None) (Some (s2l "")) w)
    = Ok (AllCollections (List.length collections) collections)
    /\ In (s2l "kfc", 2) collections.
Proof.
  intros page rows w.
  destruct (@get_collection_stats_listing
              (fun _ => None) (Some (s2l "")) w eq_refl eq_refl)
    as (_ & _ & collections & Hok & _ & Hin).
  exists collections. split; [exact Hok|].
  apply Hin. split; [discriminate|]. split; [|reflexivity].
  vm_compute. lia.
Defined.

End ExtractionFacts.

(** ** The follow-up questions *)

Module FollowUpFacts.
Import FollowUp.





(** X29.  Adding questions one after the other keeps those that fit
    before the tenth place is taken and silently drops the rest: a
    container with ten questions or more is returned as it is.  After
    an addition that took place, [total_count] is the number of
    questions; the overall confidence is never touched. *)
Theorem add_question_keeps_ten
        (c : FollowUpQuestions) (qs : list FollowUpQuestion) :
  let c' := fold_left add_question qs c in
  questions c' = questions c ++ firstn (10 - List.length (questions c)) qs
  /\ generation_confidence c' = generation_confidence c
  /\ (10 <= List.length (questions c) -> c' = c)
  /\ (List.length (questions c) < 10 -> qs <> [] ->
      total_count c' = Z.of_nat (List.length (questions c')))
  /\ (List.length (questions c) <= 10 -> List.length (questions c') <= 10).
Proof.
  revert c. induction qs as [|q qs IH]; intros c c'; subst c'.
  - cbn [fold_left]. rewrite firstn_nil, app_nil_r.
    repeat split; auto. intros _ H. congruence.
  - cbn [fold_left]. specialize (IH (add_question c q)). cbn zeta in IH.
    destruct IH as (Hq & Hg & Hfull & Hcount & Hlen).
    unfold add_question in *.
    destruct (Nat.ltb_spec (List.length (questions c)) 10) as [Hlt|Hge].
    + cbn [questions generation_confidence total_count] in *.
      rewrite length_app in *. cbn [List.length] in *.
      split.
      { rewrite Hq, <- app_assoc. cbn [app]. f_equal.
        replace (10 - List.length (questions c))
          with (S (10 - (List.length (questions c) + 1))) by lia.
        reflexivity. }
      split; [exact Hg|]. split; [lia|].
      split; [|intros _; apply Hlen; lia].
      intros _ _.
      destruct qs as [|q' qs'].
      * cbn [fold_left questions total_count]. rewrite length_app.
        reflexivity.
      * destruct (Nat.lt_ge_cases (List.length (questions c) + 1) 10)
          as [H|H].
        { apply Hcount; [exact H | discriminate]. }
        rewrite (Hfull H). cbn [questions total_count].
        rewrite length_app. reflexivity.
    + split.
      { rewrite Hq. replace (10 - List.length (questions c)) with 0 by lia.
        reflexivity. }
      split; [exact Hg|]. split; [intros _; apply Hfull; exact Hge|].
      split; [lia | lia].
Qed.

(** X30.  The count that the constructor of [FollowUpQuestions] sets:
    without a [total_count], or with 0, it is the number of questions;
    any other [total_count] is kept as given, whatever the number of
    questions.  [add_question] then sets it to the number of questions
    when it adds the question, and leaves it as it is when the
    container is full. *)
Theorem total_count_of_container
        (data : Data) (c : FollowUpQuestions) (q : FollowUpQuestion) :
  FollowUpQuestions_init data = Some c ->
  (data_total_count data = None \/ data_total_count data = Some 0%Z ->
   total_count c = Z.of_nat (List.length (questions c)))
  /\ (forall n, data_total_count data = Some n -> n <> 0%Z ->
                total_count c = n /\ (0 < n)%Z)
  /\ (List.length (questions c) < 10 ->
      total_count (add_question c q)
      = Z.of_nat (List.length (questions (add_question c q)))
      /\ questions (add_question c q) = questions c ++ [q])
  /\ (10 <= List.length (questions c) -> add_question c q = c).
Proof.
  unfold FollowUpQuestions_init. intros H.
  destruct ((0 <=? match data_total_count data with
                   | Some n => n
                   | None => 0%Z
                   end)%Z) eqn:Hn; [|discriminate].
  destruct (valid_confidence (data_generation_confidence data));
    [|discriminate].
  cbn [andb] in H. injection H as <-.
  cbn [questions total_count].
  split; [intros [-> | ->]; reflexivity|].
  split.
  { intros n E Hne. rewrite E in *. apply Z.leb_le in Hn.
    destruct n; try congruence; split; try reflexivity; lia. }
  unfold add_question. cbn [questions].
  split.
  - intros Hlt. apply Nat.ltb_lt in Hlt. rewrite Hlt.
    cbn [questions total_count]. split; reflexivity.
  - intros Hge. apply Nat.ltb_ge in Hge. rewrite Hge. reflexivity.
Qed.

Lemma total_count_of_container_witness :
  let q := mkFollowUpQuestion (s2l "What are the fees?") MORE_DETAILS HIGH
                              None [] in
  let c := mkFollowUpQuestions [] 5%Z None in
  FollowUpQuestions_init (mkData None (Some 5%Z) None) = Some c
  /\ total_count c = 5%Z
  /\ total_count (add_question c q) = 1%Z.
Proof.
  intros q c.
  destruct (@total_count_of_container (mkData None (Some 5%Z) None) c q
                                      eq_refl)
    as (_ & Hkept & Hadd & _).
  split; [reflexivity|].
  split; [apply (Hkept 5%Z eq_refl); discriminate|].
  destruct Hadd as [Hadd _]; [cbn; lia|].
  rewrite Hadd. reflexivity.
Defined.

End FollowUpFacts.
